(** * Jackpot Singularity: coin interactions and economy

    A shallow embedding of the game logic of the coin pusher: the collision
    reducer of the [Coins] component, the registry and economy handlers of
    [App], and the price computation of the [Shop].

    Modelling conventions.
    - React state is threaded explicitly.  A functional updater
      [setState(prev => ...)] is a function on the state; the value a handler
      reads from [gameStateRef.current] (or from the [gameState] captured by
      the closures of the last render) is the separate field [gameStateRef],
      brought up to date by [render].  Statements about one handler are made
      for a handler that runs on the rendered game, [handler (render a)].
    - [Math.random] is an oracle: every handler that draws from it takes the
      values of its random expressions as arguments ([Rnd]).  Nothing in the
      program makes a drawn id differ from the ids in use; where a statement
      needs that, it says so.
    - Numbers.  Money, score, levels and counts are integers in the program
      and are modelled in [Z].  The numbers of the program are doubles.
      Where the rounding decides what is computed, the operations round as
      binary64 does ([Binary64], rationals with the rounding written out):
      the score paid by a collection, with its multipliers
      [Math.pow(1.5, level)] and [1 + 0.1 * (bonusLevel - 1)], and the
      physics clock, a running sum.  The bonus meter and its decay, the
      prices of the shop and the size of a jackpot burst are written on
      exact rationals ([Q]).  Positions, velocities and impulses are the
      binary64 floats of the kernel ([PrimFloat]), so that a division by
      zero yields what it yields in JavaScript.
    - Ids are ASCII strings; [<] on ids is the lexicographic order on
      character codes ([String.ltb]).
    - Sound effects ([playSound]) are stubs in the program and are left
      out. *)

From Stdlib Require Import ZArith QArith Qround Qpower Lqa PrimFloat SpecFloat FloatOps Ascii.
From stdpp Require Import base option list gmap strings pretty.

Local Open Scope string_scope.
Local Open Scope list_scope.

(** ** types.ts *)

Inductive GamePhase := MENU | PLAYING | SHOP | GAME_OVER.

Inductive CoinType :=
  | STANDARD | SPLITTER | HEAVY | GOLD | BOMB
  | SEED | WATER | MAGMA | ICE | KEY | CHEST
  | TREE | OBSIDIAN | DIAMOND.

#[global] Instance GamePhase_eq_dec : EqDecision GamePhase.
Proof. solve_decision. Defined.

#[global] Instance CoinType_eq_dec : EqDecision CoinType.
Proof. solve_decision. Defined.

(** The string value of each member of the string enum. *)
Definition CoinType_str (t : CoinType) : string :=
  match t with
  | STANDARD => "STANDARD" | SPLITTER => "SPLITTER" | HEAVY => "HEAVY"
  | GOLD => "GOLD" | BOMB => "BOMB" | SEED => "SEED" | WATER => "WATER"
  | MAGMA => "MAGMA" | ICE => "ICE" | KEY => "KEY" | CHEST => "CHEST"
  | TREE => "TREE" | OBSIDIAN => "OBSIDIAN" | DIAMOND => "DIAMOND"
  end.

(** [[number, number, number]] *)
Definition Triple : Type := (float * float * float)%type.

(** An object with fields x, y, z (THREE.Vector3, Rapier vectors). *)
Module Vector3.
Record t := mk { x : float; y : float; z : float }.
End Vector3.

Module CoinData.
Record t := mk {
  id : string;
  type : CoinType;
  position : Triple;
  rotation : Triple;
  hasSplit : option bool;   (* hasSplit?: boolean *)
  isActive : option bool    (* isActive?: boolean *)
}.
(** [{ ...c, hasSplit: b }] *)
Definition with_hasSplit (b : bool) (c : t) : t :=
  mk (id c) (type c) (position c) (rotation c) (Some b) (isActive c).
(** [{ ...c, type: ty }] *)
Definition with_type (ty : CoinType) (c : t) : t :=
  mk (id c) ty (position c) (rotation c) (hasSplit c) (isActive c).
End CoinData.

(** Truthiness of an optional boolean and of an optional string. *)
Definition truthy_flag (o : option bool) : bool :=
  match o with Some true => true | _ => false end.

Definition truthy_str (o : option string) : bool :=
  match o with Some s => negb (String.eqb s "") | None => false end.

Module DeckItem.
Record t := mk {
  type : CoinType;
  count : Z;
  name : string;
  value : Z;
  score : Z;
  cost : Z;
  color : string;
  description : string
}.
End DeckItem.

Module Artifact.
Record t := mk {
  id : string;
  name : string;
  description : string;
  cost : Z;
  active : bool;
  level : Z
}.
(** [{ ...a, level: l }] *)
Definition with_level (l : Z) (a : t) : t :=
  mk (id a) (name a) (description a) (cost a) (active a) l.
(** [{ ...a, active: true, level: 1 }] *)
Definition activated (a : t) : t :=
  mk (id a) (name a) (description a) (cost a) true 1.
End Artifact.

Module GameState.
Record t := mk {
  phase : GamePhase;
  score : Z;
  targetScore : Z;
  cash : Z;
  ante : Z;
  deck : CoinType -> Z;
  artifacts : list Artifact.t;
  bonus : Q;
  bonusLevel : Z
}.
End GameState.

(** ** constants.ts *)

Definition COIN_CONFIG (t : CoinType) : DeckItem.t :=
  match t with
  | STANDARD => DeckItem.mk STANDARD 0 "Standard Chip" 10 100 5 "#cd7f32"
                  "Basic reliable currency."
  | SPLITTER => DeckItem.mk SPLITTER 0 "Splitter Cell" 15 150 50 "#22c55e"
                  "High bounciness. Unstable."
  | HEAVY => DeckItem.mk HEAVY 0 "Heavy Anchor" 20 300 80 "#475569"
                  "Massive weight. Pushes piles."
  | GOLD => DeckItem.mk GOLD 0 "Midas Touch" 100 1000 200 "#facc15"
                  "High value target."
  | BOMB => DeckItem.mk BOMB 0 "Cluster Bomb" 5 50 150 "#ef4444"
                  "Explodes on impact."
  | SEED => DeckItem.mk SEED 0 "Nanoseed" 5 50 40 "#84cc16"
                  "Combine with Hydro-Vial."
  | WATER => DeckItem.mk WATER 0 "Hydro-Vial" 5 50 40 "#3b82f6"
                  "Combine with Nanoseed."
  | MAGMA => DeckItem.mk MAGMA 0 "Pyro-Core" 10 80 60 "#f97316"
                  "Hot! Combine with Cryo-Cell."
  | ICE => DeckItem.mk ICE 0 "Cryo-Cell" 10 80 60 "#a5f3fc"
                  "Cold! Combine with Pyro-Core."
  | KEY => DeckItem.mk KEY 0 "Access Key" 50 200 120 "#e2e8f0"
                  "Unlocks Cached Chests."
  | CHEST => DeckItem.mk CHEST 0 "Locked Cache" 50 200 120 "#78350f"
                  "Needs an Access Key."
  | TREE => DeckItem.mk TREE 0 "Yggdrasil Node" 500 5000 9999 "#14532d"
                  "Grown from Seed + Water."
  | OBSIDIAN => DeckItem.mk OBSIDIAN 0 "Obsidian Slab" 300 3000 9999 "#1e1b4b"
                  "Forged from Fire + Ice. Heavy."
  | DIAMOND => DeckItem.mk DIAMOND 0 "Quantum Diamond" 1000 10000 9999 "#ffffff"
                  "Unlocked from Cache."
  end.

Definition INITIAL_DECK (t : CoinType) : Z :=
  match t with
  | STANDARD => 30 | SPLITTER => 2 | HEAVY => 1 | SEED => 3 | WATER => 3
  | _ => 0
  end.

Definition SHOP_ARTIFACTS : list Artifact.t :=
  [ Artifact.mk "magnet" "Flux Magnet" "Coins settle faster per level." 300 false 0;
    Artifact.mk "extender" "Bed Extender" "Widens playing area." 500 false 0;
    Artifact.mk "mult" "Score Multiplier" "Score x1.5 per level." 800 false 0 ].

(** MACHINE_DIMENSIONS is imported by App from constants.ts but is not
    declared there; the functions that read it take it as a parameter
    ([MachineDimensions] below). *)

(** ** JavaScript containers with insertion order *)

(** [Map.prototype.set]: an existing key keeps its place, a new key goes last. *)
Fixpoint Map_set {V : Type} (k : string) (v : V) (m : list (string * V))
  : list (string * V) :=
  match m with
  | [] => [(k, v)]
  | (k', v') :: m' =>
      if decide (k' = k) then (k, v) :: m' else (k', v') :: Map_set k v m'
  end.

(** [Set.prototype.add] *)
Definition Set_add (k : string) (s : list string) : list string :=
  if decide (k ∈ s) then s else s ++ [k].

(** [new Map(init).set(k1, v1).set(k2, v2)...] on a map whose iteration order
    is never observed: later entries overwrite earlier ones. *)
Definition Map_of_entries {V : Type} (init : gmap string V)
    (entries : list (string * V)) : gmap string V :=
  foldl (fun m kv => <[kv.1 := kv.2]> m) init entries.

(** ** The physics collaborator, as the collision reducer sees it *)

Module RapierRigidBody.
Record t := mk {
  handle : Z;
  translation : Vector3.t;
  linvel : Vector3.t
}.
End RapierRigidBody.

(** [userData] of a rigid body object: [{ coinId?: string; coinType?: CoinType }] *)
Module UserData.
Record t := mk { coinId : option string; coinType : option CoinType }.
End UserData.

(** [payload.other.rigidBodyObject]: the scene object of the other body. *)
Module RigidBodyObject.
Record t := mk { name : string; userData : option UserData.t }.
End RigidBodyObject.

(** One side of a collision payload ([payload.target], [payload.other]). *)
Module CollisionSide.
Record t := mk {
  rigidBody : option RapierRigidBody.t;
  rigidBodyObject : option RigidBodyObject.t
}.
End CollisionSide.

Module CollisionPayload.
Record t := mk {
  target : CollisionSide.t;
  other : CollisionSide.t;
  (** [payload.manifold.solverContactPoint(0)] *)
  solverContactPoint0 : option Vector3.t
}.
End CollisionPayload.

(** ** components/world/Coins (the collision event reducer) *)

Module Coins.

(** [interactionResults]: a partial record of partial records. *)
Definition interactionResults (a : CoinType)
  : option (CoinType -> option CoinType) :=
  match a with
  | SEED => Some (fun b => match b with WATER => Some TREE | _ => None end)
  | WATER => Some (fun b => match b with SEED => Some TREE | _ => None end)
  | MAGMA => Some (fun b => match b with ICE => Some OBSIDIAN | _ => None end)
  | ICE => Some (fun b => match b with MAGMA => Some OBSIDIAN | _ => None end)
  | KEY => Some (fun b => match b with CHEST => Some DIAMOND | _ => None end)
  | CHEST => Some (fun b => match b with KEY => Some DIAMOND | _ => None end)
  | _ => None
  end.

(** [interactionResults[a]?.[b]] *)
Definition lookupResult (a b : CoinType) : option CoinType :=
  interactionResults a ≫= (fun row => row b).

Definition interactionCoinTypes : list CoinType :=
  [SEED; WATER; MAGMA; ICE; KEY; CHEST].

Definition activeCollisionCoinTypes : list CoinType :=
  interactionCoinTypes ++ [SPLITTER; GOLD; BOMB].

(** [set.has(t)] *)
Definition has (s : list CoinType) (t : CoinType) : bool :=
  bool_decide (t ∈ s).

Record InteractionEvent := mkInteraction {
  id1 : string; id2 : string; result : CoinType
}.

Record SplitEvent := mkSplit { id : string; position : Vector3.t }.

(** [pendingEventsRef.current] *)
Record PendingEvents := mkPending {
  interactions : list (string * InteractionEvent);
  splits : list (string * SplitEvent);
  transmutations : list string;
  explosions : list string
}.

Definition noPending : PendingEvents := mkPending [] [] [] [].

(** What the reducer acts on: the pending events, and the impulses it has
    applied to bodies of the physics world ([applyImpulse] calls, oldest
    first, each with the handle of the body). *)
Record Env := mkEnv {
  pending : PendingEvents;
  impulses : list (Z * Vector3.t)
}.

Definition with_pending (f : PendingEvents -> PendingEvents) (e : Env) : Env :=
  mkEnv (f (pending e)) (impulses e).

Definition interactionKey (id1 id2 : string) (result : CoinType) : string :=
  id1 ++ ":" ++ id2 ++ ":" ++ CoinType_str result.

Definition queueInteraction (id1 id2 : string) (result : CoinType)
    (p : PendingEvents) : PendingEvents :=
  let key := interactionKey id1 id2 result in
  mkPending (Map_set key (mkInteraction id1 id2 result) (interactions p))
            (splits p) (transmutations p) (explosions p).

Definition queueSplit (id : string) (position : Vector3.t)
    (p : PendingEvents) : PendingEvents :=
  mkPending (interactions p) (Map_set id (mkSplit id position) (splits p))
            (transmutations p) (explosions p).

Definition queueTransmute (targetId : string) (p : PendingEvents)
  : PendingEvents :=
  mkPending (interactions p) (splits p)
            (Set_add targetId (transmutations p)) (explosions p).

Definition queueExplosion (id : string) (p : PendingEvents) : PendingEvents :=
  mkPending (interactions p) (splits p) (transmutations p)
            (Set_add id (explosions p)).

Definition explosionRadius : float := 8%float.
Definition explosionForce : float := 8%float.

(** [Math.pow(a, 2)] *)
Definition pow2 (a : float) : float := (a * a)%float.

(** The distance computed in [triggerExplosion]. *)
Definition distance (position otherPos : Vector3.t) : float :=
  PrimFloat.sqrt
    (pow2 (Vector3.x position - Vector3.x otherPos)
     + pow2 (Vector3.y position - Vector3.y otherPos)
     + pow2 (Vector3.z position - Vector3.z otherPos))%float.

(** The body of the [forEachRigidBody] callback: the impulse applied to
    [otherBody], if any. *)
Definition explosionImpulse (body otherBody : RapierRigidBody.t)
  : option (Z * Vector3.t) :=
  if decide (RapierRigidBody.handle otherBody = RapierRigidBody.handle body)
  then None
  else
    let position := RapierRigidBody.translation body in
    let otherPos := RapierRigidBody.translation otherBody in
    let dist := distance position otherPos in
    if (dist <? explosionRadius)%float then
      let dir :=
        Vector3.mk
          ((Vector3.x otherPos - Vector3.x position) / dist)%float
          ((Vector3.y otherPos - Vector3.y position) / dist + 0.5)%float
          ((Vector3.z otherPos - Vector3.z position) / dist)%float in
      let force := ((1 - dist / explosionRadius) * explosionForce)%float in
      Some (RapierRigidBody.handle otherBody,
            Vector3.mk (Vector3.x dir * force)%float
                       (Vector3.y dir * force)%float
                       (Vector3.z dir * force)%float)
    else None.

Definition triggerExplosion (world : list RapierRigidBody.t) (id : string)
    (body : option RapierRigidBody.t) (e : Env) : Env :=
  match body with
  | None => e
  | Some body =>
      mkEnv (queueExplosion id (pending e))
            (impulses e ++ omap (explosionImpulse body) world)
  end.

Definition zeroVelocity : Vector3.t := Vector3.mk 0%float 0%float 0%float.

(** The four sections of [handleCollision], in the order of the source. *)

Definition coinToCoin (coin : CoinData.t)
    (otherCoinId : option string) (otherCoinType : option CoinType)
    (e : Env) : Env :=
  match otherCoinId, otherCoinType with
  | Some oid, Some oty =>
      if truthy_str otherCoinId && has interactionCoinTypes (CoinData.type coin)
      then
        match lookupResult (CoinData.type coin) oty with
        | Some result =>
            if String.ltb (CoinData.id coin) oid
            then with_pending (queueInteraction (CoinData.id coin) oid result) e
            else e
        | None => e
        end
      else e
  | _, _ => e
  end.

Definition splitterLogic (payload : CollisionPayload.t) (coin : CoinData.t)
    (otherBody : RigidBodyObject.t) (e : Env) : Env :=
  if bool_decide (CoinData.type coin = SPLITTER)
     && negb (truthy_flag (CoinData.hasSplit coin))
  then
    if String.eqb (RigidBodyObject.name otherBody) "pusher" then
      match CollisionPayload.solverContactPoint0 payload with
      | Some contact =>
          with_pending
            (queueSplit (CoinData.id coin)
               (Vector3.mk (Vector3.x contact)
                           (Vector3.y contact + 1)%float
                           (Vector3.z contact))) e
      | None => e
      end
    else e
  else e.

Definition midasLogic (coin : CoinData.t)
    (otherCoinId : option string) (otherCoinType : option CoinType)
    (e : Env) : Env :=
  if bool_decide (CoinData.type coin = GOLD) then
    match otherCoinId with
    | Some oid =>
        if bool_decide (otherCoinType = Some STANDARD) && truthy_str otherCoinId
        then with_pending (queueTransmute oid) e
        else e
    | None => e
    end
  else e.

Definition bombLogic (world : list RapierRigidBody.t)
    (payload : CollisionPayload.t) (coin : CoinData.t) (e : Env) : Env :=
  if bool_decide (CoinData.type coin = BOMB) then
    let selfBody := CollisionSide.rigidBody (CollisionPayload.target payload) in
    let otherRigidBody := CollisionSide.rigidBody (CollisionPayload.other payload) in
    match selfBody with
    | Some sb =>
        let v1 := RapierRigidBody.linvel sb in
        let v2 := match otherRigidBody with
                  | Some ob => RapierRigidBody.linvel ob
                  | None => zeroVelocity
                  end in
        let dx := (Vector3.x v1 - Vector3.x v2)%float in
        let dy := (Vector3.y v1 - Vector3.y v2)%float in
        let dz := (Vector3.z v1 - Vector3.z v2)%float in
        let speedSq := (dx * dx + dy * dy + dz * dz)%float in
        if (25 <? speedSq)%float
        then triggerExplosion world (CoinData.id coin) selfBody e
        else e
    | None => e
    end
  else e.

Definition handleCollision (world : list RapierRigidBody.t)
    (payload : CollisionPayload.t) (coin : CoinData.t) (e : Env) : Env :=
  if negb (has activeCollisionCoinTypes (CoinData.type coin)) then e
  else
    match CollisionSide.rigidBodyObject (CollisionPayload.other payload) with
    | None => e
    | Some otherBody =>
        let shouldCheckOtherCoin :=
          has interactionCoinTypes (CoinData.type coin)
          || bool_decide (CoinData.type coin = GOLD) in
        let otherUserData :=
          if shouldCheckOtherCoin then RigidBodyObject.userData otherBody
          else None in
        let otherCoinId := otherUserData ≫= UserData.coinId in
        let otherCoinType := otherUserData ≫= UserData.coinType in
        bombLogic world payload coin
          (midasLogic coin otherCoinId otherCoinType
             (splitterLogic payload coin otherBody
                (coinToCoin coin otherCoinId otherCoinType e)))
    end.

(** The callbacks the component was given ([onInteraction], [onSplit],
    [onTransmute], [onExplode]), as the calls it makes. *)
Inductive Callback :=
  | OnInteraction (id1 id2 : string) (result : CoinType)
  | OnSplit (id : string) (position : Vector3.t)
  | OnTransmute (targetId : string)
  | OnExplode (id : string).

(** The per-frame drain: the calls made, in order; the queues are cleared. *)
Definition useFrame (p : PendingEvents) : list Callback * PendingEvents :=
  ( (map (fun kv => OnInteraction (id1 kv.2) (id2 kv.2) (result kv.2))
         (interactions p)
     ++ map (fun kv => OnSplit (id kv.2) (position kv.2)) (splits p)
     ++ map OnTransmute (transmutations p)
     ++ map OnExplode (explosions p))%list,
    noPending ).

(** The rigid body object the component renders for a coin. *)
Definition coinBodyObject (coin : CoinData.t) : RigidBodyObject.t :=
  RigidBodyObject.mk
    ("coin-" ++ CoinType_str (CoinData.type coin) ++ "-" ++ CoinData.id coin)
    (Some (UserData.mk (Some (CoinData.id coin)) (Some (CoinData.type coin)))).

End Coins.

(** ** App (the entity registry and the economy) *)

(** The values of the random expressions one handler evaluates:
    [digits] is [Math.random().toString(36).substr(2, 9)], [spot] the random
    drop position [[xPos, yPos, zPos]] and [angle] is
    [Math.random() * Math.PI * 2]. *)
Record Rnd := mkRnd { digits : string; spot : Triple; angle : float }.

(** MACHINE_DIMENSIONS, whose declaration is not part of the sources. *)
Record MachineDimensions := mkDims {
  baseDropWidth : Q; widthPerLevel : Q; baseWidth : Q; bedLength : Q
}.

(** [Math.round] and [Math.max(0, x)] on exact numbers. *)
Definition Math_round (q : Q) : Z := Qfloor (q + (1 # 2)).
Definition Math_max0 (q : Q) : Q := if Qle_bool q 0 then 0%Q else q.

(** ** Double-precision arithmetic

    The numbers of the program are IEEE 754 binary64 values.  Where the
    rounding of an operation decides what the program computes (the score
    paid by a collection, the physics clock) the operation is written as the
    exact operation on rationals followed by [Binary64.round], rounding to
    the nearest value with 53 significant bits, ties to even.  Overflow and
    underflow are left out: the magnitudes of the game stay far inside the
    normal range (2^-1022 to 2^1024). *)

Module Binary64.

(** The integer part of the binary logarithm of a positive rational. *)
Definition ilog2 (q : Q) : Z :=
  let k := (Z.log2 (Qnum q) - Z.log2 (Z.pos (Qden q)))%Z in
  if Qle_bool (2 ^ k) q then k else (k - 1)%Z.

(** The unit in the last place of a value with 53 significant bits. *)
Definition ulp (q : Q) : Q := (2 ^ (ilog2 q - 52))%Q.

(** Rounding to the nearest integer, ties to even. *)
Definition rne (q : Q) : Z :=
  let f := Qfloor q in
  match (q - inject_Z f ?= 1 # 2)%Q with
  | Lt => f
  | Gt => (f + 1)%Z
  | Eq => if Z.even f then f else (f + 1)%Z
  end.

Definition round_pos (q : Q) : Q := (inject_Z (rne (q / ulp q)) * ulp q)%Q.

Definition round (q : Q) : Q :=
  match (q ?= 0)%Q with
  | Eq => 0%Q
  | Gt => round_pos q
  | Lt => (- round_pos (- q))%Q
  end.

(** [x + y], [x - y] and [x * y] on doubles. *)
Definition add (x y : Q) : Q := round (x + y).
Definition sub (x y : Q) : Q := round (x - y).
Definition mul (x y : Q) : Q := round (x * y).

(** The value of a finite double of the kernel, as a rational. *)
Definition of_float (f : float) : Q :=
  match Prim2SF f with
  | S754_finite s m e =>
      let v := (inject_Z (Z.pos m) * 2 ^ e)%Q in if s then (- v)%Q else v
  | _ => 0%Q
  end.

(** A small non-negative integer as a double of the kernel. *)
Fixpoint of_pos (p : positive) : float :=
  match p with
  | xH => 1%float
  | xO p' => (2 * of_pos p')%float
  | xI p' => (2 * of_pos p' + 1)%float
  end.

Definition of_Z (z : Z) : float :=
  match z with
  | Z0 => 0%float
  | Zpos p => of_pos p
  | Zneg p => (- of_pos p)%float
  end.

End Binary64.

Module App.

Definition INITIAL_STATE : GameState.t :=
  GameState.mk MENU 0 2000 100 1 INITIAL_DECK [] 0%Q 1.

(** The registry: [coinState]. *)
Record CoinState := mkCoinState {
  coinMap : gmap string CoinData.t;
  coinOrder : list string
}.

Definition emptyCoinState : CoinState := mkCoinState ∅ [].

Record t := mk {
  gameState : GameState.t;
  (** [gameStateRef.current], also the [gameState] of the last render *)
  gameStateRef : GameState.t;
  coinState : CoinState;
  isTabActive : bool;
  physicsTime : Q;
  lastScoreTime : Q;
  lastBonusDecayTime : Q;
  (** pending [setTimeout(() => triggerJackpot(level), 0)], oldest first *)
  timeouts : list Z
}.

Definition initial : t :=
  mk INITIAL_STATE INITIAL_STATE emptyCoinState true 0%Q 0%Q 0%Q [].

Definition setGameState (f : GameState.t -> GameState.t) (a : t) : t :=
  mk (f (gameState a)) (gameStateRef a) (coinState a) (isTabActive a)
     (physicsTime a) (lastScoreTime a) (lastBonusDecayTime a) (timeouts a).

Definition setCoinState (f : CoinState -> CoinState) (a : t) : t :=
  mk (gameState a) (gameStateRef a) (f (coinState a)) (isTabActive a)
     (physicsTime a) (lastScoreTime a) (lastBonusDecayTime a) (timeouts a).

Definition setClocks (score decay : Q) (a : t) : t :=
  mk (gameState a) (gameStateRef a) (coinState a) (isTabActive a)
     (physicsTime a) score decay (timeouts a).

Definition setTimeouts (l : list Z) (a : t) : t :=
  mk (gameState a) (gameStateRef a) (coinState a) (isTabActive a)
     (physicsTime a) (lastScoreTime a) (lastBonusDecayTime a) l.

(** A render commits: the effect copies [gameState] into the ref. *)
Definition render (a : t) : t :=
  mk (gameState a) (gameState a) (coinState a) (isTabActive a)
     (physicsTime a) (lastScoreTime a) (lastBonusDecayTime a) (timeouts a).

Definition setIsTabActive (b : bool) (a : t) : t :=
  mk (gameState a) (gameStateRef a) (coinState a) b
     (physicsTime a) (lastScoreTime a) (lastBonusDecayTime a) (timeouts a).

(** [physicsTimeRef.current += deltaSeconds], a sum of doubles. *)
Definition handlePhysicsTick (deltaSeconds : Q) (a : t) : t :=
  mk (gameState a) (gameStateRef a) (coinState a) (isTabActive a)
     (Binary64.add (physicsTime a) deltaSeconds) (lastScoreTime a)
     (lastBonusDecayTime a) (timeouts a).

(** [coinOrder.map(id => coinMap.get(id)).filter(Boolean)] *)
Definition activeCoins (cs : CoinState) : list CoinData.t :=
  omap (fun id => coinMap cs !! id) (coinOrder cs).

(** [artifacts.find(a => a.id === id)]; then [found ? found.level : 0] *)
Definition findArtifact (id : string) (l : list Artifact.t)
  : option Artifact.t :=
  List.find (fun a => String.eqb (Artifact.id a) id) l.

Definition artifactLevel (id : string) (l : list Artifact.t) : Z :=
  match findArtifact id l with Some a => Artifact.level a | None => 0 end.

(** The double written [0.1]. *)
Definition tenth : Q := Binary64.round (1 # 10).

(** [1 + 0.1 * (bonusLevel - 1)], on doubles. *)
Definition bonusMult (bonusLevel : Z) : Q :=
  Binary64.add 1 (Binary64.mul tenth (Binary64.sub (inject_Z bonusLevel) 1)).

(** [Math.pow(1.5, level)], taken as correctly rounded (up to level 33 the
    power is itself a double). *)
Definition scoreMult (level : Z) : Q := Binary64.round ((3 # 2) ^ level).

(** [Math.floor(config.score * scoreMult * bonusMult)]: the product is
    evaluated from left to right, on doubles. *)
Definition payout (score level bonusLevel : Z) : Z :=
  Qfloor (Binary64.mul (Binary64.mul (inject_Z score) (scoreMult level))
                       (bonusMult bonusLevel)).

(** *** Bonus meter decay (the interval callback) *)

Definition decayRatePerSecond : Q := 20%Q.

Definition decayUpdater (decayDelta : Q) (prev : GameState.t) : GameState.t :=
  if Qle_bool (GameState.bonus prev) 0 then prev
  else
    let nextBonus :=
      Math_max0 (GameState.bonus prev - decayRatePerSecond * decayDelta)%Q in
    GameState.mk (GameState.phase prev) (GameState.score prev)
      (GameState.targetScore prev) (GameState.cash prev)
      (GameState.ante prev) (GameState.deck prev)
      (GameState.artifacts prev) nextBonus
      (if Qeq_bool nextBonus 0 then 1 else GameState.bonusLevel prev).

Definition decayInterval (a : t) : t :=
  (* the interval only exists while the rendered phase is PLAYING and the
     tab is active *)
  if negb (bool_decide (GameState.phase (gameStateRef a) = PLAYING))
     || negb (isTabActive a)
  then a
  else
    let now := physicsTime a in
    let sinceScore := (now - lastScoreTime a)%Q in
    if Qle_bool sinceScore 2 then setClocks (lastScoreTime a) now a
    else
      let decayDelta := (now - lastBonusDecayTime a)%Q in
      if Qle_bool decayDelta 0 then a
      else setGameState (decayUpdater decayDelta)
             (setClocks (lastScoreTime a) now a).

(** *** Starting and filling *)

Definition startCoin (r : Rnd) : CoinData.t :=
  CoinData.mk ("start-" ++ digits r) STANDARD (spot r)
              (0%float, angle r, 0%float) None None.

Definition startGame (draw : nat -> Rnd) (a : t) : t :=
  let initialCoins := map (fun i => startCoin (draw i)) (seq 0 60) in
  let g := INITIAL_STATE in
  mk (GameState.mk PLAYING (GameState.score g) (GameState.targetScore g)
        (GameState.cash g) (GameState.ante g) (GameState.deck g)
        (GameState.artifacts g) (GameState.bonus g) (GameState.bonusLevel g))
     (gameStateRef a)
     (mkCoinState
        (Map_of_entries ∅ (map (fun c => (CoinData.id c, c)) initialCoins))
        (map CoinData.id initialCoins))
     (isTabActive a) 0%Q 0%Q 0%Q (timeouts a).

(** The REBOOT button. *)
Definition reboot (a : t) : t :=
  setCoinState (fun _ => emptyCoinState)
    (setGameState (fun _ => INITIAL_STATE) a).

(** *** Spawning *)

Definition spawnUpdater (newCoin : CoinData.t) (prev : CoinState) : CoinState :=
  mkCoinState (<[CoinData.id newCoin := newCoin]> (coinMap prev))
              (coinOrder prev ++ [CoinData.id newCoin]).

Definition spawnCoin (type : CoinType) (isFree : bool) (r : Rnd) (a : t) : t :=
  let state := gameStateRef a in
  if negb isFree && (GameState.deck state type <=? 0)%Z then a
  else
    let newCoin :=
      CoinData.mk ((if isFree then "bonus-" else "") ++ digits r) type
                  (spot r) (0%float, angle r, 0%float) None None in
    setGameState
      (fun prev =>
         let newDeck :=
           if isFree then GameState.deck prev
           else fun t' => if decide (t' = type)
                          then (GameState.deck prev type - 1)%Z
                          else GameState.deck prev t' in
         GameState.mk (GameState.phase prev) (GameState.score prev)
           (GameState.targetScore prev) (GameState.cash prev)
           (GameState.ante prev) newDeck (GameState.artifacts prev)
           (GameState.bonus prev) (GameState.bonusLevel prev))
      (setCoinState (spawnUpdater newCoin) a).

Definition handleCoinDrop (type : CoinType) (r : Rnd) (a : t) : t :=
  spawnCoin type false r a.

(** *** Jackpot *)

(** The number of coins of a burst.  Here the multiplier only passes
    through [Math.round(10 * bonusMult)], which absorbs the rounding of the
    doubles (see [jackpot_count_on_doubles]); it is written on exact
    numbers. *)
Definition jackpotCoins (dims : MachineDimensions) (extenderLevel bonusLevel : Z)
  : Z :=
  let bonusMult := (1 + (1 # 10) * (inject_Z bonusLevel - 1))%Q in
  let bedWidth := (baseWidth dims + inject_Z extenderLevel * widthPerLevel dims)%Q in
  let bedAreaScale :=
    ((bedWidth * bedLength dims) / (baseWidth dims * bedLength dims))%Q in
  let maxJackpotCoins := Z.max 1 (Math_round (12 * bedAreaScale)) in
  Z.min maxJackpotCoins (Z.max 1 (Math_round (10 * bonusMult))).

Definition jackpotCoin (r : Rnd) : CoinData.t :=
  CoinData.mk ("bonus-" ++ digits r) STANDARD (spot r)
              (0%float, angle r, 0%float) None None.

Definition jackpotUpdater (newCoins : list CoinData.t) (prev : CoinState)
  : CoinState :=
  mkCoinState
    (Map_of_entries (coinMap prev) (map (fun c => (CoinData.id c, c)) newCoins))
    (coinOrder prev ++ map CoinData.id newCoins).

Definition triggerJackpot (dims : MachineDimensions) (draw : nat -> Rnd)
    (bonusLevel : Z) (a : t) : t :=
  let extenderLevel := artifactLevel "extender" (GameState.artifacts (gameStateRef a)) in
  let n := jackpotCoins dims extenderLevel bonusLevel in
  let newCoins := map (fun i => jackpotCoin (draw i)) (seq 0 (Z.to_nat n)) in
  setCoinState (jackpotUpdater newCoins) a.

(** The oldest pending timeout fires. *)
Definition runTimeout (dims : MachineDimensions) (draw : nat -> Rnd) (a : t) : t :=
  match timeouts a with
  | [] => a
  | level :: rest => triggerJackpot dims draw level (setTimeouts rest a)
  end.

(** *** Coin mechanics handlers (the state updaters given to [setCoinState]) *)

Definition handleSplit (r : Rnd) (id : string) (position : Vector3.t)
    (prev : CoinState) : CoinState :=
  match coinMap prev !! id with
  | None => prev
  | Some original =>
      if truthy_flag (CoinData.hasSplit original) then prev
      else
        let coinMap1 := <[id := CoinData.with_hasSplit true original]> (coinMap prev) in
        let clone :=
          CoinData.mk ("clone-" ++ digits r) SPLITTER
            (Vector3.x position, (Vector3.y position + 1)%float, Vector3.z position)
            (0%float, angle r, 0%float) (Some true) None in
        mkCoinState (<[CoinData.id clone := clone]> coinMap1)
                    (coinOrder prev ++ [CoinData.id clone])
  end.

Definition handleExplode (id : string) (prev : CoinState) : CoinState :=
  match coinMap prev !! id with
  | None => prev
  | Some _ =>
      mkCoinState (delete id (coinMap prev))
                  (filter (fun coinId => coinId ≠ id) (coinOrder prev))
  end.

Definition handleTransmute (targetId : string) (prev : CoinState) : CoinState :=
  match coinMap prev !! targetId with
  | None => prev
  | Some target =>
      if bool_decide (CoinData.type target = GOLD) then prev
      else mkCoinState (<[targetId := CoinData.with_type GOLD target]> (coinMap prev))
                       (coinOrder prev)
  end.

Definition midpoint (p q : Triple) : Triple :=
  (((p.1.1 + q.1.1) / 2)%float,
   ((p.1.2 + q.1.2) / 2)%float,
   ((p.2 + q.2) / 2)%float).

Definition handleCoinInteraction (r : Rnd) (id1 id2 : string)
    (resultType : CoinType) (prev : CoinState) : CoinState :=
  match coinMap prev !! id1, coinMap prev !! id2 with
  | Some coin1, Some coin2 =>
      let coinMap1 := delete id2 (delete id1 (coinMap prev)) in
      let newPos := midpoint (CoinData.position coin1) (CoinData.position coin2) in
      let newCoin :=
        CoinData.mk ("merged-" ++ digits r) resultType newPos
                    (0%float, 0%float, 0%float) None None in
      mkCoinState (<[CoinData.id newCoin := newCoin]> coinMap1)
                  (filter (fun coinId => coinId ≠ id1 ∧ coinId ≠ id2) (coinOrder prev)
                   ++ [CoinData.id newCoin])
  | _, _ => prev
  end.

(** The registry part of a collection. *)
Definition collectUpdater (id : string) (prev : CoinState) : CoinState :=
  match coinMap prev !! id with
  | None => prev
  | Some _ =>
      mkCoinState (delete id (coinMap prev))
                  (filter (fun coinId => coinId ≠ id) (coinOrder prev))
  end.

(** *** Collection *)

Definition handleCoinCollected (id : string) (type : CoinType) (a : t) : t :=
  let a1 := setCoinState (collectUpdater id) a in
  let config := COIN_CONFIG type in
  let a2 := setClocks (physicsTime a1) (lastBonusDecayTime a1) a1 in
  let state := gameStateRef a2 in
  let level := artifactLevel "mult" (GameState.artifacts state) in
  let newBonus0 := (GameState.bonus state + 4)%Q in
  let full := Qle_bool 100 newBonus0 in
  let newBonus := if full then 0%Q else newBonus0 in
  let nextBonusLevel :=
    if full then (GameState.bonusLevel state + 1)%Z
    else GameState.bonusLevel state in
  let a3 := if full then setTimeouts (timeouts a2 ++ [nextBonusLevel]) a2 else a2 in
  setGameState
    (fun prev =>
       GameState.mk (GameState.phase prev)
         (GameState.score prev
          + payout (DeckItem.score config) level (GameState.bonusLevel state))%Z
         (GameState.targetScore prev)
         (GameState.cash prev + DeckItem.value config)%Z
         (GameState.ante prev) (GameState.deck prev) (GameState.artifacts prev)
         newBonus nextBonusLevel)
    a3.

(** *** Rounds *)

Definition handleRoundEnd (a : t) : t :=
  let shown := gameStateRef a in
  if (GameState.targetScore shown <=? GameState.score shown)%Z then
    setGameState
      (fun prev =>
         GameState.mk SHOP 0 (GameState.targetScore prev) (GameState.cash prev)
           (GameState.ante prev) (GameState.deck prev)
           (GameState.artifacts prev) 0%Q 1)
      a
  else
    setGameState
      (fun prev =>
         GameState.mk GAME_OVER (GameState.score prev)
           (GameState.targetScore prev) (GameState.cash prev)
           (GameState.ante prev) (GameState.deck prev)
           (GameState.artifacts prev) (GameState.bonus prev)
           (GameState.bonusLevel prev))
      a.

Definition nextRound (a : t) : t :=
  setClocks (physicsTime a) (physicsTime a)
    (setGameState
       (fun prev =>
          GameState.mk PLAYING (GameState.score prev)
            (Qfloor (inject_Z (GameState.targetScore prev) * (3 # 2)))
            (GameState.cash prev) (GameState.ante prev + 1)%Z
            (GameState.deck prev) (GameState.artifacts prev)
            (GameState.bonus prev) (GameState.bonusLevel prev))
       a).

(** *** Purchases *)

(** The first two arguments of [buyItem]: ['coin'] with a coin type, or
    ['artifact'] with any id. *)
Inductive Item := Coin (type : CoinType) | ArtifactItem (id : string).

(** [artifacts.findIndex(a => a.id === id)] *)
Fixpoint findIndex (id : string) (l : list Artifact.t) : option nat :=
  match l with
  | [] => None
  | a :: l' =>
      if String.eqb (Artifact.id a) id then Some O
      else S <$> findIndex id l'
  end.

Definition buyUpdater (item : Item) (cost : Z) (prev : GameState.t)
  : GameState.t :=
  let newCash := (GameState.cash prev - cost)%Z in
  match item with
  | Coin type =>
      GameState.mk (GameState.phase prev) (GameState.score prev)
        (GameState.targetScore prev) newCash (GameState.ante prev)
        (fun t' => if decide (t' = type) then (GameState.deck prev type + 5)%Z
                   else GameState.deck prev t')
        (GameState.artifacts prev) (GameState.bonus prev)
        (GameState.bonusLevel prev)
  | ArtifactItem id =>
      let newArtifacts :=
        match findIndex id (GameState.artifacts prev) with
        | Some existingIndex =>
            match GameState.artifacts prev !! existingIndex with
            | Some existing =>
                <[existingIndex :=
                    Artifact.with_level (Artifact.level existing + 1) existing]>
                  (GameState.artifacts prev)
            | None => GameState.artifacts prev
            end
        | None =>
            match findArtifact id SHOP_ARTIFACTS with
            | Some baseArtifact =>
                (GameState.artifacts prev ++ [Artifact.activated baseArtifact])%list
            | None => GameState.artifacts prev
            end
        end in
      GameState.mk (GameState.phase prev) (GameState.score prev)
        (GameState.targetScore prev) newCash (GameState.ante prev)
        (GameState.deck prev) newArtifacts (GameState.bonus prev)
        (GameState.bonusLevel prev)
  end.

Definition buyItem (item : Item) (cost : Z) (a : t) : t :=
  if (cost <=? GameState.cash (gameStateRef a))%Z
  then setGameState (buyUpdater item cost) a
  else a.

(** *** The callbacks handed to the scene *)

Definition callbackUpdater (r : Rnd) (c : Coins.Callback)
  : CoinState -> CoinState :=
  match c with
  | Coins.OnInteraction id1 id2 result => handleCoinInteraction r id1 id2 result
  | Coins.OnSplit id position => handleSplit r id position
  | Coins.OnTransmute targetId => handleTransmute targetId
  | Coins.OnExplode id => handleExplode id
  end.

Definition onCallback (r : Rnd) (c : Coins.Callback) (a : t) : t :=
  setCoinState (callbackUpdater r c) a.

End App.

(** ** components/Shop *)

Module Shop.

(** [Math.floor(baseArtifact.cost * Math.pow(1.5, currentLevel))], written
    on exact numbers: up to level 69 the doubles give the same price for
    every artifact of the catalog (see [price_on_doubles]). *)
Definition currentCost (baseArtifact : Artifact.t) (gameState : GameState.t) : Z :=
  let currentLevel :=
    App.artifactLevel (Artifact.id baseArtifact) (GameState.artifacts gameState) in
  Qfloor (inject_Z (Artifact.cost baseArtifact) * (3 # 2) ^ currentLevel).

(** Pressing the button of an artifact: nothing when disabled. *)
Definition pressArtifact (baseArtifact : Artifact.t) (a : App.t) : App.t :=
  let gameState := App.gameStateRef a in
  let cost := currentCost baseArtifact gameState in
  let canAfford := (cost <=? GameState.cash gameState)%Z in
  if canAfford
  then App.buyItem (App.ArtifactItem (Artifact.id baseArtifact)) cost a
  else a.

(** Pressing the button of a coin pack. *)
Definition pressCoin (coin : DeckItem.t) (a : App.t) : App.t :=
  let canAfford := (DeckItem.cost coin <=? GameState.cash (App.gameStateRef a))%Z in
  if canAfford
  then App.buyItem (App.Coin (DeckItem.type coin)) (DeckItem.cost coin) a
  else a.

End Shop.

(** ** The game as an event-driven system *)

(** Everything that can happen to the [App] between two renders. *)
Inductive Event :=
  | Render
  | TabActive (active : bool)
  | PhysicsTick (deltaSeconds : Q)
  | DecayInterval
  | StartGame (draw : nat -> Rnd)
  | Reboot
  | Drop (type : CoinType) (r : Rnd)
  | Timeout (dims : MachineDimensions) (draw : nat -> Rnd)
  | SceneCallback (r : Rnd) (c : Coins.Callback)
  | Collected (id : string) (type : CoinType)
  | RoundEnd
  | NextRound
  | Buy (item : App.Item) (cost : Z)
  | PressArtifact (baseArtifact : Artifact.t)
  | PressCoin (coin : DeckItem.t).

Definition handle (ev : Event) (a : App.t) : App.t :=
  match ev with
  | Render => App.render a
  | TabActive b => App.setIsTabActive b a
  | PhysicsTick d => App.handlePhysicsTick d a
  | DecayInterval => App.decayInterval a
  | StartGame draw => App.startGame draw a
  | Reboot => App.reboot a
  | Drop type r => App.handleCoinDrop type r a
  | Timeout dims draw => App.runTimeout dims draw a
  | SceneCallback r c => App.onCallback r c a
  | Collected id type => App.handleCoinCollected id type a
  | RoundEnd => App.handleRoundEnd a
  | NextRound => App.nextRound a
  | Buy item cost => App.buyItem item cost a
  | PressArtifact b => Shop.pressArtifact b a
  | PressCoin c => Shop.pressCoin c a
  end.

Definition run (evs : list Event) (a : App.t) : App.t :=
  foldl (fun a ev => handle ev a) a evs.

Definition reachable (a : App.t) : Prop := exists evs, run evs App.initial = a.

(** One simulation tick of the scene: the collision callbacks of the tick go
    through the reducer, then the frame callback drains the queues into the
    registry handlers.  [rnd i] is what the i-th drained callback draws. *)
Definition Contact : Type := (CollisionPayload.t * CoinData.t)%type.

Definition reduceContacts (world : list RapierRigidBody.t)
    (contacts : list Contact) (e : Coins.Env) : Coins.Env :=
  foldl (fun e pc => Coins.handleCollision world pc.1 pc.2 e) e contacts.

Fixpoint applyCallbacks (rnd : nat -> Rnd) (i : nat)
    (calls : list Coins.Callback) (cs : App.CoinState) : App.CoinState :=
  match calls with
  | [] => cs
  | c :: calls' =>
      applyCallbacks rnd (S i) calls' (App.callbackUpdater (rnd i) c cs)
  end.

Definition tick (world : list RapierRigidBody.t) (rnd : nat -> Rnd)
    (contacts : list Contact) (cs : App.CoinState) : App.CoinState :=
  let e := reduceContacts world contacts (Coins.mkEnv Coins.noPending []) in
  applyCallbacks rnd 0 (Coins.useFrame (Coins.pending e)).1 cs.

(** ** Properties stated about the system *)

(** The registry invariant: the ordered id list has no repetition and lists
    exactly the keys of the id-to-coin map. *)
Definition registry_wf (cs : App.CoinState) : Prop :=
  NoDup (App.coinOrder cs)
  /\ forall id, id ∈ App.coinOrder cs <-> is_Some (App.coinMap cs !! id).

(** The ids an event mints when its handler goes through. *)
Definition minted (ev : Event) (a : App.t) : list string :=
  match ev with
  | StartGame draw =>
      map (fun i => CoinData.id (App.startCoin (draw i))) (seq 0 60)
  | Drop type r => [digits r]
  | Timeout dims draw =>
      match App.timeouts a with
      | [] => []
      | level :: _ =>
          let n := App.jackpotCoins dims
                     (App.artifactLevel "extender"
                        (GameState.artifacts (App.gameStateRef a))) level in
          map (fun i => CoinData.id (App.jackpotCoin (draw i))) (seq 0 (Z.to_nat n))
      end
  | SceneCallback r (Coins.OnInteraction _ _ _) => [("merged-" ++ digits r)%string]
  | SceneCallback r (Coins.OnSplit _ _) => [("clone-" ++ digits r)%string]
  | _ => []
  end.

(** The id generator behaves: minted ids are pairwise distinct and, unless
    the registry is rebuilt from scratch, not in use. *)
Definition mints_fresh (ev : Event) (a : App.t) : Prop :=
  NoDup (minted ev a)
  /\ match ev with
     | StartGame _ => True
     | _ => forall id, id ∈ minted ev a -> App.coinMap (App.coinState a) !! id = None
     end.

Fixpoint all_fresh (evs : list Event) (a : App.t) : Prop :=
  match evs with
  | [] => True
  | ev :: evs' => mints_fresh ev a /\ all_fresh evs' (handle ev a)
  end.

(** The economy invariant kept by every event. *)
Definition bonus_in_range (g : GameState.t) : Prop :=
  (0 <= GameState.bonus g)%Q /\ (GameState.bonus g < 100)%Q.

Definition from_catalog (g : GameState.t) : Prop :=
  forall a, a ∈ GameState.artifacts g ->
    Artifact.id a ∈ map Artifact.id SHOP_ARTIFACTS.

Definition economy_inv (a : App.t) : Prop :=
  bonus_in_range (App.gameState a) /\ bonus_in_range (App.gameStateRef a)
  /\ from_catalog (App.gameState a) /\ from_catalog (App.gameStateRef a).

(** ** Sample data used to exercise the statements *)

Module Sample.

Definition origin : Triple := (0%float, 0%float, 0%float).

Definition coin (id : string) (type : CoinType) (position : Triple) : CoinData.t :=
  CoinData.mk id type position origin None None.

Definition seed : CoinData.t := coin "a1" SEED (0%float, 1%float, 2%float).
Definition water : CoinData.t := coin "b2" WATER (4%float, 1%float, 6%float).
Definition chip : CoinData.t := coin "c3" STANDARD (1%float, 1%float, 1%float).
Definition cell : CoinData.t := coin "s4" SPLITTER (0%float, 2%float, 0%float).

(** A contact whose other body is the body of [other]. *)
Definition hits (other : CoinData.t) : CollisionPayload.t :=
  CollisionPayload.mk
    (CollisionSide.mk None None)
    (CollisionSide.mk None (Some (Coins.coinBodyObject other)))
    None.

(** A contact with the pusher at the point [contact]. *)
Definition hitsPusher (contact : Vector3.t) : CollisionPayload.t :=
  CollisionPayload.mk
    (CollisionSide.mk None None)
    (CollisionSide.mk None (Some (RigidBodyObject.mk "pusher" None)))
    (Some contact).

Definition rnd (digits : string) : Rnd := mkRnd digits origin 0%float.

(** The i-th draw has the decimal digits of i. *)
Definition draw (i : nat) : Rnd := rnd (pretty i).

Definition registry (coins : list CoinData.t) : App.CoinState :=
  App.jackpotUpdater coins App.emptyCoinState.

Definition dims : MachineDimensions := mkDims 8 4 10 14.

(** A game in the shop with [cash] to spend and nothing owned. *)
Definition shopping (cash : Z) : App.t :=
  let g := GameState.mk SHOP 0 2000 cash 1 INITIAL_DECK [] 0%Q 1 in
  App.mk g g App.emptyCoinState true 0%Q 0%Q 0%Q [].

End Sample.

Module Scenario.

(** A game that has just started. *)
Definition started : App.t :=
  run [StartGame Sample.draw; Render] App.initial.

(** The first 24 coins of the initial fill fall off, one per render. *)
Definition falls : list Event :=
  concat (map (fun i => [Collected (CoinData.id (App.startCoin (Sample.draw i)))
                           STANDARD; Render])
              (seq 0 24)).

(** ... after which the bonus meter is one coin short of full. *)
Definition nearlyFull : App.t := run falls started.

End Scenario.

Module Blast.

(** A bomb falling fast, and a second body whose translation is exactly the
    bomb's. *)
Definition center : Vector3.t := Vector3.mk 0%float 2%float 0%float.

Definition bomb : RapierRigidBody.t :=
  RapierRigidBody.mk 1 center (Vector3.mk 0%float (-9)%float 0%float).

Definition twin : RapierRigidBody.t :=
  RapierRigidBody.mk 2 center Coins.zeroVelocity.

Definition bombCoin : CoinData.t :=
  Sample.coin "b7" BOMB (0%float, 2%float, 0%float).

(** The bomb lands on the floor. *)
Definition impact : CollisionPayload.t :=
  CollisionPayload.mk
    (CollisionSide.mk (Some bomb) None)
    (CollisionSide.mk None (Some (RigidBodyObject.mk "" None)))
    None.

End Blast.

(** A coin that cannot split (any more): absent, or flagged [hasSplit]. *)
Definition spent (id : string) (cs : App.CoinState) : Prop :=
  match App.coinMap cs !! id with
  | None => True
  | Some c => truthy_flag (CoinData.hasSplit c) = true
  end.

(** The contacts of one tick are all contacts of the splitter [id]. *)
Definition splitter_contacts (id : string) (contacts : list Contact) : Prop :=
  Forall (fun c : Contact =>
            CoinData.type c.2 = SPLITTER /\ CoinData.id c.2 = id) contacts.

(** Several ticks in a row, each with its own random draws. *)
Definition runTicks (world : list RapierRigidBody.t)
    (ticks : list ((nat -> Rnd) * list Contact)) (cs : App.CoinState)
  : App.CoinState :=
  foldl (fun cs t => tick world t.1 t.2 cs) cs ticks.

Module Pusher.

(** Two ticks in which the splitter "s4" touches the pusher twice each,
    the second tick still with the coin as rendered before the split. *)
Definition contact : Contact :=
  (Sample.hitsPusher (Vector3.mk 0%float 1%float (-2)%float), Sample.cell).

Definition ticks : list ((nat -> Rnd) * list Contact) :=
  [ (Sample.draw, [contact; contact]);
    (fun i => Sample.draw (10 + i), [contact; contact]) ].

Definition bed : App.CoinState := Sample.registry [Sample.cell; Sample.chip].

End Pusher.

(** ** Further invariants *)

(** Every coin is stored under its own id. *)
Definition keyed (cs : App.CoinState) : Prop :=
  forall k c, App.coinMap cs !! k = Some c -> CoinData.id c = k.

(** What every event keeps of the counters of one game state. *)
Definition counters_sane (g : GameState.t) : Prop :=
  (0 <= GameState.score g)%Z /\ (1 <= GameState.bonusLevel g)%Z
  /\ (1 <= GameState.ante g)%Z /\ (2000 <= GameState.targetScore g)%Z.

(** The owned artifacts: one entry per id, and each entry is the catalog's,
    switched on, at a level of at least 1. *)
Definition owned_sane (g : GameState.t) : Prop :=
  NoDup (map Artifact.id (GameState.artifacts g))
  /\ forall a, a ∈ GameState.artifacts g ->
       (1 <= Artifact.level a)%Z
       /\ exists base, base ∈ SHOP_ARTIFACTS
            /\ a = Artifact.with_level (Artifact.level a) (Artifact.activated base).

Definition progression_inv (a : App.t) : Prop :=
  counters_sane (App.gameState a) /\ counters_sane (App.gameStateRef a)
  /\ owned_sane (App.gameState a) /\ owned_sane (App.gameStateRef a).

(** The number of events waiting in the four queues. *)
Definition queued (p : Coins.PendingEvents) : nat :=
  (length (Coins.interactions p) + length (Coins.splits p)
   + length (Coins.transmutations p) + length (Coins.explosions p))%nat.

(** No queue holds a key twice. *)
Definition deduplicated (p : Coins.PendingEvents) : Prop :=
  NoDup (map fst (Coins.interactions p)) /\ NoDup (map fst (Coins.splits p))
  /\ NoDup (Coins.transmutations p) /\ NoDup (Coins.explosions p).

(** One step of a queue: it stays duplicate-free and grows by at most one
    entry. *)
Definition queue_step (p p' : Coins.PendingEvents) : Prop :=
  (deduplicated p -> deduplicated p')
  /\ (queued p <= queued p')%nat /\ (queued p' <= S (queued p))%nat.

(** No queue loses a key: each of the four queues keeps the keys it had, in
    their order, a new key going to its end. *)
Definition queues_kept (p p' : Coins.PendingEvents) : Prop :=
  map fst (Coins.interactions p) `prefix_of` map fst (Coins.interactions p')
  /\ map fst (Coins.splits p) `prefix_of` map fst (Coins.splits p')
  /\ Coins.transmutations p `prefix_of` Coins.transmutations p'
  /\ Coins.explosions p `prefix_of` Coins.explosions p'.

(** [Math.min(100, x)] on exact numbers. *)
Definition Math_min100 (q : Q) : Q := if Qle_bool 100 q then 100%Q else q.

(** ** components/GameHUD *)

Module GameHUD.

(** [Math.min(100, (score / targetScore) * 100)].  Over a zero target a
    positive score gives Infinity, cut to 100; [None] stands for what is
    not a fraction then: NaN (from 0 / 0) and -Infinity. *)
Definition progress (gameState : GameState.t) : option Q :=
  if (GameState.targetScore gameState =? 0)%Z then
    if (0 <? GameState.score gameState)%Z then Some 100%Q else None
  else Some (Math_min100
               (inject_Z (GameState.score gameState)
                / inject_Z (GameState.targetScore gameState) * 100)%Q).

Definition bonusProgress (gameState : GameState.t) : Q :=
  Math_min100 (GameState.bonus gameState).

(** [CoinDropButton]: whether the button is rendered at all. *)
Definition shown (type : CoinType) (count : Z) : bool :=
  negb ((count =? 0)%Z && negb (bool_decide (type = STANDARD))).

(** Pressing the drop button of a coin type: nothing when disabled
    ([count === 0] in the rendered deck). *)
Definition pressDrop (type : CoinType) (r : Rnd) (a : App.t) : App.t :=
  let count := GameState.deck (App.gameStateRef a) type in
  if (count =? 0)%Z then a else App.handleCoinDrop type r a.

End GameHUD.

(** ** components/world/Machine (the collection sensor) *)

Module Machine.

(** [onIntersectionEnter] of the sensor: the collection it reports, if any. *)
Definition onIntersectionEnter (rigidBody : option RigidBodyObject.t)
  : option (string * CoinType) :=
  let userData := rigidBody ≫= RigidBodyObject.userData in
  match userData ≫= UserData.coinId, userData ≫= UserData.coinType with
  | Some coinId, Some coinType =>
      if truthy_str (Some coinId) then Some (coinId, coinType) else None
  | _, _ => None
  end.

(** The sensor wired to [onCoinCollected]. *)
Definition sensor (rigidBody : option RigidBodyObject.t) (a : App.t) : App.t :=
  match onIntersectionEnter rigidBody with
  | Some (id, type) => App.handleCoinCollected id type a
  | None => a
  end.

End Machine.

(** ** hooks/useRepeatAction *)

Module useRepeatAction.

(** The delay before the next repeat, [elapsed] milliseconds after the
    press ([runLoop]). *)
Definition currentDelay (baseInterval accelerationDelay minInterval elapsed : Q)
  : Q :=
  if negb (Qle_bool elapsed accelerationDelay) then
    let timePastThreshold := (elapsed - accelerationDelay)%Q in
    let rampUpDuration := 2000%Q in
    let decay := Math_max0 (1 - timePastThreshold / rampUpDuration)%Q in
    (minInterval + (baseInterval - minInterval) * decay)%Q
  else baseInterval.

End useRepeatAction.

(** ** The earlier App: the registry as one array of coins *)

Module OldApp.

(** [prev.findIndex(c => c.id === id)] *)
Fixpoint findIndex (id : string) (l : list CoinData.t) : option nat :=
  match l with
  | [] => None
  | c :: l' =>
      if String.eqb (CoinData.id c) id then Some O else S <$> findIndex id l'
  end.

(** [prev.find(c => c.id === id)] *)
Definition find (id : string) (l : list CoinData.t) : option CoinData.t :=
  List.find (fun c => String.eqb (CoinData.id c) id) l.

Definition handleSplit (r : Rnd) (id : string) (position : Vector3.t)
    (prev : list CoinData.t) : list CoinData.t :=
  match findIndex id prev with
  | None => prev
  | Some index =>
      match prev !! index with
      | None => prev
      | Some original =>
          if truthy_flag (CoinData.hasSplit original) then prev
          else
            let updated := <[index := CoinData.with_hasSplit true original]> prev in
            let clone :=
              CoinData.mk ("clone-" ++ digits r) SPLITTER
                (Vector3.x position, (Vector3.y position + 1)%float,
                 Vector3.z position)
                (0%float, angle r, 0%float) (Some true) None in
            updated ++ [clone]
      end
  end.

Definition handleExplode (id : string) (prev : list CoinData.t)
  : list CoinData.t :=
  filter (fun c => CoinData.id c ≠ id) prev.

Definition handleTransmute (targetId : string) (prev : list CoinData.t)
  : list CoinData.t :=
  match findIndex targetId prev with
  | None => prev
  | Some index =>
      match prev !! index with
      | None => prev
      | Some target =>
          if bool_decide (CoinData.type target = GOLD) then prev
          else <[index := CoinData.with_type GOLD target]> prev
      end
  end.

Definition handleCoinInteraction (r : Rnd) (id1 id2 : string)
    (resultType : CoinType) (prev : list CoinData.t) : list CoinData.t :=
  match find id1 prev, find id2 prev with
  | Some coin1, Some coin2 =>
      let remaining :=
        filter (fun c => CoinData.id c ≠ id1 /\ CoinData.id c ≠ id2) prev in
      let newCoin :=
        CoinData.mk ("merged-" ++ digits r) resultType
          (App.midpoint (CoinData.position coin1) (CoinData.position coin2))
          (0%float, 0%float, 0%float) None None in
      remaining ++ [newCoin]
  | _, _ => prev
  end.

(** The registry part of [handleCoinCollected]. *)
Definition collectUpdater (id : string) (prev : list CoinData.t)
  : list CoinData.t :=
  filter (fun c => CoinData.id c ≠ id) prev.

(** The registry part of [spawnCoin]. *)
Definition spawnUpdater (newCoin : CoinData.t) (currentCoins : list CoinData.t)
  : list CoinData.t :=
  currentCoins ++ [newCoin].

Definition callbackUpdater (r : Rnd) (c : Coins.Callback)
  : list CoinData.t -> list CoinData.t :=
  match c with
  | Coins.OnInteraction id1 id2 result => handleCoinInteraction r id1 id2 result
  | Coins.OnSplit id position => handleSplit r id position
  | Coins.OnTransmute targetId => handleTransmute targetId
  | Coins.OnExplode id => handleExplode id
  end.

End OldApp.

(** ** The earlier Coins: identity parsed back out of the body name *)

Module OldCoins.

(** [s.split(sep)] for a one-character separator. *)
Fixpoint split (sep : Ascii.ascii) (s : string) : list string :=
  match s with
  | EmptyString => [""]
  | String c s' =>
      if Ascii.eqb c sep then "" :: split sep s'
      else match split sep s' with
           | h :: t => String c h :: t
           | [] => [String c ""]
           end
  end.

(** [parts.join(sep)] *)
Fixpoint join (sep : Ascii.ascii) (parts : list string) : string :=
  match parts with
  | [] => ""
  | [s] => s
  | s :: rest => s ++ String sep (join sep rest)
  end.

Definition dash : Ascii.ascii := "-"%char.

(** [name.split('-')], then [parts[1]] and [parts.slice(2).join('-')]. *)
Definition otherType (name : string) : option string := split dash name !! 1%nat.
Definition otherId (name : string) : string := join dash (drop 2 (split dash name)).

(** One of the three reaction tests of the earlier [handleCollision]. *)
Definition reaction (coin : CoinData.t) (name : string) (a b result : CoinType)
  : list Coins.Callback :=
  if (bool_decide (CoinData.type coin = a)
        && bool_decide (otherType name = Some (CoinType_str b)))
     || (bool_decide (CoinData.type coin = b)
           && bool_decide (otherType name = Some (CoinType_str a)))
  then
    if String.ltb (CoinData.id coin) (otherId name)
    then [Coins.OnInteraction (CoinData.id coin) (otherId name) result]
    else []
  else [].

Definition coinToCoin (coin : CoinData.t) (name : string) : list Coins.Callback :=
  if String.prefix "coin-" name then
    reaction coin name SEED WATER TREE
    ++ reaction coin name MAGMA ICE OBSIDIAN
    ++ reaction coin name KEY CHEST DIAMOND
  else [].

Definition splitterLogic (payload : CollisionPayload.t) (coin : CoinData.t)
    (name : string) : list Coins.Callback :=
  if bool_decide (CoinData.type coin = SPLITTER)
     && negb (truthy_flag (CoinData.hasSplit coin))
  then
    if String.eqb name "pusher" then
      match CollisionPayload.solverContactPoint0 payload with
      | Some contact =>
          [Coins.OnSplit (CoinData.id coin)
             (Vector3.mk (Vector3.x contact) (Vector3.y contact + 1)%float
                         (Vector3.z contact))]
      | None => []
      end
    else []
  else [].

Definition midasLogic (coin : CoinData.t) (name : string) : list Coins.Callback :=
  if bool_decide (CoinData.type coin = GOLD) then
    if String.prefix "coin-STANDARD" name
    then [Coins.OnTransmute (otherId name)]
    else []
  else [].

(** [triggerExplosion]: the impulses, then [onExplode(id)]. *)
Definition triggerExplosion (world : list RapierRigidBody.t) (id : string)
    (body : option RapierRigidBody.t)
  : list Coins.Callback * list (Z * Vector3.t) :=
  match body with
  | None => ([], [])
  | Some body => ([Coins.OnExplode id], omap (Coins.explosionImpulse body) world)
  end.

Definition bombLogic (world : list RapierRigidBody.t)
    (payload : CollisionPayload.t) (coin : CoinData.t)
  : list Coins.Callback * list (Z * Vector3.t) :=
  if bool_decide (CoinData.type coin = BOMB) then
    let selfBody := CollisionSide.rigidBody (CollisionPayload.target payload) in
    let otherBody := CollisionSide.rigidBody (CollisionPayload.other payload) in
    match selfBody with
    | Some sb =>
        let v1 := RapierRigidBody.linvel sb in
        let v2 := match otherBody with
                  | Some ob => RapierRigidBody.linvel ob
                  | None => Coins.zeroVelocity
                  end in
        let dx := (Vector3.x v1 - Vector3.x v2)%float in
        let dy := (Vector3.y v1 - Vector3.y v2)%float in
        let dz := (Vector3.z v1 - Vector3.z v2)%float in
        let speedSq := (dx * dx + dy * dy + dz * dz)%float in
        if (25 <? speedSq)%float
        then triggerExplosion world (CoinData.id coin) selfBody
        else ([], [])
    | None => ([], [])
    end
  else ([], []).

(** The earlier [handleCollision]: the callbacks it makes, in order, and the
    impulses it applies. *)
Definition handleCollision (world : list RapierRigidBody.t)
    (payload : CollisionPayload.t) (coin : CoinData.t)
  : list Coins.Callback * list (Z * Vector3.t) :=
  match CollisionSide.rigidBodyObject (CollisionPayload.other payload) with
  | None => ([], [])
  | Some other =>
      let name := RigidBodyObject.name other in
      if String.eqb name "" then ([], [])
      else
        let bomb := bombLogic world payload coin in
        (coinToCoin coin name ++ splitterLogic payload coin name
         ++ midasLogic coin name ++ bomb.1,
         bomb.2)
  end.

End OldCoins.


(** ** A game played into its second round *)

Module Replay.

(** Each event is followed by a render. *)
Definition shown (evs : list Event) : list Event :=
  concat (map (fun e => [e; Render]) evs).

(** The timeout of the k-th collection fires, if it scheduled one. *)
Definition burst (k : nat) : Event :=
  Timeout Sample.dims
    (fun i => Sample.rnd ("b" ++ pretty k ++ "." ++ pretty i)%string).

(** A collection and the jackpot burst it may have scheduled. *)
Definition collect (k : nat) (id : string) (type : CoinType) : list Event :=
  [Collected id type; Render; burst k; Render].

Definition mult : Artifact.t :=
  Artifact.mk "mult" "Score Multiplier" "Score x1.5 per level." 800 false 0.

(** The first round: three seeds and three vials are dropped and grow into
    three trees; the trees and the sixty coins of the initial fill fall
    off, and the round is ended. *)
Definition firstRound : list Event :=
  [StartGame Sample.draw; Render]
  ++ shown (map (fun i => Drop SEED (Sample.rnd ("seed" ++ pretty i)%string))
                (seq 0 3))
  ++ shown (map (fun i => Drop WATER (Sample.rnd ("water" ++ pretty i)%string))
                (seq 0 3))
  ++ shown (map (fun i =>
                   SceneCallback (Sample.rnd ("t" ++ pretty i)%string)
                     (Coins.OnInteraction ("seed" ++ pretty i)%string
                        ("water" ++ pretty i)%string TREE))
                (seq 0 3))
  ++ concat (map (fun i => collect i ("merged-t" ++ pretty i)%string TREE)
                 (seq 0 3))
  ++ concat (map (fun i =>
                    collect (3 + i) (CoinData.id (App.startCoin (Sample.draw i)))
                      STANDARD)
                 (seq 0 60))
  ++ [RoundEnd; Render].

(** In the shop: the score multiplier twice, twenty packs of standard
    chips, and on to the next round. *)
Definition shopping : list Event :=
  shown (replicate 2 (PressArtifact mult))
  ++ shown (replicate 20 (PressCoin (COIN_CONFIG STANDARD)))
  ++ [NextRound; Render].

(** The second round: a hundred standard chips are dropped and fall off,
    then the heavy anchor of the deck is dropped. *)
Definition secondRound : list Event :=
  shown (map (fun i => Drop STANDARD (Sample.rnd ("d" ++ pretty i)%string))
             (seq 0 100))
  ++ concat (map (fun i => collect (100 + i) ("d" ++ pretty i)%string STANDARD)
                 (seq 0 100))
  ++ shown [Drop HEAVY (Sample.rnd "anchor")].

Definition events : list Event := firstRound ++ shopping ++ secondRound.



End Replay.


(** ** The same expressions on the doubles of the kernel

    Used to check the rounding of [Binary64] against the primitive
    binary64 operations on samples. *)

Module Kernel.

(** [Math.pow(1.5, level)] by repeated multiplication (exact up to 33). *)
Fixpoint pow15 (level : nat) : float :=
  match level with
  | O => 1%float
  | S n => (pow15 n * 1.5)%float
  end.

(** [Math.floor(score * Math.pow(1.5, level) * (1 + 0.1 * (bonusLevel - 1)))] *)
Definition payout (score : Z) (level : nat) (bonusLevel : Z) : Z :=
  Qfloor
    (Binary64.of_float
       (Binary64.of_Z score * pow15 level
        * (1 + 0x1.999999999999ap-4 * (Binary64.of_Z bonusLevel - 1)))%float).

(** The clock after the ticks [ds]. *)
Definition clock (ds : list float) : float :=
  foldl PrimFloat.add 0%float ds.

Definition types : list CoinType :=
  [STANDARD; SPLITTER; HEAVY; GOLD; BOMB; SEED; WATER; MAGMA; ICE; KEY; CHEST;
   TREE; OBSIDIAN; DIAMOND].

End Kernel.

(** * Verification *)

(** ** Strings as ids *)

Lemma ltb_antisym (s1 s2 : string) :
  s1 <> s2 -> String.ltb s2 s1 = negb (String.ltb s1 s2).
Proof.
  intros Hne. unfold String.ltb.
  rewrite (String.compare_antisym s2 s1).
  destruct (String.compare s1 s2) eqn:Hc; simpl; try reflexivity.
  apply String.compare_eq_iff in Hc. contradiction.
Qed.

Lemma ltb_empty_r (s : string) : String.ltb s "" = false.
Proof. destruct s; reflexivity. Qed.

Lemma truthy_str_Some (s : string) :
  truthy_str (Some s) = negb (String.eqb s "").
Proof. reflexivity. Qed.

(** ** The collision reducer *)

Lemma lookupResult_symmetric (a b r : CoinType) :
  Coins.lookupResult a b = Some r ->
  Coins.lookupResult b a = Some r
  /\ Coins.has Coins.interactionCoinTypes a = true
  /\ Coins.has Coins.interactionCoinTypes b = true.
Proof.
  destruct a, b; cbn; intros H; try discriminate H;
    injection H as <-; repeat split; reflexivity.
Qed.

Lemma Map_set_same {V : Type} (k : string) (v : V) :
  Map_set k v [(k, v)] = [(k, v)].
Proof. cbn. destruct (decide (k = k)); [reflexivity | contradiction]. Qed.

(** A contact of [a] with the body of [b], for a pair with a rule: the
    callback queues the pair exactly when [a] has the smaller id. *)
Lemma handleCollision_reactive_pair world p (a b : CoinData.t) (r : CoinType)
    (e : Coins.Env) :
  Coins.lookupResult (CoinData.type a) (CoinData.type b) = Some r ->
  CollisionSide.rigidBodyObject (CollisionPayload.other p)
    = Some (Coins.coinBodyObject b) ->
  Coins.handleCollision world p a e
  = if String.ltb (CoinData.id a) (CoinData.id b)
    then Coins.with_pending
           (Coins.queueInteraction (CoinData.id a) (CoinData.id b) r) e
    else e.
Proof.
  intros Hr Hb. unfold Coins.handleCollision. rewrite Hb.
  destruct (lookupResult_symmetric _ _ _ Hr) as (_ & Ha & _).
  assert (Hact : Coins.has Coins.activeCollisionCoinTypes (CoinData.type a) = true).
  { destruct (CoinData.type a); try discriminate Ha; reflexivity. }
  rewrite Hact, Ha. cbn [negb orb Coins.coinBodyObject RigidBodyObject.userData
    mbind option_bind UserData.coinId UserData.coinType].
  assert (Hsplit : forall e', Coins.splitterLogic p a (Coins.coinBodyObject b) e' = e').
  { intros e'. unfold Coins.splitterLogic.
    destruct (CoinData.type a); try discriminate Ha; reflexivity. }
  assert (Hmidas : forall oi ot e', Coins.midasLogic a oi ot e' = e').
  { intros oi ot e'. unfold Coins.midasLogic.
    destruct (CoinData.type a); try discriminate Ha; reflexivity. }
  assert (Hbomb : forall e', Coins.bombLogic world p a e' = e').
  { intros e'. unfold Coins.bombLogic.
    destruct (CoinData.type a); try discriminate Ha; reflexivity. }
  unfold Coins.coinBodyObject in Hsplit.
  rewrite Hbomb, Hmidas, Hsplit.
  unfold Coins.coinToCoin. rewrite Ha, Hr, truthy_str_Some.
  destruct (String.eqb_spec (CoinData.id b) "") as [-> | Hne]; cbn.
  - rewrite ltb_empty_r. reflexivity.
  - reflexivity.
Qed.

(** A fold in which one of two inputs acts and the other does nothing. *)
Lemma foldl_one_sided {E : Type} (f : bool -> E -> E) (w : bool) (E0 E1 : E) :
  (forall e, f (negb w) e = e) -> f w E0 = E1 -> f w E1 = E1 ->
  forall sides : list bool,
    foldl (fun e s => f s e) E1 sides = E1
    /\ (w ∈ sides -> foldl (fun e s => f s e) E0 sides = E1).
Proof.
  intros Hlose H0 H1 sides.
  assert (Hfix : forall l : list bool, foldl (fun e s => f s e) E1 l = E1).
  { intros l. induction l as [|s l IH]; [reflexivity|]. cbn.
    destruct (Bool.bool_dec s w) as [-> | Hs].
    - rewrite H1. exact IH.
    - replace s with (negb w) by (destruct s, w; try reflexivity; contradiction).
      rewrite Hlose. exact IH. }
  split; [apply Hfix|].
  induction sides as [|s l IH]; intros Hin.
  - inversion Hin.
  - cbn. destruct (Bool.bool_dec s w) as [-> | Hs].
    + rewrite H0. apply Hfix.
    + replace s with (negb w) by (destruct s, w; try reflexivity; contradiction).
      rewrite Hlose. apply IH.
      apply elem_of_cons in Hin as [-> | Hin]; [contradiction | exact Hin].
Qed.

(** C1.  Two distinct coins [a] and [b] whose types have a rule-table entry
    [r].  Whatever the order and the multiplicity in which the collision
    callbacks of the pair arrive during a tick ([true]: a hits b, [false]:
    b hits a), as soon as both sides have reported, the queue of combine
    events holds exactly one event: the one keyed by [(id1, id2, r)] where
    [id1 < id2] are the two ids in lexicographic order.  Nothing else is
    queued and no impulse is applied. *)
Theorem collision_pair_enqueues_exactly_one
    (world : list RapierRigidBody.t) (a b : CoinData.t) (r : CoinType)
    (pa pb : CollisionPayload.t) (sides : list bool) :
  CoinData.id a <> CoinData.id b ->
  Coins.lookupResult (CoinData.type a) (CoinData.type b) = Some r ->
  CollisionSide.rigidBodyObject (CollisionPayload.other pa)
    = Some (Coins.coinBodyObject b) ->
  CollisionSide.rigidBodyObject (CollisionPayload.other pb)
    = Some (Coins.coinBodyObject a) ->
  true ∈ sides -> false ∈ sides ->
  let a_first := String.ltb (CoinData.id a) (CoinData.id b) in
  let id1 := if a_first then CoinData.id a else CoinData.id b in
  let id2 := if a_first then CoinData.id b else CoinData.id a in
  reduceContacts world
    (map (fun s : bool => if s then (pa, a) else (pb, b)) sides)
    (Coins.mkEnv Coins.noPending [])
  = Coins.mkEnv
      (Coins.mkPending
         [(Coins.interactionKey id1 id2 r, Coins.mkInteraction id1 id2 r)]
         [] [] [])
      []
  /\ String.ltb id1 id2 = true.
Proof.
  intros Hne Hr Hpa Hpb Ht Hf a_first id1 id2.
  destruct (lookupResult_symmetric _ _ _ Hr) as (Hr' & _ & _).
  pose (f := fun (s : bool) (e : Coins.Env) =>
               if s then Coins.handleCollision world pa a e
               else Coins.handleCollision world pb b e).
  assert (Hfold : forall l e,
            reduceContacts world
              (map (fun s : bool => if s then (pa, a) else (pb, b)) l) e
            = foldl (fun e s => f s e) e l).
  { unfold reduceContacts. induction l as [|s l IH]; intros e; [reflexivity|].
    cbn. rewrite IH. destruct s; reflexivity. }
  rewrite Hfold.
  pose proof (ltb_antisym _ _ Hne) as Hanti. fold a_first in Hanti.
  assert (Hstep : forall s e,
            f s e = if Bool.eqb s a_first
                    then Coins.with_pending (Coins.queueInteraction id1 id2 r) e
                    else e).
  { intros s e. unfold f. destruct s.
    - rewrite (handleCollision_reactive_pair world pa a b r e Hr Hpa).
      fold a_first. subst id1 id2. destruct a_first; reflexivity.
    - rewrite (handleCollision_reactive_pair world pb b a r e Hr' Hpb).
      rewrite Hanti. subst id1 id2. destruct a_first; reflexivity. }
  split.
  - apply (foldl_one_sided f a_first).
    + intros e. rewrite Hstep. destruct a_first; reflexivity.
    + rewrite Hstep, Bool.eqb_reflx. reflexivity.
    + rewrite Hstep, Bool.eqb_reflx. unfold Coins.with_pending, Coins.queueInteraction.
      cbn [Coins.pending Coins.impulses Coins.interactions Coins.splits
           Coins.transmutations Coins.explosions].
      rewrite Map_set_same. reflexivity.
    + destruct a_first; assumption.
  - subst id1 id2. destruct a_first eqn:Hab; [exact Hab|].
    rewrite Hanti. reflexivity.
Qed.

Lemma collision_pair_enqueues_exactly_one_witness :
  CoinData.id Sample.seed <> CoinData.id Sample.water
  /\ Coins.lookupResult SEED WATER = Some TREE
  /\ Coins.pending
       (reduceContacts []
          [ (Sample.hits Sample.water, Sample.seed);
            (Sample.hits Sample.seed, Sample.water);
            (Sample.hits Sample.water, Sample.seed) ]
          (Coins.mkEnv Coins.noPending []))
     = Coins.mkPending
         [("a1:b2:TREE", Coins.mkInteraction "a1" "b2" TREE)] [] [] [].
Proof.
  split; [discriminate|]. split; [reflexivity|].
  pose proof (collision_pair_enqueues_exactly_one []
                Sample.seed Sample.water TREE
                (Sample.hits Sample.water) (Sample.hits Sample.seed)
                [true; false; true]) as H.
  cbn zeta in H. destruct H as [H _].
  - discriminate.
  - reflexivity.
  - reflexivity.
  - reflexivity.
  - apply elem_of_cons. left. reflexivity.
  - apply elem_of_cons. right. apply elem_of_cons. left. reflexivity.
  - cbn [map] in H. rewrite H. reflexivity.
Defined.

(** ** The registry invariant *)

Lemma registry_wf_empty : registry_wf App.emptyCoinState.
Proof.
  split; [constructor|]. intros id. cbn. rewrite lookup_empty. split.
  - intros H. inversion H.
  - intros [x Hx]. discriminate Hx.
Qed.

(** Overwriting the coin stored under a live id. *)
Lemma registry_wf_overwrite (m : gmap string CoinData.t) (order : list string)
    (id : string) (c : CoinData.t) :
  is_Some (m !! id) ->
  registry_wf (App.mkCoinState m order) ->
  registry_wf (App.mkCoinState (<[id := c]> m) order).
Proof.
  intros Hid [Hnd Hiff]. split; [exact Hnd|]. cbn in *. intros id'.
  rewrite lookup_insert_is_Some, Hiff.
  destruct (decide (id = id')) as [<- | Hne]; [tauto|]. tauto.
Qed.

(** Appending a coin under an id that is not in use. *)
Lemma registry_wf_append (m : gmap string CoinData.t) (order : list string)
    (id : string) (c : CoinData.t) :
  m !! id = None ->
  registry_wf (App.mkCoinState m order) ->
  registry_wf (App.mkCoinState (<[id := c]> m) (order ++ [id])).
Proof.
  intros Hid [Hnd Hiff]. cbn in *.
  assert (Hnot : id ∉ order).
  { intros Hin. apply Hiff in Hin as [x Hx]. congruence. }
  split; cbn.
  - apply NoDup_app. split; [exact Hnd|]. split; [|apply NoDup_singleton].
    intros x Hx Hx'. apply list_elem_of_singleton in Hx'. subst x. contradiction.
  - intros id'. rewrite elem_of_app, list_elem_of_singleton, lookup_insert_is_Some, Hiff.
    destruct (decide (id = id')) as [<- | Hne]; [tauto|]. split.
    + intros [H | H]; [tauto | congruence].
    + intros [H | [_ H]]; [congruence | tauto].
Qed.

(** Removing an id from both the map and the order. *)
Lemma registry_wf_remove (m : gmap string CoinData.t) (order : list string)
    (id : string) :
  registry_wf (App.mkCoinState m order) ->
  registry_wf (App.mkCoinState (delete id m) (filter (fun x => x ≠ id) order)).
Proof.
  intros [Hnd Hiff]. cbn in *. split; cbn.
  - apply NoDup_filter. exact Hnd.
  - intros id'. rewrite list_elem_of_filter, lookup_delete_is_Some, Hiff.
    split; intros [H1 H2]; split; auto.
Qed.

Lemma filter_two_ids (order : list string) (id1 id2 : string) :
  filter (fun x => x ≠ id1 /\ x ≠ id2) order
  = filter (fun x => x ≠ id2) (filter (fun x => x ≠ id1) order).
Proof.
  induction order as [|x l IH]; [reflexivity|].
  rewrite !filter_cons.
  destruct (decide (x ≠ id1)) as [H1|H1].
  - rewrite filter_cons. destruct (decide (x ≠ id2)) as [H2|H2].
    + rewrite decide_True by tauto. rewrite IH. reflexivity.
    + rewrite decide_False by tauto. exact IH.
  - rewrite decide_False by tauto. exact IH.
Qed.

Lemma spawnUpdater_wf (c : CoinData.t) (cs : App.CoinState) :
  App.coinMap cs !! CoinData.id c = None ->
  registry_wf cs -> registry_wf (App.spawnUpdater c cs).
Proof. destruct cs as [m order]. apply registry_wf_append. Qed.

Lemma handleSplit_wf (r : Rnd) (id : string) (position : Vector3.t)
    (cs : App.CoinState) :
  App.coinMap cs !! ("clone-" ++ digits r)%string = None ->
  registry_wf cs -> registry_wf (App.handleSplit r id position cs).
Proof.
  intros Hfresh Hwf. unfold App.handleSplit.
  destruct (App.coinMap cs !! id) as [original|] eqn:Hid; [|exact Hwf].
  destruct (truthy_flag (CoinData.hasSplit original)); [exact Hwf|].
  destruct cs as [m order]. cbn in *.
  apply registry_wf_append.
  - rewrite lookup_insert_ne; [exact Hfresh|]. intros ->. congruence.
  - apply registry_wf_overwrite; [rewrite Hid; eauto | exact Hwf].
Qed.

Lemma handleExplode_wf (id : string) (cs : App.CoinState) :
  registry_wf cs -> registry_wf (App.handleExplode id cs).
Proof.
  intros Hwf. unfold App.handleExplode.
  destruct (App.coinMap cs !! id); [|exact Hwf].
  destruct cs as [m order]. apply registry_wf_remove. exact Hwf.
Qed.

Lemma collectUpdater_wf (id : string) (cs : App.CoinState) :
  registry_wf cs -> registry_wf (App.collectUpdater id cs).
Proof.
  intros Hwf. unfold App.collectUpdater.
  destruct (App.coinMap cs !! id); [|exact Hwf].
  destruct cs as [m order]. apply registry_wf_remove. exact Hwf.
Qed.

Lemma handleTransmute_wf (id : string) (cs : App.CoinState) :
  registry_wf cs -> registry_wf (App.handleTransmute id cs).
Proof.
  intros Hwf. unfold App.handleTransmute.
  destruct (App.coinMap cs !! id) as [target|] eqn:Hid; [|exact Hwf].
  destruct (bool_decide (CoinData.type target = GOLD)); [exact Hwf|].
  destruct cs as [m order]. cbn in *.
  apply registry_wf_overwrite; [rewrite Hid; eauto | exact Hwf].
Qed.

Lemma handleCoinInteraction_wf (r : Rnd) (id1 id2 : string) (result : CoinType)
    (cs : App.CoinState) :
  App.coinMap cs !! ("merged-" ++ digits r)%string = None ->
  registry_wf cs -> registry_wf (App.handleCoinInteraction r id1 id2 result cs).
Proof.
  intros Hfresh Hwf. unfold App.handleCoinInteraction.
  destruct (App.coinMap cs !! id1) as [coin1|]; [|exact Hwf].
  destruct (App.coinMap cs !! id2) as [coin2|]; [|exact Hwf].
  destruct cs as [m order]. cbn in *. rewrite filter_two_ids.
  apply registry_wf_append.
  - apply lookup_delete_None. right. apply lookup_delete_None. right. exact Hfresh.
  - apply registry_wf_remove, registry_wf_remove. exact Hwf.
Qed.

Lemma jackpotUpdater_cons (c : CoinData.t) (l : list CoinData.t)
    (cs : App.CoinState) :
  App.jackpotUpdater (c :: l) cs = App.jackpotUpdater l (App.spawnUpdater c cs).
Proof.
  unfold App.jackpotUpdater, App.spawnUpdater, Map_of_entries. cbn.
  rewrite <- app_assoc. reflexivity.
Qed.

Lemma jackpotUpdater_wf (l : list CoinData.t) (cs : App.CoinState) :
  NoDup (map CoinData.id l) ->
  (forall id, id ∈ map CoinData.id l -> App.coinMap cs !! id = None) ->
  registry_wf cs -> registry_wf (App.jackpotUpdater l cs).
Proof.
  revert cs. induction l as [|c l IH]; intros cs Hnd Hfresh Hwf.
  - destruct cs as [m order]. unfold App.jackpotUpdater, Map_of_entries. cbn.
    rewrite app_nil_r. exact Hwf.
  - rewrite jackpotUpdater_cons. cbn in Hnd. apply NoDup_cons in Hnd as [Hc Hnd].
    apply IH; [exact Hnd | |].
    + intros id Hid. unfold App.spawnUpdater. cbn.
      rewrite lookup_insert_ne.
      * apply Hfresh. cbn. apply elem_of_cons. right. exact Hid.
      * intros <-. contradiction.
    + apply spawnUpdater_wf; [|exact Hwf].
      apply Hfresh. cbn. apply elem_of_cons. left. reflexivity.
Qed.

Lemma In_elem_of {A : Type} (x : A) (l : list A) : In x l <-> x ∈ l.
Proof. symmetry. apply list_elem_of_In. Qed.

Lemma startGame_coinState (draw : nat -> Rnd) (a : App.t) :
  App.coinState (App.startGame draw a)
  = App.jackpotUpdater (map (fun i => App.startCoin (draw i)) (seq 0 60))
      App.emptyCoinState.
Proof. reflexivity. Qed.

(** Every event of the system keeps the registry invariant, as long as the
    ids it mints are fresh. *)
Lemma handle_registry_wf (ev : Event) (a : App.t) :
  registry_wf (App.coinState a) -> mints_fresh ev a ->
  registry_wf (App.coinState (handle ev a)).
Proof.
  intros Hwf [Hnd Hfresh].
  destruct ev as [ | b | d | | draw | | type r | dims draw | r c | id type
                   | | | item cost | base | coin ]; cbn [handle].
  - exact Hwf.
  - exact Hwf.
  - exact Hwf.
  - unfold App.decayInterval.
    repeat match goal with |- context [if ?b then _ else _] => destruct b end;
      exact Hwf.
  - rewrite startGame_coinState. cbn [minted] in Hnd.
    apply jackpotUpdater_wf.
    + rewrite map_map. exact Hnd.
    + intros id _. apply lookup_empty.
    + apply registry_wf_empty.
  - apply registry_wf_empty.
  - unfold App.handleCoinDrop, App.spawnCoin.
    destruct (negb false && _); [exact Hwf|].
    cbn [App.setGameState App.setCoinState App.coinState].
    apply spawnUpdater_wf; [|exact Hwf].
    apply Hfresh. cbn. apply elem_of_cons. left. reflexivity.
  - unfold App.runTimeout. cbn [minted] in Hnd, Hfresh.
    destruct (App.timeouts a) as [|level rest]; [exact Hwf|].
    unfold App.triggerJackpot.
    cbn [App.setGameState App.setCoinState App.setTimeouts App.coinState
         App.gameStateRef].
    apply jackpotUpdater_wf; [| |exact Hwf].
    + rewrite map_map. exact Hnd.
    + intros id Hid. apply Hfresh. rewrite map_map in Hid. exact Hid.
  - unfold App.onCallback. cbn [App.setCoinState App.coinState].
    destruct c as [id1 id2 result | id position | targetId | id];
      cbn [App.callbackUpdater].
    + apply handleCoinInteraction_wf; [|exact Hwf].
      apply Hfresh. cbn. apply elem_of_cons. left. reflexivity.
    + apply handleSplit_wf; [|exact Hwf].
      apply Hfresh. cbn. apply elem_of_cons. left. reflexivity.
    + apply handleTransmute_wf. exact Hwf.
    + apply handleExplode_wf. exact Hwf.
  - unfold App.handleCoinCollected.
    cbn [App.setGameState App.setCoinState App.setClocks App.coinState].
    match goal with |- context [if ?b then App.setTimeouts _ _ else _] =>
      destruct b end;
      cbn [App.setGameState App.setCoinState App.setClocks App.setTimeouts
           App.coinState];
      apply collectUpdater_wf; exact Hwf.
  - unfold App.handleRoundEnd. destruct (_ <=? _)%Z; exact Hwf.
  - exact Hwf.
  - unfold App.buyItem. destruct (_ <=? _)%Z; exact Hwf.
  - unfold Shop.pressArtifact, App.buyItem. repeat destruct (_ <=? _)%Z; exact Hwf.
  - unfold Shop.pressCoin, App.buyItem. repeat destruct (_ <=? _)%Z; exact Hwf.
Qed.

(** C2 (as amended).  Every registry operation keeps the registry invariant
    (the ordered id list [coinOrder] has no repetition and lists exactly the
    keys of [coinMap]), provided the ids it mints from the random generator
    are pairwise distinct and not in use ([mints_fresh]).  The operations
    are the events of the system: drop of a coin (spawn), the split, merge
    (combine), transmute and explode callbacks, collection, the jackpot
    burst (a timeout), the initial fill (start of a game), and all the
    events that leave the registry alone. *)
Theorem registry_operations_preserve_invariant (ev : Event) (a : App.t) :
  registry_wf (App.coinState a) -> mints_fresh ev a ->
  registry_wf (App.coinState (handle ev a)).
Proof. apply handle_registry_wf. Qed.

(** The invariant holds along every run whose minted ids are fresh. *)
Lemma registry_wf_run (evs : list Event) (a : App.t) :
  registry_wf (App.coinState a) -> all_fresh evs a ->
  registry_wf (App.coinState (run evs a)).
Proof.
  revert a. induction evs as [|ev evs IH]; intros a Hwf Hfresh; [exact Hwf|].
  destruct Hfresh as [H1 H2]. cbn. apply IH; [|exact H2].
  apply handle_registry_wf; assumption.
Qed.

(** ** Artifacts *)

Lemma findIndex_Some (id : string) (l : list Artifact.t) (i : nat) :
  App.findIndex id l = Some i ->
  exists a, l !! i = Some a /\ Artifact.id a = id /\ App.findArtifact id l = Some a.
Proof.
  revert i. induction l as [|b l IH]; intros i H; [discriminate H|].
  cbn in H |- *. destruct (String.eqb_spec (Artifact.id b) id) as [Heq|Hne].
  - injection H as <-. exists b. auto.
  - destruct (App.findIndex id l) as [j|]; [|discriminate H].
    injection H as <-. destruct (IH j eq_refl) as (a & H1 & H2 & H3).
    exists a. auto.
Qed.

Lemma findIndex_None (id : string) (l : list Artifact.t) :
  App.findIndex id l = None -> App.findArtifact id l = None.
Proof.
  induction l as [|b l IH]; intros H; [reflexivity|].
  cbn in H |- *. destruct (String.eqb (Artifact.id b) id); [discriminate H|].
  destruct (App.findIndex id l); [discriminate H|]. apply IH. reflexivity.
Qed.

Lemma findArtifact_None_absent (id : string) (l : list Artifact.t) :
  (forall a, a ∈ l -> Artifact.id a <> id) -> App.findIndex id l = None.
Proof.
  induction l as [|b l IH]; intros H; [reflexivity|]. cbn.
  destruct (String.eqb_spec (Artifact.id b) id) as [Heq|Hne].
  - exfalso. apply (H b); [apply elem_of_cons; auto | exact Heq].
  - rewrite IH; [reflexivity|]. intros a Ha. apply H, elem_of_cons. auto.
Qed.

(** Raising the level of the artifact found by [findIndex]. *)
Lemma upgrade_found (id : string) (l : list Artifact.t) (i : nat)
    (a : Artifact.t) (k : Z) :
  App.findIndex id l = Some i -> l !! i = Some a ->
  App.findArtifact id (<[i := Artifact.with_level k a]> l)
    = Some (Artifact.with_level k a)
  /\ map Artifact.id (<[i := Artifact.with_level k a]> l) = map Artifact.id l.
Proof.
  revert i. induction l as [|b l IH]; intros i Hi Ha; [discriminate Hi|].
  cbn in Hi. destruct (String.eqb_spec (Artifact.id b) id) as [Heq|Hne].
  - injection Hi as <-. cbn in Ha. injection Ha as ->. cbn.
    rewrite Heq, String.eqb_refl. auto.
  - destruct (App.findIndex id l) as [j|] eqn:Hj; [|discriminate Hi].
    injection Hi as <-. cbn in Ha. destruct (IH j eq_refl Ha) as [H1 H2].
    cbn. apply String.eqb_neq in Hne. rewrite Hne. split; [exact H1|].
    f_equal. exact H2.
Qed.

Lemma findArtifact_snoc (id : string) (l : list Artifact.t) (b : Artifact.t) :
  App.findArtifact id l = None -> Artifact.id b = id ->
  App.findArtifact id (l ++ [b]) = Some b.
Proof.
  intros Hl Hb. induction l as [|c l IH].
  - cbn. rewrite Hb, String.eqb_refl. reflexivity.
  - cbn in Hl |- *. destruct (String.eqb (Artifact.id c) id); [discriminate Hl|].
    apply IH. exact Hl.
Qed.

Lemma findArtifact_Some (id : string) (l : list Artifact.t) (a : Artifact.t) :
  App.findArtifact id l = Some a -> a ∈ l /\ Artifact.id a = id.
Proof.
  intros H. apply find_some in H as [H1 H2]. split.
  - apply list_elem_of_In. exact H1.
  - apply String.eqb_eq. exact H2.
Qed.

Lemma catalog_ids (a : Artifact.t) :
  a ∈ SHOP_ARTIFACTS -> Artifact.id a ∈ map Artifact.id SHOP_ARTIFACTS.
Proof.
  intros H. apply list_elem_of_In, in_map, list_elem_of_In. exact H.
Qed.

Lemma from_catalog_ids (g : GameState.t) :
  from_catalog g <->
  forall id, id ∈ map Artifact.id (GameState.artifacts g) ->
    id ∈ map Artifact.id SHOP_ARTIFACTS.
Proof.
  unfold from_catalog. split.
  - intros H id Hid. apply list_elem_of_In, in_map_iff in Hid as (a & <- & Ha).
    apply H, list_elem_of_In. exact Ha.
  - intros H a Ha. apply H, list_elem_of_In, in_map, list_elem_of_In. exact Ha.
Qed.

Lemma buyUpdater_from_catalog (item : App.Item) (cost : Z) (g : GameState.t) :
  from_catalog g -> from_catalog (App.buyUpdater item cost g).
Proof.
  intros Hg. destruct item as [type | id]; [exact Hg|].
  apply from_catalog_ids. cbn [App.buyUpdater GameState.artifacts].
  pose proof (proj1 (from_catalog_ids g) Hg) as Hids.
  destruct (App.findIndex id (GameState.artifacts g)) as [i|] eqn:Hi.
  - destruct (findIndex_Some _ _ _ Hi) as (a & Ha & _ & _). rewrite Ha.
    destruct (upgrade_found id _ i a (Artifact.level a + 1) Hi Ha) as [_ ->].
    exact Hids.
  - destruct (App.findArtifact id SHOP_ARTIFACTS) as [base|] eqn:Hb; [|exact Hids].
    intros id'. rewrite map_app, elem_of_app. intros [H | H]; [auto|].
    cbn in H. apply list_elem_of_singleton in H. subst id'.
    apply findArtifact_Some in Hb as [Hb _]. apply catalog_ids. exact Hb.
Qed.

(** ** The bonus meter *)

Lemma Qle_bool_false (x y : Q) : Qle_bool x y = false -> (y < x)%Q.
Proof.
  intros H. apply Qnot_le_lt. intros Hle. apply Qle_bool_iff in Hle. congruence.
Qed.

Lemma Math_max0_nonneg (q : Q) : (0 <= Math_max0 q)%Q.
Proof.
  unfold Math_max0. destruct (Qle_bool q 0) eqn:H; [lra|].
  apply Qle_bool_false in H. lra.
Qed.

Lemma Math_max0_le (q u : Q) : (0 <= u)%Q -> (q <= u)%Q -> (Math_max0 q <= u)%Q.
Proof. intros H0 Hq. unfold Math_max0. destruct (Qle_bool q 0); assumption. Qed.

Lemma decayUpdater_nonneg (decayDelta : Q) (g : GameState.t) :
  (0 <= GameState.bonus g)%Q ->
  (0 <= GameState.bonus (App.decayUpdater decayDelta g))%Q.
Proof.
  intros H. unfold App.decayUpdater.
  destruct (Qle_bool (GameState.bonus g) 0); [exact H|]. cbn.
  apply Math_max0_nonneg.
Qed.

Lemma decayUpdater_in_range (decayDelta : Q) (g : GameState.t) :
  (0 < decayDelta)%Q -> bonus_in_range g ->
  bonus_in_range (App.decayUpdater decayDelta g).
Proof.
  intros Hd [H0 H100]. split; [apply decayUpdater_nonneg; exact H0|].
  unfold App.decayUpdater.
  destruct (Qle_bool (GameState.bonus g) 0); [exact H100|]. cbn.
  apply Qle_lt_trans with (y := GameState.bonus g); [|exact H100].
  apply Math_max0_le; [exact H0|]. unfold App.decayRatePerSecond. lra.
Qed.

Lemma decayUpdater_artifacts (decayDelta : Q) (g : GameState.t) :
  GameState.artifacts (App.decayUpdater decayDelta g) = GameState.artifacts g.
Proof.
  unfold App.decayUpdater. destruct (Qle_bool (GameState.bonus g) 0); reflexivity.
Qed.

(** The meter value a collection stores, from the value it read. *)
Lemma collected_bonus_in_range (b : Q) :
  (0 <= b)%Q ->
  let nb := if Qle_bool 100 (b + 4) then 0%Q else (b + 4)%Q in
  (0 <= nb)%Q /\ (nb < 100)%Q.
Proof.
  intros Hb. cbn. destruct (Qle_bool 100 (b + 4)) eqn:H; [lra|].
  apply Qle_bool_false in H. lra.
Qed.

Lemma economy_inv_initial : economy_inv App.initial.
Proof.
  assert (Hb : bonus_in_range App.INITIAL_STATE) by (split; cbn; lra).
  assert (Hc : from_catalog App.INITIAL_STATE).
  { intros a Ha. cbn in Ha. inversion Ha. }
  repeat split; first [apply Hb | apply Hc].
Qed.

(** Every event keeps the bonus meter within [0, 100) and the owned
    artifacts within the catalog, in the state and in its rendered copy. *)
Lemma handle_economy_inv (ev : Event) (a : App.t) :
  economy_inv a -> economy_inv (handle ev a).
Proof.
  intros (Hb & Hbr & Hc & Hcr).
  assert (Hb0 : bonus_in_range App.INITIAL_STATE) by (split; cbn; lra).
  assert (Hc0 : from_catalog App.INITIAL_STATE).
  { intros x Hx. cbn in Hx. inversion Hx. }
  destruct ev as [ | b | d | | draw | | type r | dims draw | r c | id type
                   | | | item cost | base | coin ]; cbn [handle].
  - repeat split; first [apply Hb | apply Hc].
  - repeat split; first [apply Hb | apply Hbr | apply Hc | apply Hcr].
  - repeat split; first [apply Hb | apply Hbr | apply Hc | apply Hcr].
  - unfold App.decayInterval.
    destruct (negb _ || negb _);
      [repeat split; first [apply Hb | apply Hbr | apply Hc | apply Hcr]|].
    destruct (Qle_bool (_ - _) 2);
      [repeat split; first [apply Hb | apply Hbr | apply Hc | apply Hcr]|].
    destruct (Qle_bool (_ - _) 0) eqn:Hd;
      [repeat split; first [apply Hb | apply Hbr | apply Hc | apply Hcr]|].
    apply Qle_bool_false in Hd.
    unfold economy_inv, from_catalog.
    cbn [App.setGameState App.setClocks App.gameState App.gameStateRef].
    rewrite decayUpdater_artifacts.
    split; [apply decayUpdater_in_range; assumption|].
    repeat split; first [apply Hbr | apply Hc | apply Hcr].
  - repeat split; first [apply Hb0 | apply Hbr | apply Hc0 | apply Hcr].
  - repeat split; first [apply Hb0 | apply Hbr | apply Hc0 | apply Hcr].
  - unfold App.handleCoinDrop, App.spawnCoin.
    destruct (negb false && _);
      repeat split; first [apply Hb | apply Hbr | apply Hc | apply Hcr].
  - unfold App.runTimeout. destruct (App.timeouts a);
      repeat split; first [apply Hb | apply Hbr | apply Hc | apply Hcr].
  - repeat split; first [apply Hb | apply Hbr | apply Hc | apply Hcr].
  - unfold App.handleCoinCollected.
    cbn [App.setGameState App.setCoinState App.setClocks App.gameStateRef].
    destruct (collected_bonus_in_range (GameState.bonus (App.gameStateRef a))
                (proj1 Hbr)) as [H0 H100].
    destruct (Qle_bool 100 (GameState.bonus (App.gameStateRef a) + 4));
      repeat split; first [apply H0 | apply H100 | apply Hbr | apply Hc | apply Hcr].
  - unfold App.handleRoundEnd. destruct (_ <=? _)%Z;
      repeat split;
      first [apply Hb | apply Hbr | apply Hc | apply Hcr | cbn; lra].
  - repeat split; first [apply Hb | apply Hbr | apply Hc | apply Hcr].
  - unfold App.buyItem. destruct (_ <=? _)%Z;
      [|repeat split; first [apply Hb | apply Hbr | apply Hc | apply Hcr]].
    unfold economy_inv.
    cbn [App.setGameState App.gameState App.gameStateRef].
    split; [destruct item; exact Hb|].
    split; [exact Hbr|]. split; [|exact Hcr].
    apply buyUpdater_from_catalog. exact Hc.
  - unfold Shop.pressArtifact, App.buyItem.
    destruct (_ <=? _)%Z;
      [|repeat split; first [apply Hb | apply Hbr | apply Hc | apply Hcr]].
    unfold economy_inv.
    cbn [App.setGameState App.gameState App.gameStateRef].
    split; [exact Hb|]. split; [exact Hbr|]. split; [|exact Hcr].
    apply buyUpdater_from_catalog. exact Hc.
  - unfold Shop.pressCoin, App.buyItem.
    destruct (_ <=? _)%Z;
      repeat split; first [apply Hb | apply Hbr | apply Hc | apply Hcr].
Qed.

Lemma run_economy_inv (evs : list Event) (a : App.t) :
  economy_inv a -> economy_inv (run evs a).
Proof.
  revert a. induction evs as [|ev evs IH]; intros a Ha; [exact Ha|].
  cbn. apply IH, handle_economy_inv, Ha.
Qed.

Lemma reachable_economy_inv (a : App.t) : reachable a -> economy_inv a.
Proof. intros [evs <-]. apply run_economy_inv, economy_inv_initial. Qed.


Lemma Qle_bool_true (x y : Q) : (x <= y)%Q -> Qle_bool x y = true.
Proof. apply Qle_bool_iff. Qed.

Lemma Qlt_Qle_bool_false (x y : Q) : (y < x)%Q -> Qle_bool x y = false.
Proof.
  intros H. destruct (Qle_bool x y) eqn:E; [|reflexivity].
  apply Qle_bool_iff in E. lra.
Qed.




(** ** Collection *)

(** ** Purchases *)

Lemma artifactLevel_found (id : string) (l : list Artifact.t) (a : Artifact.t) :
  App.findArtifact id l = Some a -> App.artifactLevel id l = Artifact.level a.
Proof. intros H. unfold App.artifactLevel. rewrite H. reflexivity. Qed.

(** The artifact list after a paid purchase of a catalog artifact: the owned
    level of that artifact goes up by one. *)
Lemma buyUpdater_level (id : string) (cost : Z) (g : GameState.t)
    (base : Artifact.t) :
  App.findArtifact id SHOP_ARTIFACTS = Some base ->
  let g' := App.buyUpdater (App.ArtifactItem id) cost g in
  GameState.cash g' = (GameState.cash g - cost)%Z
  /\ App.artifactLevel id (GameState.artifacts g')
     = (App.artifactLevel id (GameState.artifacts g) + 1)%Z.
Proof.
  intros Hbase. cbn zeta. cbn [App.buyUpdater GameState.cash GameState.artifacts].
  split; [reflexivity|].
  destruct (App.findIndex id (GameState.artifacts g)) as [i|] eqn:Hi.
  - destruct (findIndex_Some _ _ _ Hi) as (a & Ha & _ & Hfind). rewrite Ha.
    destruct (upgrade_found id _ i a (Artifact.level a + 1) Hi Ha) as [Hup _].
    rewrite (artifactLevel_found _ _ _ Hup), (artifactLevel_found _ _ _ Hfind).
    reflexivity.
  - rewrite Hbase. pose proof (findIndex_None _ _ Hi) as Hnone.
    apply findArtifact_Some in Hbase as [_ Hid].
    rewrite (artifactLevel_found id _ (Artifact.activated base)).
    + unfold App.artifactLevel. rewrite Hnone. reflexivity.
    + apply findArtifact_snoc; [exact Hnone | exact Hid].
Qed.

Lemma catalog_find (base : Artifact.t) :
  base ∈ SHOP_ARTIFACTS ->
  App.findArtifact (Artifact.id base) SHOP_ARTIFACTS = Some base
  /\ (0 <= Artifact.cost base)%Z.
Proof.
  intros H. unfold SHOP_ARTIFACTS in H.
  repeat (apply elem_of_cons in H as [-> | H]; [split; [reflexivity | cbn; lia]|]).
  inversion H.
Qed.

(** Pressing the button of a catalog artifact that the rendered cash can pay. *)
Lemma pressArtifact_paid (base : Artifact.t) (a : App.t) :
  base ∈ SHOP_ARTIFACTS ->
  let g := App.gameState a in
  let price := Shop.currentCost base g in
  (price <= GameState.cash g)%Z ->
  let g' := App.gameState (Shop.pressArtifact base (App.render a)) in
  GameState.cash g' = (GameState.cash g - price)%Z
  /\ App.artifactLevel (Artifact.id base) (GameState.artifacts g')
     = (App.artifactLevel (Artifact.id base) (GameState.artifacts g) + 1)%Z.
Proof.
  intros Hbase g price Hpay. apply catalog_find in Hbase as [Hfind _].
  unfold Shop.pressArtifact, App.buyItem.
  cbn [App.render App.gameStateRef]. fold g price.
  apply Z.leb_le in Hpay. rewrite Hpay.
  cbn [App.setGameState App.gameState].
  apply (buyUpdater_level _ price g base Hfind).
Qed.

Lemma currentCost_at_level (base : Artifact.t) (g : GameState.t) (L : Z) :
  App.artifactLevel (Artifact.id base) (GameState.artifacts g) = L ->
  Shop.currentCost base g = Qfloor (inject_Z (Artifact.cost base) * (3 # 2) ^ L).
Proof. intros <-. reflexivity. Qed.

Lemma Qfloor_times_one (c : Z) : Qfloor (inject_Z c * (3 # 2) ^ 0) = c.
Proof.
  change ((3 # 2) ^ 0)%Q with 1%Q.
  rewrite (Qfloor_comp _ (inject_Z c)) by apply Qmult_1_r.
  apply Qfloor_Z.
Qed.

(** C9.  For every artifact of the catalog, the price shown at owned level L
    is floor(baseCost * 1.5^L); a purchase the cash can pay deducts exactly
    that price and raises the owned level by exactly one; so three
    successive purchases from level 0 cost baseCost, floor(baseCost * 1.5)
    and floor(baseCost * 2.25) and end at level 3.  (The shop is rendered
    before each press.) *)
Theorem artifact_price_scales_per_level (base : Artifact.t) (a : App.t) :
  base ∈ SHOP_ARTIFACTS ->
  let g := App.gameState a in
  let level_of (x : App.t) :=
    App.artifactLevel (Artifact.id base) (GameState.artifacts (App.gameState x)) in
  let cash_of (x : App.t) := GameState.cash (App.gameState x) in
  let L := level_of a in
  let price := Qfloor (inject_Z (Artifact.cost base) * (3 # 2) ^ L) in
  Shop.currentCost base g = price
  /\ ((price <= cash_of a)%Z ->
        let a' := Shop.pressArtifact base (App.render a) in
        cash_of a' = (cash_of a - price)%Z /\ level_of a' = (L + 1)%Z)
  /\ (L = 0%Z ->
        let p0 := Artifact.cost base in
        let p1 := Qfloor (inject_Z (Artifact.cost base) * (3 # 2)) in
        let p2 := Qfloor (inject_Z (Artifact.cost base) * (9 # 4)) in
        (p0 + p1 + p2 <= cash_of a)%Z ->
        let a1 := Shop.pressArtifact base (App.render a) in
        let a2 := Shop.pressArtifact base (App.render a1) in
        let a3 := Shop.pressArtifact base (App.render a2) in
        cash_of a1 = (cash_of a - p0)%Z
        /\ cash_of a2 = (cash_of a1 - p1)%Z
        /\ cash_of a3 = (cash_of a2 - p2)%Z
        /\ level_of a3 = 3%Z).
Proof.
  intros Hbase g level_of cash_of L price.
  split; [reflexivity|]. split.
  - intros Hpay a'. apply (pressArtifact_paid base a Hbase Hpay).
  - intros HL p0 p1 p2 Hcash a1 a2 a3.
    destruct (catalog_find base Hbase) as [_ Hcost].
    assert (Hp1 : (0 <= p1)%Z).
    { subst p1. rewrite <- (Qfloor_Z 0). apply Qfloor_resp_le.
      apply Qmult_le_0_compat; [|lra].
      change 0%Q with (inject_Z 0). rewrite <- Zle_Qle. exact Hcost. }
    assert (Hp2 : (0 <= p2)%Z).
    { subst p2. rewrite <- (Qfloor_Z 0). apply Qfloor_resp_le.
      apply Qmult_le_0_compat; [|lra].
      change 0%Q with (inject_Z 0). rewrite <- Zle_Qle. exact Hcost. }
    (* first purchase, at level 0 *)
    assert (Hc0 : Shop.currentCost base (App.gameState a) = p0).
    { rewrite (currentCost_at_level base _ 0 HL). apply Qfloor_times_one. }
    destruct (pressArtifact_paid base a Hbase) as [Hcash1 Hlev1].
    { rewrite Hc0. fold (cash_of a). lia. }
    rewrite Hc0 in Hcash1. fold a1 (cash_of a1) (cash_of a) in Hcash1.
    fold a1 (level_of a1) (level_of a) L in Hlev1. rewrite HL in Hlev1.
    (* second purchase, at level 1 *)
    assert (Hc1 : Shop.currentCost base (App.gameState a1) = p1).
    { rewrite (currentCost_at_level base _ 1 Hlev1). reflexivity. }
    destruct (pressArtifact_paid base a1 Hbase) as [Hcash2 Hlev2].
    { rewrite Hc1. fold (cash_of a1). lia. }
    rewrite Hc1 in Hcash2. fold a2 (cash_of a2) (cash_of a1) in Hcash2.
    fold a2 (level_of a2) (level_of a1) in Hlev2. rewrite Hlev1 in Hlev2.
    (* third purchase, at level 2 *)
    assert (Hc2 : Shop.currentCost base (App.gameState a2) = p2).
    { rewrite (currentCost_at_level base _ 2 Hlev2). reflexivity. }
    destruct (pressArtifact_paid base a2 Hbase) as [Hcash3 Hlev3].
    { rewrite Hc2. fold (cash_of a2). lia. }
    rewrite Hc2 in Hcash3. fold a3 (cash_of a3) (cash_of a2) in Hcash3.
    fold a3 (level_of a3) (level_of a2) in Hlev3. rewrite Hlev2 in Hlev3.
    auto.
Qed.

Lemma artifact_price_scales_per_level_witness :
  let magnet :=
    Artifact.mk "magnet" "Flux Magnet" "Coins settle faster per level." 300 false 0 in
  let a := Sample.shopping 2000 in
  let a1 := Shop.pressArtifact magnet (App.render a) in
  let a2 := Shop.pressArtifact magnet (App.render a1) in
  let a3 := Shop.pressArtifact magnet (App.render a2) in
  magnet ∈ SHOP_ARTIFACTS
  /\ GameState.cash (App.gameState a1) = (2000 - 300)%Z
  /\ GameState.cash (App.gameState a2) = (2000 - 300 - 450)%Z
  /\ GameState.cash (App.gameState a3) = (2000 - 300 - 450 - 675)%Z
  /\ App.artifactLevel "magnet" (GameState.artifacts (App.gameState a3)) = 3%Z.
Proof.
  intros magnet a a1 a2 a3.
  assert (Hin : magnet ∈ SHOP_ARTIFACTS) by (apply elem_of_cons; left; reflexivity).
  split; [exact Hin|].
  destruct (proj2 (proj2 (artifact_price_scales_per_level magnet a Hin)))
    as (H1 & H2 & H3 & H4).
  - reflexivity.
  - vm_compute. discriminate.
  - fold a1 a2 a3 in H1, H2, H3, H4.
    split; [rewrite H1; reflexivity|].
    split; [rewrite H2, H1; reflexivity|].
    split; [rewrite H3, H2, H1; reflexivity | exact H4].
Defined.

(** C10.  In a reachable game, a purchase of an artifact whose id is not in
    the catalog, at a cost the (rendered) cash covers, takes the cost off the
    cash and leaves the list of artifacts as it was: the money is spent and
    no artifact is gained. *)
Theorem unknown_artifact_purchase_only_spends
    (a : App.t) (id : string) (cost : Z) :
  reachable a ->
  id ∉ map Artifact.id SHOP_ARTIFACTS ->
  (cost <= GameState.cash (App.gameState a))%Z ->
  let g := App.gameState a in
  let g' := App.gameState (App.buyItem (App.ArtifactItem id) cost (App.render a)) in
  GameState.cash g' = (GameState.cash g - cost)%Z
  /\ GameState.artifacts g' = GameState.artifacts g.
Proof.
  intros Hreach Hid Hcost g g'.
  destruct (reachable_economy_inv a Hreach) as (_ & _ & Hcat & _).
  subst g'. unfold App.buyItem. cbn [App.render App.gameStateRef].
  apply Z.leb_le in Hcost. rewrite Hcost.
  cbn [App.setGameState App.gameState App.buyUpdater GameState.cash
       GameState.artifacts].
  split; [reflexivity|].
  rewrite findArtifact_None_absent.
  - destruct (App.findArtifact id SHOP_ARTIFACTS) as [b|] eqn:Hb; [|reflexivity].
    exfalso. apply findArtifact_Some in Hb as [Hb <-].
    apply Hid, catalog_ids, Hb.
  - intros x Hx Heq. apply Hid. rewrite <- Heq. apply Hcat, Hx.
Qed.

Lemma unknown_artifact_purchase_only_spends_witness :
  reachable Scenario.started
  /\ GameState.cash
       (App.gameState
          (App.buyItem (App.ArtifactItem "turbo") 40
             (App.render Scenario.started))) = 60%Z
  /\ GameState.artifacts
       (App.gameState
          (App.buyItem (App.ArtifactItem "turbo") 40
             (App.render Scenario.started))) = [].
Proof.
  assert (Hreach : reachable Scenario.started).
  { exists [StartGame Sample.draw; Render]. reflexivity. }
  split; [exact Hreach|].
  apply (unknown_artifact_purchase_only_spends Scenario.started "turbo" 40 Hreach).
  - intros H. vm_compute in H.
    repeat (apply elem_of_cons in H as [H | H]; [discriminate H|]).
    inversion H.
  - vm_compute. discriminate.
Defined.

(** ** Combine *)

Lemma handleCoinInteraction_absent (r : Rnd) (id1 id2 : string)
    (resultType : CoinType) (cs : App.CoinState) :
  App.coinMap cs !! id1 = None \/ App.coinMap cs !! id2 = None ->
  App.handleCoinInteraction r id1 id2 resultType cs = cs.
Proof.
  intros [H | H]; unfold App.handleCoinInteraction; rewrite H; [reflexivity|].
  destruct (App.coinMap cs !! id1); reflexivity.
Qed.

(** C7 (as amended).  A combine event whose two input ids are both present,
    and whose newly minted id ["merged-" ++ digits] is not in use, removes
    both reactants and inserts exactly one new coin: it has the minted id,
    the product type, the componentwise midpoint of the positions of the two
    reactants and zero rotation; every other coin is untouched, the new id
    goes last in the order and the registry invariant is kept.  If either
    input id is absent the registry is unchanged. *)
Theorem combine_replaces_reactants_by_product
    (r : Rnd) (id1 id2 : string) (resultType : CoinType) (cs : App.CoinState) :
  let cs' := App.handleCoinInteraction r id1 id2 resultType cs in
  let newId := ("merged-" ++ digits r)%string in
  (App.coinMap cs !! id1 = None \/ App.coinMap cs !! id2 = None -> cs' = cs)
  /\ (forall coin1 coin2 : CoinData.t,
        App.coinMap cs !! id1 = Some coin1 ->
        App.coinMap cs !! id2 = Some coin2 ->
        App.coinMap cs !! newId = None ->
        let p := CoinData.position coin1 in
        let q := CoinData.position coin2 in
        App.coinMap cs' !! id1 = None
        /\ App.coinMap cs' !! id2 = None
        /\ App.coinMap cs' !! newId
           = Some (CoinData.mk newId resultType
                     (((p.1.1 + q.1.1) / 2)%float,
                      ((p.1.2 + q.1.2) / 2)%float,
                      ((p.2 + q.2) / 2)%float)
                     (0%float, 0%float, 0%float) None None)
        /\ (forall k, k <> id1 -> k <> id2 -> k <> newId ->
              App.coinMap cs' !! k = App.coinMap cs !! k)
        /\ App.coinOrder cs'
           = filter (fun k => k <> id1 /\ k <> id2) (App.coinOrder cs) ++ [newId]
        /\ (registry_wf cs -> registry_wf cs')).
Proof.
  intros cs' newId. split; [apply handleCoinInteraction_absent|].
  intros coin1 coin2 H1 H2 Hfresh p q.
  assert (Hn1 : newId <> id1) by (intros E; rewrite E in Hfresh; congruence).
  assert (Hn2 : newId <> id2) by (intros E; rewrite E in Hfresh; congruence).
  assert (Hwf' : registry_wf cs -> registry_wf cs').
  { intros Hwf. apply handleCoinInteraction_wf; assumption. }
  subst cs'. unfold App.handleCoinInteraction in *. rewrite H1, H2 in *.
  cbn [App.coinMap App.coinOrder CoinData.id] in *. fold newId.
  split; [|split; [|split; [|split; [|split]]]].
  - rewrite lookup_insert_ne by exact Hn1.
    destruct (decide (id2 = id1)) as [-> | Hne].
    + apply lookup_delete_eq.
    + rewrite lookup_delete_ne by exact Hne. apply lookup_delete_eq.
  - rewrite lookup_insert_ne by exact Hn2. apply lookup_delete_eq.
  - rewrite lookup_insert_eq. reflexivity.
  - intros k Hk1 Hk2 Hk.
    rewrite lookup_insert_ne by (intros E; apply Hk; symmetry; exact E).
    rewrite lookup_delete_ne by (intros E; apply Hk2; symmetry; exact E).
    apply lookup_delete_ne. intros E; apply Hk1; symmetry; exact E.
  - reflexivity.
  - exact Hwf'.
Qed.

Lemma sample_registry_wf (coins : list CoinData.t) :
  NoDup (map CoinData.id coins) -> registry_wf (Sample.registry coins).
Proof.
  intros H. apply jackpotUpdater_wf; [exact H | | apply registry_wf_empty].
  intros id _. apply lookup_empty.
Qed.

Lemma combine_replaces_reactants_by_product_witness :
  let cs := Sample.registry [Sample.seed; Sample.water; Sample.chip] in
  let cs' := App.handleCoinInteraction (Sample.rnd "k3x9q0zr1") "a1" "b2" TREE cs in
  registry_wf cs
  /\ App.coinMap cs' !! "merged-k3x9q0zr1"
     = Some (CoinData.mk "merged-k3x9q0zr1" TREE
               (2%float, 1%float, 4%float) (0%float, 0%float, 0%float) None None)
  /\ App.coinOrder cs' = ["c3"; "merged-k3x9q0zr1"].
Proof.
  intros cs cs'.
  assert (Hwf : registry_wf cs).
  { apply sample_registry_wf. apply (bool_decide_unpack _). vm_compute. exact I. }
  split; [exact Hwf|].
  destruct (proj2 (combine_replaces_reactants_by_product
                     (Sample.rnd "k3x9q0zr1") "a1" "b2" TREE cs)
              Sample.seed Sample.water)
    as (_ & _ & Hnew & _ & Horder & _).
  - vm_compute. reflexivity.
  - vm_compute. reflexivity.
  - vm_compute. reflexivity.
  - split; [exact Hnew | exact Horder].
Defined.

(** The minted id is whatever the random digits make it: when they repeat an
    id in use, the coin stored under that id is overwritten and the id is
    listed twice. *)
Lemma combine_with_repeated_digits_clobbers :
  let old := Sample.coin "merged-k3x9q0zr1" OBSIDIAN (9%float, 1%float, 9%float) in
  let cs := Sample.registry [Sample.seed; Sample.water; old] in
  let cs' := App.handleCoinInteraction (Sample.rnd "k3x9q0zr1") "a1" "b2" TREE cs in
  registry_wf cs
  /\ App.coinMap cs !! "a1" = Some Sample.seed
  /\ App.coinMap cs !! "b2" = Some Sample.water
  /\ App.coinMap cs !! "merged-k3x9q0zr1" = Some old
  /\ App.coinOrder cs' = ["merged-k3x9q0zr1"; "merged-k3x9q0zr1"]
  /\ length (App.activeCoins cs') = 2%nat
  /\ ~ registry_wf cs'.
Proof.
  intros old cs cs'.
  split; [apply sample_registry_wf, (bool_decide_unpack _); vm_compute; exact I|].
  repeat (split; [vm_compute; reflexivity|]).
  intros [Hnd _]. vm_compute in Hnd.
  apply NoDup_cons in Hnd as [Hnotin _]. apply Hnotin. constructor.
Qed.

(** ** The registry invariant on sample runs *)

Lemma started_registry_wf : registry_wf (App.coinState Scenario.started).
Proof.
  apply registry_wf_run; [apply registry_wf_empty|].
  cbn [all_fresh]. split; [|split; [|exact I]].
  - split; [|exact I]. apply (bool_decide_unpack _). vm_compute. exact I.
  - split; [constructor|]. intros id Hid. inversion Hid.
Qed.

Lemma registry_operations_preserve_invariant_witness :
  let drop := Drop SEED (Sample.rnd "k3x9q0zr1") in
  registry_wf (App.coinState Scenario.started)
  /\ mints_fresh drop Scenario.started
  /\ registry_wf (App.coinState (handle drop Scenario.started)).
Proof.
  intros drop.
  assert (Hfresh : mints_fresh drop Scenario.started).
  { split; [apply NoDup_singleton|]. intros id Hid.
    apply list_elem_of_singleton in Hid. subst id. vm_compute. reflexivity. }
  split; [exact started_registry_wf|]. split; [exact Hfresh|].
  exact (registry_operations_preserve_invariant drop Scenario.started
           started_registry_wf Hfresh).
Defined.

(** The registry operations themselves do not check that a minted id is
    unused: a drop whose random digits repeat the id of a coin on the bed
    lists that id twice. *)
Lemma drop_with_repeated_digits_breaks_invariant :
  let drop := Drop SEED (Sample.rnd "k3x9q0zr1") in
  let a := handle drop Scenario.started in
  registry_wf (App.coinState a)
  /\ ~ registry_wf (App.coinState (handle drop a)).
Proof.
  intros drop a. split.
  - apply handle_registry_wf; [exact started_registry_wf|].
    split; [apply NoDup_singleton|]. intros id Hid.
    apply list_elem_of_singleton in Hid. subst id. vm_compute. reflexivity.
  - intros [Hnd _]. revert Hnd. apply (bool_decide_unpack _).
    vm_compute. exact I.
Qed.

(** ** Events that name an absent id *)

(** X1.  The four scene callbacks and the registry part of a collection
    leave the registry alone when the id they name is absent. *)
Lemma absent_id_registry_untouched (r : Rnd) (id other : string)
    (position : Vector3.t) (resultType : CoinType) (cs : App.CoinState) :
  App.coinMap cs !! id = None ->
  App.handleCoinInteraction r id other resultType cs = cs
  /\ App.handleCoinInteraction r other id resultType cs = cs
  /\ App.handleSplit r id position cs = cs
  /\ App.handleTransmute id cs = cs
  /\ App.handleExplode id cs = cs
  /\ App.collectUpdater id cs = cs.
Proof.
  intros H. repeat split.
  - apply handleCoinInteraction_absent. left. exact H.
  - apply handleCoinInteraction_absent. right. exact H.
  - unfold App.handleSplit. rewrite H. reflexivity.
  - unfold App.handleTransmute. rewrite H. reflexivity.
  - unfold App.handleExplode. rewrite H. reflexivity.
  - unfold App.collectUpdater. rewrite H. reflexivity.
Qed.

(** A scene callback never touches the economy. *)
Lemma onCallback_economy (r : Rnd) (c : Coins.Callback) (a : App.t) :
  App.gameState (App.onCallback r c a) = App.gameState a.
Proof. reflexivity. Qed.

Lemma absent_id_registry_untouched_witness :
  let cs := Sample.registry [Sample.seed; Sample.chip] in
  let r := Sample.rnd "k3x9q0zr1" in
  let position := Vector3.mk 0%float 1%float 0%float in
  App.coinMap cs !! "b2" = None
  /\ App.handleCoinInteraction r "a1" "b2" TREE cs = cs
  /\ App.handleSplit r "b2" position cs = cs
  /\ App.handleTransmute "b2" cs = cs
  /\ App.handleExplode "b2" cs = cs.
Proof.
  intros cs r position.
  assert (H : App.coinMap cs !! "b2" = None) by (vm_compute; reflexivity).
  split; [exact H|].
  destruct (absent_id_registry_untouched r "b2" "a1" position TREE cs H)
    as (_ & H2 & H3 & H4 & H5 & _).
  auto.
Defined.

(** Two collections that arrive before the next render read the same
    rendered copy of the state: cash and score are credited twice, the bonus
    meter moves once. *)
Lemma collections_between_renders_share_the_meter :
  let a := run [Collected "start-0" STANDARD; Collected "start-1" STANDARD]
               Scenario.started in
  GameState.cash (App.gameState a) = 120%Z
  /\ GameState.score (App.gameState a) = 200%Z
  /\ GameState.bonus (App.gameState a) = 4%Q.
Proof. vm_compute. repeat split. Qed.

(** C4.  The collection handler is not a no-op on an absent id.  A game has
    just started and the coin "start-0" is collected; the same collection
    event arrives a second time.  The id is no longer in the registry and
    the registry is left alone, but cash, score and the bonus meter are
    credited again. *)
Theorem duplicate_collection_is_paid_again :
  let a := run [Collected "start-0" STANDARD; Render] Scenario.started in
  let a' := App.handleCoinCollected "start-0" STANDARD a in
  App.coinMap (App.coinState a) !! "start-0" = None
  /\ App.coinState a' = App.coinState a
  /\ (GameState.cash (App.gameState a) = 110%Z
      /\ GameState.cash (App.gameState a') = 120%Z)
  /\ (GameState.score (App.gameState a) = 100%Z
      /\ GameState.score (App.gameState a') = 200%Z)
  /\ (GameState.bonus (App.gameState a) = 4%Q
      /\ GameState.bonus (App.gameState a') = 8%Q).
Proof. vm_compute. repeat split. Qed.

(** ** The explosion resolver *)

(** C5.  The resolver only skips the detonating body itself.  A second body
    whose translation equals the bomb's is at distance 0, passes the radius
    test, and its direction is computed by dividing by that distance: the
    impulse applied to it is NaN in every component. *)
Theorem explosion_divides_by_zero_distance :
  let e := Coins.handleCollision [Blast.bomb; Blast.twin] Blast.impact
             Blast.bombCoin (Coins.mkEnv Coins.noPending []) in
  RapierRigidBody.handle Blast.twin <> RapierRigidBody.handle Blast.bomb
  /\ Coins.distance (RapierRigidBody.translation Blast.bomb)
                    (RapierRigidBody.translation Blast.twin) = 0%float
  /\ Coins.explosionImpulse Blast.bomb Blast.twin
     = Some (2%Z, Vector3.mk nan nan nan)
  /\ Coins.impulses e = [(2%Z, Vector3.mk nan nan nan)]
  /\ Coins.explosions (Coins.pending e) = ["b7"].
Proof.
  cbn zeta. split; [discriminate|]. repeat split; vm_compute; reflexivity.
Qed.

(** ** Splitting *)

Lemma handleSplit_spent_id (r : Rnd) (id : string) (position : Vector3.t)
    (cs : App.CoinState) :
  spent id cs -> App.handleSplit r id position cs = cs.
Proof.
  unfold spent, App.handleSplit. destruct (App.coinMap cs !! id) as [c|]; [|reflexivity].
  intros ->. reflexivity.
Qed.

Lemma handleSplit_spends (r : Rnd) (id : string) (position : Vector3.t)
    (cs : App.CoinState) :
  spent id (App.handleSplit r id position cs).
Proof.
  unfold App.handleSplit.
  destruct (App.coinMap cs !! id) as [original|] eqn:Hid.
  - destruct (truthy_flag (CoinData.hasSplit original)) eqn:Hflag.
    + unfold spent. rewrite Hid. exact Hflag.
    + unfold spent. cbn [App.coinMap CoinData.id].
      destruct (decide (("clone-" ++ digits r)%string = id)) as [E | E].
      * rewrite E, lookup_insert_eq. reflexivity.
      * rewrite lookup_insert_ne by exact E. rewrite lookup_insert_eq. reflexivity.
  - unfold spent. rewrite Hid. exact I.
Qed.

Lemma handleSplit_order (r : Rnd) (id : string) (position : Vector3.t)
    (cs : App.CoinState) :
  App.coinOrder (App.handleSplit r id position cs) = App.coinOrder cs
  \/ App.coinOrder (App.handleSplit r id position cs)
     = App.coinOrder cs ++ [("clone-" ++ digits r)%string].
Proof.
  unfold App.handleSplit. destruct (App.coinMap cs !! id) as [c|]; [|left; reflexivity].
  destruct (truthy_flag (CoinData.hasSplit c)); [left | right]; reflexivity.
Qed.

(** Split events for one id: only the first can have an effect. *)
Lemma split_events_first_only (id : string)
    (events : list (Rnd * Vector3.t)) (cs : App.CoinState) :
  foldl (fun cs ev => App.handleSplit ev.1 id ev.2 cs) cs events
  = match events with
    | [] => cs
    | ev :: _ => App.handleSplit ev.1 id ev.2 cs
    end.
Proof.
  destruct events as [|ev events]; [reflexivity|]. cbn [foldl].
  generalize (handleSplit_spends ev.1 id ev.2 cs).
  generalize (App.handleSplit ev.1 id ev.2 cs). intros cs1 Hspent.
  induction events as [|ev' events IH]; [reflexivity|].
  cbn [foldl]. rewrite handleSplit_spent_id by exact Hspent. exact IH.
Qed.

(** The reducer, on contacts of a splitter. *)
Lemma handleCollision_splitter world (p : CollisionPayload.t) (coin : CoinData.t)
    (e : Coins.Env) :
  CoinData.type coin = SPLITTER ->
  Coins.handleCollision world p coin e = e
  \/ (truthy_flag (CoinData.hasSplit coin) = false
      /\ exists position,
           Coins.handleCollision world p coin e
           = Coins.with_pending (Coins.queueSplit (CoinData.id coin) position) e).
Proof.
  intros Hty. unfold Coins.handleCollision. rewrite Hty. cbn [negb].
  change (Coins.has Coins.activeCollisionCoinTypes SPLITTER) with true.
  change (Coins.has Coins.interactionCoinTypes SPLITTER) with false.
  cbn [negb orb].
  destruct (CollisionSide.rigidBodyObject (CollisionPayload.other p)) as [ob|];
    [|left; reflexivity].
  rewrite bool_decide_eq_false_2 by discriminate.
  cbn [mbind option_bind].
  unfold Coins.bombLogic, Coins.midasLogic, Coins.coinToCoin, Coins.splitterLogic.
  rewrite Hty.
  rewrite (bool_decide_eq_false_2 (SPLITTER = BOMB)) by discriminate.
  rewrite (bool_decide_eq_false_2 (SPLITTER = GOLD)) by discriminate.
  rewrite (bool_decide_eq_true_2 (SPLITTER = SPLITTER)) by reflexivity.
  destruct (truthy_flag (CoinData.hasSplit coin)) eqn:Hflag; [left; reflexivity|].
  cbn [negb andb].
  destruct (String.eqb (RigidBodyObject.name ob) "pusher"); [|left; reflexivity].
  destruct (CollisionPayload.solverContactPoint0 p) as [contact|];
    [|left; reflexivity].
  right. split; [reflexivity|]. eexists. reflexivity.
Qed.

(** What a tick of splitter contacts leaves in the queues: nothing, or one
    split event for the id. *)
Lemma reduce_splitter_contacts world (id : string) (contacts : list Contact)
    (e : Coins.Env) :
  splitter_contacts id contacts ->
  (e = Coins.mkEnv Coins.noPending []
   \/ exists position,
        e = Coins.mkEnv
              (Coins.mkPending [] [(id, Coins.mkSplit id position)] [] []) []) ->
  reduceContacts world contacts e = Coins.mkEnv Coins.noPending []
  \/ exists position,
       reduceContacts world contacts e
       = Coins.mkEnv
           (Coins.mkPending [] [(id, Coins.mkSplit id position)] [] []) [].
Proof.
  intros Hall. revert e. induction Hall as [|[p coin] contacts [Hty Hid] _ IH];
    intros e He; [exact He|].
  cbn [reduceContacts foldl fst snd] in *. apply IH. cbn [snd] in Hty, Hid.
  destruct (handleCollision_splitter world p coin e Hty) as [-> | (_ & pos & ->)];
    [exact He|].
  right. rewrite Hid. destruct He as [-> | (pos' & ->)].
  - exists pos. reflexivity.
  - exists pos. unfold Coins.with_pending, Coins.queueSplit.
    cbn [Coins.pending Coins.impulses Coins.interactions Coins.splits
         Coins.transmutations Coins.explosions Map_set].
    rewrite decide_True by reflexivity. reflexivity.
Qed.

Lemma tick_splitter_contacts world (rnd : nat -> Rnd) (id : string)
    (contacts : list Contact) (cs : App.CoinState) :
  splitter_contacts id contacts ->
  tick world rnd contacts cs = cs
  \/ exists position, tick world rnd contacts cs
                      = App.handleSplit (rnd 0%nat) id position cs.
Proof.
  intros Hall. unfold tick.
  destruct (reduce_splitter_contacts world id contacts
              (Coins.mkEnv Coins.noPending []) Hall) as [-> | (pos & ->)].
  - left. reflexivity.
  - left. reflexivity.
  - right. exists pos. reflexivity.
Qed.

Lemma runTicks_spent world (id : string)
    (ticks : list ((nat -> Rnd) * list Contact)) :
  Forall (fun t => splitter_contacts id t.2) ticks ->
  forall cs, spent id cs -> runTicks world ticks cs = cs.
Proof.
  intros Hall. induction Hall as [|t ticks Ht _ IH]; intros cs Hcs; [reflexivity|].
  unfold runTicks in *. cbn [foldl].
  destruct (tick_splitter_contacts world t.1 id t.2 cs Ht) as [-> | (pos & ->)].
  - apply IH, Hcs.
  - rewrite handleSplit_spent_id by exact Hcs. apply IH, Hcs.
Qed.

(** Any number of ticks of splitter contacts amounts to at most one split. *)
Lemma runTicks_splitter world (id : string)
    (ticks : list ((nat -> Rnd) * list Contact)) (cs : App.CoinState) :
  Forall (fun t => splitter_contacts id t.2) ticks ->
  runTicks world ticks cs = cs
  \/ exists r position, runTicks world ticks cs = App.handleSplit r id position cs.
Proof.
  intros Hall. revert cs.
  induction Hall as [|t ticks Ht Hall IH]; intros cs; [left; reflexivity|].
  unfold runTicks in *. cbn [foldl].
  destruct (tick_splitter_contacts world t.1 id t.2 cs Ht) as [-> | (pos & ->)].
  - apply IH.
  - right. exists (t.1 0%nat), pos.
    apply (runTicks_spent world id ticks Hall), handleSplit_spends.
Qed.

(** C6.  A splitter clones itself at most once.  For a registry [cs] and a
    splitter id:
    - a source whose [hasSplit] flag is true is left alone by a split event;
    - whatever the sequence of split events targeting the id, the registry
      ends as it was or as after a single split: at most one clone is
      inserted;
    - the same holds for any number of ticks of the scene in which the
      splitter touches the pusher any number of times, also when the coin
      the reducer sees is still the one rendered before the split;
    - the clone is created with [hasSplit] true, and a split event
      targeting the clone does nothing. *)
Theorem splitter_clones_at_most_once
    (world : list RapierRigidBody.t) (id : string) (cs : App.CoinState)
    (events : list (Rnd * Vector3.t))
    (ticks : list ((nat -> Rnd) * list Contact)) :
  Forall (fun t => splitter_contacts id t.2) ticks ->
  let after_events :=
    foldl (fun cs ev => App.handleSplit ev.1 id ev.2 cs) cs events in
  let after_ticks := runTicks world ticks cs in
  (forall c r position,
     App.coinMap cs !! id = Some c ->
     truthy_flag (CoinData.hasSplit c) = true ->
     App.handleSplit r id position cs = cs)
  /\ (after_events = cs
      \/ exists r position, after_events = App.handleSplit r id position cs)
  /\ (length (App.coinOrder after_events) <= S (length (App.coinOrder cs)))%nat
  /\ (after_ticks = cs
      \/ exists r position, after_ticks = App.handleSplit r id position cs)
  /\ (length (App.coinOrder after_ticks) <= S (length (App.coinOrder cs)))%nat
  /\ (forall c r position,
        App.coinMap cs !! id = Some c ->
        truthy_flag (CoinData.hasSplit c) = false ->
        let cs1 := App.handleSplit r id position cs in
        let cloneId := ("clone-" ++ digits r)%string in
        (exists clone,
           App.coinMap cs1 !! cloneId = Some clone
           /\ CoinData.id clone = cloneId
           /\ CoinData.type clone = SPLITTER
           /\ CoinData.hasSplit clone = Some true)
        /\ App.coinOrder cs1 = App.coinOrder cs ++ [cloneId]
        /\ (forall r' position', App.handleSplit r' cloneId position' cs1 = cs1)).
Proof.
  intros Hticks after_events after_ticks.
  assert (Hlen : forall r position,
            (length (App.coinOrder (App.handleSplit r id position cs))
             <= S (length (App.coinOrder cs)))%nat).
  { intros r position.
    destruct (handleSplit_order r id position cs) as [-> | ->]; [lia|].
    rewrite length_app. cbn. lia. }
  assert (Hev : after_events = cs
                \/ exists r position, after_events = App.handleSplit r id position cs).
  { subst after_events. rewrite split_events_first_only.
    destruct events as [|ev events]; [left; reflexivity|]. right. eauto. }
  assert (Htk : after_ticks = cs
                \/ exists r position, after_ticks = App.handleSplit r id position cs).
  { apply runTicks_splitter, Hticks. }
  split; [|split; [exact Hev|split; [|split; [exact Htk|split]]]].
  - intros c r position Hc Hflag. apply handleSplit_spent_id.
    unfold spent. rewrite Hc. exact Hflag.
  - destruct Hev as [-> | (r & position & ->)]; [lia | apply Hlen].
  - destruct Htk as [-> | (r & position & ->)]; [lia | apply Hlen].
  - intros c r position Hc Hflag cs1 cloneId.
    assert (Hclone : App.coinMap cs1 !! cloneId
              = Some (CoinData.mk cloneId SPLITTER
                        (Vector3.x position, (Vector3.y position + 1)%float,
                         Vector3.z position)
                        (0%float, angle r, 0%float) (Some true) None)).
    { subst cs1. unfold App.handleSplit. rewrite Hc, Hflag.
      cbn [App.coinMap CoinData.id]. apply lookup_insert_eq. }
    split; [eexists; split; [exact Hclone|]; repeat split|]. split.
    + subst cs1. unfold App.handleSplit. rewrite Hc, Hflag. reflexivity.
    + intros r' position'. apply handleSplit_spent_id.
      unfold spent. rewrite Hclone. reflexivity.
Qed.

Lemma splitter_clones_at_most_once_witness :
  Forall (fun t => splitter_contacts "s4" t.2) Pusher.ticks
  /\ (length (App.coinOrder (runTicks [] Pusher.ticks Pusher.bed)) <= 3)%nat
  /\ App.coinOrder (runTicks [] Pusher.ticks Pusher.bed) = ["s4"; "c3"; "clone-0"].
Proof.
  assert (H : Forall (fun t => splitter_contacts "s4" t.2) Pusher.ticks).
  { unfold Pusher.ticks, splitter_contacts. repeat constructor. }
  split; [exact H|]. split.
  - exact (proj1 (proj2 (proj2 (proj2 (proj2
             (splitter_clones_at_most_once [] "s4" Pusher.bed [] Pusher.ticks H)))))).
  - vm_compute. reflexivity.
Defined.

(** * Further properties of the code *)

(** ** The queues of the reducer *)

Lemma Map_set_keys {V : Type} (k : string) (v : V) (m : list (string * V)) :
  ((k ∈ map fst m) /\ map fst (Map_set k v m) = map fst m)
  \/ ((k ∉ map fst m) /\ map fst (Map_set k v m) = map fst m ++ [k]).
Proof.
  induction m as [|[k' v'] m IH]; cbn.
  - right. split; [apply not_elem_of_nil | reflexivity].
  - destruct (decide (k' = k)) as [-> | Hne]; cbn.
    + left. split; [apply elem_of_cons; auto | reflexivity].
    + destruct IH as [[Hin ->] | [Hnot ->]].
      * left. split; [apply elem_of_cons; auto | reflexivity].
      * right. split; [|reflexivity].
        intros H. apply elem_of_cons in H as [-> | H]; [apply Hne; reflexivity | auto].
Qed.

Lemma Map_set_length {V : Type} (k : string) (v : V) (m : list (string * V)) :
  (length m <= length (Map_set k v m) <= S (length m))%nat.
Proof.
  destruct (Map_set_keys k v m) as [[_ H] | [_ H]];
    apply (f_equal (@length _)) in H; rewrite !length_map in H.
  - lia.
  - rewrite length_app, length_map in H. cbn in H. lia.
Qed.

Lemma Map_set_NoDup {V : Type} (k : string) (v : V) (m : list (string * V)) :
  NoDup (map fst m) -> NoDup (map fst (Map_set k v m)).
Proof.
  intros Hnd. destruct (Map_set_keys k v m) as [[_ ->] | [Hnot ->]]; [exact Hnd|].
  apply NoDup_app. split; [exact Hnd|]. split; [|apply NoDup_singleton].
  intros x Hx Hx'. apply list_elem_of_singleton in Hx'. subst x. contradiction.
Qed.

Lemma Set_add_length (k : string) (s : list string) :
  (length s <= length (Set_add k s) <= S (length s))%nat.
Proof.
  unfold Set_add. destruct (decide (k ∈ s)); [lia|].
  rewrite length_app. cbn. lia.
Qed.

Lemma Set_add_NoDup (k : string) (s : list string) :
  NoDup s -> NoDup (Set_add k s).
Proof.
  intros Hnd. unfold Set_add. destruct (decide (k ∈ s)) as [|Hnot]; [exact Hnd|].
  apply NoDup_app. split; [exact Hnd|]. split; [|apply NoDup_singleton].
  intros x Hx Hx'. apply list_elem_of_singleton in Hx'. subst x. contradiction.
Qed.

Lemma queue_step_refl (p : Coins.PendingEvents) : queue_step p p.
Proof. split; [auto | lia]. Qed.

Lemma queueInteraction_step (id1 id2 : string) (r : CoinType)
    (p : Coins.PendingEvents) :
  queue_step p (Coins.queueInteraction id1 id2 r p).
Proof.
  unfold queue_step, deduplicated, queued, Coins.queueInteraction. cbn. split.
  - intros (H1 & H2 & H3 & H4). repeat split; try assumption.
    apply Map_set_NoDup, H1.
  - pose proof (Map_set_length (Coins.interactionKey id1 id2 r)
                  (Coins.mkInteraction id1 id2 r) (Coins.interactions p)). lia.
Qed.

Lemma queueSplit_step (id : string) (position : Vector3.t)
    (p : Coins.PendingEvents) :
  queue_step p (Coins.queueSplit id position p).
Proof.
  unfold queue_step, deduplicated, queued, Coins.queueSplit. cbn. split.
  - intros (H1 & H2 & H3 & H4). repeat split; try assumption.
    apply Map_set_NoDup, H2.
  - pose proof (Map_set_length id (Coins.mkSplit id position) (Coins.splits p)). lia.
Qed.

Lemma queueTransmute_step (id : string) (p : Coins.PendingEvents) :
  queue_step p (Coins.queueTransmute id p).
Proof.
  unfold queue_step, deduplicated, queued, Coins.queueTransmute. cbn. split.
  - intros (H1 & H2 & H3 & H4). repeat split; try assumption.
    apply Set_add_NoDup, H3.
  - pose proof (Set_add_length id (Coins.transmutations p)). lia.
Qed.

Lemma queueExplosion_step (id : string) (p : Coins.PendingEvents) :
  queue_step p (Coins.queueExplosion id p).
Proof.
  unfold queue_step, deduplicated, queued, Coins.queueExplosion. cbn. split.
  - intros (H1 & H2 & H3 & H4). repeat split; try assumption.
    apply Set_add_NoDup, H4.
  - pose proof (Set_add_length id (Coins.explosions p)). lia.
Qed.

(** What each section of one collision callback can do. *)
Lemma coinToCoin_cases (coin : CoinData.t) (oi : option string)
    (ot : option CoinType) (e : Coins.Env) :
  (Coins.has Coins.interactionCoinTypes (CoinData.type coin) = false ->
   Coins.coinToCoin coin oi ot e = e)
  /\ (Coins.coinToCoin coin oi ot e = e
      \/ exists id2 r, Coins.coinToCoin coin oi ot e
                       = Coins.with_pending
                           (Coins.queueInteraction (CoinData.id coin) id2 r) e).
Proof.
  unfold Coins.coinToCoin. destruct oi as [oid|], ot as [oty|]; try (split; auto).
  - intros ->. rewrite andb_false_r. reflexivity.
  - destruct (truthy_str (Some oid) && _); [|left; reflexivity].
    destruct (Coins.lookupResult _ oty) as [r|]; [|left; reflexivity].
    destruct (String.ltb _ oid); [right; eauto | left; reflexivity].
Qed.

Lemma splitterLogic_cases (p : CollisionPayload.t) (coin : CoinData.t)
    (ob : RigidBodyObject.t) (e : Coins.Env) :
  (CoinData.type coin <> SPLITTER -> Coins.splitterLogic p coin ob e = e)
  /\ (Coins.splitterLogic p coin ob e = e
      \/ exists position, Coins.splitterLogic p coin ob e
                          = Coins.with_pending
                              (Coins.queueSplit (CoinData.id coin) position) e).
Proof.
  unfold Coins.splitterLogic. split.
  - intros H. rewrite bool_decide_eq_false_2 by exact H. reflexivity.
  - destruct (_ && _); [|left; reflexivity].
    destruct (String.eqb _ _); [|left; reflexivity].
    destruct (CollisionPayload.solverContactPoint0 p); [right; eauto | left; reflexivity].
Qed.

Lemma midasLogic_cases (coin : CoinData.t) (oi : option string)
    (ot : option CoinType) (e : Coins.Env) :
  (CoinData.type coin <> GOLD -> Coins.midasLogic coin oi ot e = e)
  /\ (Coins.midasLogic coin oi ot e = e
      \/ exists targetId, Coins.midasLogic coin oi ot e
                          = Coins.with_pending (Coins.queueTransmute targetId) e).
Proof.
  unfold Coins.midasLogic. split.
  - intros H. rewrite bool_decide_eq_false_2 by exact H. reflexivity.
  - destruct (bool_decide _); [|left; reflexivity].
    destruct oi as [oid|]; [|left; reflexivity].
    destruct (_ && _); [right; eauto | left; reflexivity].
Qed.

Lemma bombLogic_cases world (p : CollisionPayload.t) (coin : CoinData.t)
    (e : Coins.Env) :
  (CoinData.type coin <> BOMB -> Coins.bombLogic world p coin e = e)
  /\ (Coins.bombLogic world p coin e = e
      \/ exists body, Coins.bombLogic world p coin e
                      = Coins.triggerExplosion world (CoinData.id coin)
                          (Some body) e).
Proof.
  unfold Coins.bombLogic. split.
  - intros H. rewrite bool_decide_eq_false_2 by exact H. reflexivity.
  - destruct (bool_decide _); [|left; reflexivity].
    destruct (CollisionSide.rigidBody (CollisionPayload.target p)) as [sb|];
      [|left; reflexivity].
    destruct (PrimFloat.ltb _ _); [right; eauto | left; reflexivity].
Qed.

(** What one collision callback can do to the reducer's state. *)
Lemma handleCollision_cases world (p : CollisionPayload.t) (coin : CoinData.t)
    (e : Coins.Env) :
  let e' := Coins.handleCollision world p coin e in
  e' = e
  \/ (exists id2 r, e' = Coins.with_pending
                          (Coins.queueInteraction (CoinData.id coin) id2 r) e)
  \/ (exists position, e' = Coins.with_pending
                              (Coins.queueSplit (CoinData.id coin) position) e)
  \/ (exists targetId, e' = Coins.with_pending (Coins.queueTransmute targetId) e)
  \/ (CoinData.type coin = BOMB
      /\ exists body, e' = Coins.triggerExplosion world (CoinData.id coin)
                             (Some body) e).
Proof.
  cbn zeta. unfold Coins.handleCollision.
  destruct (negb _); [left; reflexivity|].
  destruct (CollisionSide.rigidBodyObject (CollisionPayload.other p)) as [ob|];
    [|left; reflexivity].
  set (oi := _ ≫= UserData.coinId). set (ot := _ ≫= UserData.coinType).
  destruct (coinToCoin_cases coin oi ot e) as [Hc0 Hc].
  destruct (decide (CoinData.type coin = BOMB)) as [Hb | Hb].
  - rewrite Hc0 by (rewrite Hb; reflexivity).
    rewrite (proj1 (splitterLogic_cases p coin ob e)) by (rewrite Hb; discriminate).
    rewrite (proj1 (midasLogic_cases coin oi ot e)) by (rewrite Hb; discriminate).
    destruct (proj2 (bombLogic_cases world p coin e)) as [-> | H]; [left; reflexivity|].
    right; right; right; right. split; [exact Hb | exact H].
  - rewrite (proj1 (bombLogic_cases world p coin _)) by exact Hb.
    destruct (decide (CoinData.type coin = GOLD)) as [Hg | Hg].
    + rewrite Hc0 by (rewrite Hg; reflexivity).
      rewrite (proj1 (splitterLogic_cases p coin ob e)) by (rewrite Hg; discriminate).
      destruct (proj2 (midasLogic_cases coin oi ot e)) as [-> | H]; [left; reflexivity|].
      right; right; right; left. exact H.
    + rewrite (proj1 (midasLogic_cases coin oi ot _)) by exact Hg.
      destruct (decide (CoinData.type coin = SPLITTER)) as [Hs | Hs].
      * rewrite Hc0 by (rewrite Hs; reflexivity).
        destruct (proj2 (splitterLogic_cases p coin ob e)) as [-> | H];
          [left; reflexivity|].
        right; right; left. exact H.
      * rewrite (proj1 (splitterLogic_cases p coin ob _)) by exact Hs.
        destruct Hc as [-> | H]; [left; reflexivity|]. right; left. exact H.
Qed.

Lemma handleCollision_queue_step world (p : CollisionPayload.t)
    (coin : CoinData.t) (e : Coins.Env) :
  queue_step (Coins.pending e)
             (Coins.pending (Coins.handleCollision world p coin e)).
Proof.
  destruct (handleCollision_cases world p coin e)
    as [-> | [(id2 & r & ->) | [(pos & ->) | [(t & ->) | (_ & body & ->)]]]].
  - apply queue_step_refl.
  - apply queueInteraction_step.
  - apply queueSplit_step.
  - apply queueTransmute_step.
  - apply queueExplosion_step.
Qed.

Lemma Map_set_prefix {V : Type} (k : string) (v : V) (m : list (string * V)) :
  map fst m `prefix_of` map fst (Map_set k v m).
Proof.
  destruct (Map_set_keys k v m) as [[_ ->] | [_ ->]];
    [reflexivity | apply prefix_app_r; reflexivity].
Qed.

Lemma Set_add_prefix (k : string) (s : list string) : s `prefix_of` Set_add k s.
Proof.
  unfold Set_add. destruct (decide (k ∈ s));
    [reflexivity | apply prefix_app_r; reflexivity].
Qed.

Lemma queues_kept_refl (p : Coins.PendingEvents) : queues_kept p p.
Proof. repeat split; reflexivity. Qed.

Lemma handleCollision_queues_kept world (p : CollisionPayload.t)
    (coin : CoinData.t) (e : Coins.Env) :
  queues_kept (Coins.pending e)
              (Coins.pending (Coins.handleCollision world p coin e)).
Proof.
  destruct (handleCollision_cases world p coin e)
    as [-> | [(id2 & r & ->) | [(pos & ->) | [(t & ->) | (_ & body & ->)]]]].
  - apply queues_kept_refl.
  - split; [apply Map_set_prefix|]. repeat split; reflexivity.
  - split; [reflexivity|]. split; [apply Map_set_prefix|]. split; reflexivity.
  - split; [reflexivity|]. split; [reflexivity|].
    split; [apply Set_add_prefix | reflexivity].
  - split; [reflexivity|]. split; [reflexivity|].
    split; [reflexivity | apply Set_add_prefix].
Qed.

(** X3.  One collision callback queues at most one event.  No queue
    shrinks: each of the four queues keeps the keys it had, in their order,
    and does not get shorter; the four queues together grow by at most one
    entry; and a queue without repeated keys stays so.  Only a bomb applies
    impulses, and a coin whose type takes no part in collisions (standard,
    heavy, tree, obsidian, diamond) changes nothing at all. *)
Theorem collision_callback_queues_at_most_one
    (world : list RapierRigidBody.t) (p : CollisionPayload.t)
    (coin : CoinData.t) (e : Coins.Env) :
  let e' := Coins.handleCollision world p coin e in
  queues_kept (Coins.pending e) (Coins.pending e')
  /\ ((length (Coins.interactions (Coins.pending e))
       <= length (Coins.interactions (Coins.pending e')))%nat
      /\ (length (Coins.splits (Coins.pending e))
          <= length (Coins.splits (Coins.pending e')))%nat
      /\ (length (Coins.transmutations (Coins.pending e))
          <= length (Coins.transmutations (Coins.pending e')))%nat
      /\ (length (Coins.explosions (Coins.pending e))
          <= length (Coins.explosions (Coins.pending e')))%nat)
  /\ queue_step (Coins.pending e) (Coins.pending e')
  /\ (CoinData.type coin <> BOMB -> Coins.impulses e' = Coins.impulses e)
  /\ (CoinData.type coin ∈ [STANDARD; HEAVY; TREE; OBSIDIAN; DIAMOND] -> e' = e).
Proof.
  cbn zeta.
  pose proof (handleCollision_queues_kept world p coin e) as Hk.
  split; [exact Hk|]. split.
  { destruct Hk as (H1 & H2 & H3 & H4).
    apply prefix_length in H1, H2, H3, H4. rewrite !length_map in H1, H2.
    auto. }
  split; [apply handleCollision_queue_step|]. split.
  - intros Hb.
    destruct (handleCollision_cases world p coin e)
      as [-> | [(id2 & r & ->) | [(pos & ->) | [(t & ->) | (Hty & _)]]]];
      try reflexivity.
    contradiction.
  - intros Hin. unfold Coins.handleCollision.
    replace (Coins.has Coins.activeCollisionCoinTypes (CoinData.type coin))
      with false; [reflexivity|].
    repeat (apply elem_of_cons in Hin as [-> | Hin]; [reflexivity|]).
    inversion Hin.
Qed.

(** X4.  Whatever the collision callbacks of a tick, when the frame
    callback runs no queue holds a key twice, and there are at most as many
    queued events as there were callbacks. *)
Theorem tick_queues_are_deduplicated
    (world : list RapierRigidBody.t) (contacts : list Contact) :
  let p := Coins.pending
             (reduceContacts world contacts (Coins.mkEnv Coins.noPending [])) in
  deduplicated p /\ (queued p <= length contacts)%nat.
Proof.
  cbn zeta.
  assert (H : forall e,
            (deduplicated (Coins.pending e) ->
             deduplicated (Coins.pending (reduceContacts world contacts e)))
            /\ (queued (Coins.pending (reduceContacts world contacts e))
                <= queued (Coins.pending e) + length contacts)%nat).
  { induction contacts as [|[p coin] contacts IH]; intros e.
    - split; [auto | cbn; lia].
    - unfold reduceContacts in *. cbn [foldl fst snd length].
      destruct (handleCollision_queue_step world p coin e) as (Hd & _ & Hq).
      destruct (IH (Coins.handleCollision world p coin e)) as [IHd IHq].
      split; [auto | lia]. }
  destruct (H (Coins.mkEnv Coins.noPending [])) as [Hd Hq]. split.
  - apply Hd. repeat split; constructor.
  - exact Hq.
Qed.

Lemma explosionImpulse_handle (body ob : RapierRigidBody.t) (hi : Z * Vector3.t) :
  Coins.explosionImpulse body ob = Some hi ->
  hi.1 = RapierRigidBody.handle ob
  /\ RapierRigidBody.handle ob <> RapierRigidBody.handle body.
Proof.
  unfold Coins.explosionImpulse.
  destruct (decide _) as [|Hne]; [discriminate|].
  destruct (PrimFloat.ltb _ _); [|discriminate].
  intros H. injection H as <-. auto.
Qed.

(** X5.  An explosion queues the bomb for removal and applies at most one
    impulse to each body of the world, in the order of the world, and never
    one to the bomb itself. *)
Theorem explosion_spares_the_bomb
    (world : list RapierRigidBody.t) (id : string) (body : RapierRigidBody.t)
    (e : Coins.Env) :
  let e' := Coins.triggerExplosion world id (Some body) e in
  id ∈ Coins.explosions (Coins.pending e')
  /\ exists blast,
       Coins.impulses e' = Coins.impulses e ++ blast
       /\ sublist (map fst blast) (map RapierRigidBody.handle world)
       /\ RapierRigidBody.handle body ∉ map fst blast.
Proof.
  cbn zeta. split.
  - cbn. unfold Set_add. destruct (decide _) as [H|_]; [exact H|].
    apply elem_of_app. right. apply list_elem_of_singleton. reflexivity.
  - exists (omap (Coins.explosionImpulse body) world).
    split; [reflexivity|]. split.
    + induction world as [|ob world IH]; [constructor|].
      cbn. destruct (Coins.explosionImpulse body ob) as [hi|] eqn:Hhi.
      * apply explosionImpulse_handle in Hhi as [<- _]. cbn.
        apply sublist_skip, IH.
      * apply sublist_cons, IH.
    + induction world as [|ob world IH]; [apply not_elem_of_nil|].
      cbn. destruct (Coins.explosionImpulse body ob) as [hi|] eqn:Hhi; [|exact IH].
      apply explosionImpulse_handle in Hhi as [Hh Hne]. cbn.
      intros H. apply elem_of_cons in H as [H | H]; [congruence | auto].
Qed.

(** ** From contact to registry within one tick *)

(** The reducer on the callbacks of a reactive pair (any order, any number,
    both sides present). *)
Lemma reduce_reactive_pair world (a b : CoinData.t) (r : CoinType)
    (pa pb : CollisionPayload.t) (sides : list bool) :
  CoinData.id a <> CoinData.id b ->
  Coins.lookupResult (CoinData.type a) (CoinData.type b) = Some r ->
  CollisionSide.rigidBodyObject (CollisionPayload.other pa)
    = Some (Coins.coinBodyObject b) ->
  CollisionSide.rigidBodyObject (CollisionPayload.other pb)
    = Some (Coins.coinBodyObject a) ->
  true ∈ sides -> false ∈ sides ->
  let a_first := String.ltb (CoinData.id a) (CoinData.id b) in
  let id1 := if a_first then CoinData.id a else CoinData.id b in
  let id2 := if a_first then CoinData.id b else CoinData.id a in
  reduceContacts world
    (map (fun s : bool => if s then (pa, a) else (pb, b)) sides)
    (Coins.mkEnv Coins.noPending [])
  = Coins.mkEnv
      (Coins.mkPending
         [(Coins.interactionKey id1 id2 r, Coins.mkInteraction id1 id2 r)]
         [] [] [])
      [].
Proof.
  intros Hne Hr Hpa Hpb Ht Hf a_first id1 id2.
  destruct (lookupResult_symmetric _ _ _ Hr) as (Hr' & _ & _).
  pose (f := fun (s : bool) (e : Coins.Env) =>
               if s then Coins.handleCollision world pa a e
               else Coins.handleCollision world pb b e).
  assert (Hfold : forall l e,
            reduceContacts world
              (map (fun s : bool => if s then (pa, a) else (pb, b)) l) e
            = foldl (fun e s => f s e) e l).
  { unfold reduceContacts. induction l as [|s l IH]; intros e; [reflexivity|].
    cbn. rewrite IH. destruct s; reflexivity. }
  rewrite Hfold.
  pose proof (ltb_antisym _ _ Hne) as Hanti. fold a_first in Hanti.
  assert (Hstep : forall s e,
            f s e = if Bool.eqb s a_first
                    then Coins.with_pending (Coins.queueInteraction id1 id2 r) e
                    else e).
  { intros s e. unfold f. destruct s.
    - rewrite (handleCollision_reactive_pair world pa a b r e Hr Hpa).
      fold a_first. subst id1 id2. destruct a_first; reflexivity.
    - rewrite (handleCollision_reactive_pair world pb b a r e Hr' Hpb).
      rewrite Hanti. subst id1 id2. destruct a_first; reflexivity. }
  apply (foldl_one_sided f a_first).
  - intros e. rewrite Hstep. destruct a_first; reflexivity.
  - rewrite Hstep, Bool.eqb_reflx. reflexivity.
  - rewrite Hstep, Bool.eqb_reflx. unfold Coins.with_pending, Coins.queueInteraction.
    cbn [Coins.pending Coins.impulses Coins.interactions Coins.splits
         Coins.transmutations Coins.explosions].
    rewrite Map_set_same. reflexivity.
  - destruct a_first; assumption.
Qed.

(** X6.  Two coins of a reactive pair that are in the registry, and whose
    collision is reported from both sides during a tick (in any order, any
    number of times): at the end of the tick the registry holds neither of
    them, and holds one coin of the product type at the midpoint of their
    positions, listed last; the minted id is supposed not to be in use. *)
Theorem reactive_pair_merges_within_the_tick
    (world : list RapierRigidBody.t) (rnd : nat -> Rnd)
    (a b : CoinData.t) (r : CoinType) (pa pb : CollisionPayload.t)
    (sides : list bool) (cs : App.CoinState) :
  CoinData.id a <> CoinData.id b ->
  Coins.lookupResult (CoinData.type a) (CoinData.type b) = Some r ->
  CollisionSide.rigidBodyObject (CollisionPayload.other pa)
    = Some (Coins.coinBodyObject b) ->
  CollisionSide.rigidBodyObject (CollisionPayload.other pb)
    = Some (Coins.coinBodyObject a) ->
  true ∈ sides -> false ∈ sides ->
  App.coinMap cs !! CoinData.id a = Some a ->
  App.coinMap cs !! CoinData.id b = Some b ->
  App.coinMap cs !! ("merged-" ++ digits (rnd 0%nat))%string = None ->
  let cs' := tick world rnd
               (map (fun s : bool => if s then (pa, a) else (pb, b)) sides) cs in
  let newId := ("merged-" ++ digits (rnd 0%nat))%string in
  let first := if String.ltb (CoinData.id a) (CoinData.id b) then a else b in
  let second := if String.ltb (CoinData.id a) (CoinData.id b) then b else a in
  App.coinMap cs' !! CoinData.id a = None
  /\ App.coinMap cs' !! CoinData.id b = None
  /\ App.coinMap cs' !! newId
     = Some (CoinData.mk newId r
               (App.midpoint (CoinData.position first) (CoinData.position second))
               (0%float, 0%float, 0%float) None None)
  /\ App.coinOrder cs'
     = filter (fun k => k <> CoinData.id a /\ k <> CoinData.id b) (App.coinOrder cs)
       ++ [newId].
Proof.
  intros Hne Hr Hpa Hpb Ht Hf Ha Hb Hfresh cs' newId first second.
  assert (Hna : newId <> CoinData.id a)
    by (intros E; unfold newId in E; rewrite E in Hfresh; congruence).
  assert (Hnb : newId <> CoinData.id b)
    by (intros E; unfold newId in E; rewrite E in Hfresh; congruence).
  subst cs'. unfold tick.
  rewrite (reduce_reactive_pair world a b r pa pb sides Hne Hr Hpa Hpb Ht Hf).
  cbn [Coins.useFrame Coins.pending Coins.interactions Coins.splits
       Coins.transmutations Coins.explosions map app fst snd applyCallbacks
       App.callbackUpdater Coins.id1 Coins.id2 Coins.result].
  subst first second. unfold App.handleCoinInteraction.
  destruct (String.ltb (CoinData.id a) (CoinData.id b));
    rewrite Ha, Hb; cbn [App.coinMap App.coinOrder CoinData.id]; fold newId.
  - repeat split.
    + rewrite lookup_insert_ne by exact Hna.
      rewrite lookup_delete_ne by (intros E; apply Hne; symmetry; exact E).
      apply lookup_delete_eq.
    + rewrite lookup_insert_ne by exact Hnb. apply lookup_delete_eq.
    + apply lookup_insert_eq.
  - repeat split.
    + rewrite lookup_insert_ne by exact Hna. apply lookup_delete_eq.
    + rewrite lookup_insert_ne by exact Hnb.
      rewrite lookup_delete_ne by exact Hne. apply lookup_delete_eq.
    + apply lookup_insert_eq.
    + f_equal. apply list_filter_iff. intros k. tauto.
Qed.

Lemma reactive_pair_merges_within_the_tick_witness :
  let cs := Sample.registry [Sample.seed; Sample.water; Sample.chip] in
  let cs' := tick [] Sample.draw
               [ (Sample.hits Sample.water, Sample.seed);
                 (Sample.hits Sample.seed, Sample.water) ] cs in
  App.coinMap cs !! "a1" = Some Sample.seed
  /\ App.coinMap cs !! "b2" = Some Sample.water
  /\ App.coinMap cs' !! "a1" = None
  /\ App.coinMap cs' !! "b2" = None
  /\ App.coinOrder cs' = ["c3"; "merged-0"].
Proof.
  intros cs cs'.
  assert (Ha : App.coinMap cs !! "a1" = Some Sample.seed) by (vm_compute; reflexivity).
  assert (Hb : App.coinMap cs !! "b2" = Some Sample.water) by (vm_compute; reflexivity).
  split; [exact Ha|]. split; [exact Hb|].
  destruct (reactive_pair_merges_within_the_tick [] Sample.draw
              Sample.seed Sample.water TREE
              (Sample.hits Sample.water) (Sample.hits Sample.seed)
              [true; false] cs) as (H1 & H2 & _ & H4).
  - discriminate.
  - reflexivity.
  - reflexivity.
  - reflexivity.
  - apply elem_of_cons. left. reflexivity.
  - apply elem_of_cons. right. apply elem_of_cons. left. reflexivity.
  - exact Ha.
  - exact Hb.
  - vm_compute. reflexivity.
  - split; [exact H1|]. split; [exact H2|].
    etransitivity; [exact H4|]. vm_compute. reflexivity.
Defined.

(** ** Transmutation *)

Lemma with_type_same (c : CoinData.t) (ty : CoinType) :
  CoinData.type c = ty -> CoinData.with_type ty c = c.
Proof. intros <-. destruct c. reflexivity. Qed.

Lemma handleTransmute_effect (targetId : string) (cs : App.CoinState) :
  let cs' := App.handleTransmute targetId cs in
  App.coinOrder cs' = App.coinOrder cs
  /\ (forall k, k <> targetId -> App.coinMap cs' !! k = App.coinMap cs !! k)
  /\ App.coinMap cs' !! targetId
     = CoinData.with_type GOLD <$> App.coinMap cs !! targetId
  /\ App.handleTransmute targetId cs' = cs'.
Proof.
  cbn zeta. unfold App.handleTransmute.
  destruct (App.coinMap cs !! targetId) as [target|] eqn:Ht.
  - destruct (bool_decide (CoinData.type target = GOLD)) eqn:Hg.
    + apply bool_decide_eq_true_1 in Hg. rewrite Ht. cbn.
      rewrite (with_type_same _ _ Hg).
      rewrite (bool_decide_eq_true_2 _ Hg). auto.
    + cbn [App.coinMap App.coinOrder]. rewrite lookup_insert_eq. cbn.
      repeat split.
      intros k Hk. apply lookup_insert_ne. intros E. apply Hk. symmetry. exact E.
  - rewrite Ht. auto.
Qed.

(** X7.  A transmutation changes nothing but the type of its target: the
    order and every other coin are as before, the target (if present) is
    the same coin with type GOLD, and transmuting again does nothing. *)
Theorem transmutation_changes_only_the_type
    (targetId : string) (cs : App.CoinState) :
  let cs' := App.handleTransmute targetId cs in
  App.coinOrder cs' = App.coinOrder cs
  /\ (forall k, k <> targetId -> App.coinMap cs' !! k = App.coinMap cs !! k)
  /\ App.coinMap cs' !! targetId
     = CoinData.with_type GOLD <$> App.coinMap cs !! targetId
  /\ App.handleTransmute targetId cs' = cs'.
Proof. apply handleTransmute_effect. Qed.

(** The reducer on contacts of a gold coin with the body of one standard
    coin. *)
Lemma reduce_midas_contacts world (g s : CoinData.t) (p : CollisionPayload.t)
    (n : nat) :
  CoinData.type g = GOLD -> CoinData.type s = STANDARD ->
  CoinData.id s <> "" ->
  CollisionSide.rigidBodyObject (CollisionPayload.other p)
    = Some (Coins.coinBodyObject s) ->
  reduceContacts world (replicate (S n) (p, g)) (Coins.mkEnv Coins.noPending [])
  = Coins.mkEnv (Coins.mkPending [] [] [CoinData.id s] []) [].
Proof.
  intros Hg Hs Hid Hp.
  assert (Hstep : forall e,
            Coins.handleCollision world p g e
            = Coins.with_pending (Coins.queueTransmute (CoinData.id s)) e).
  { intros e. unfold Coins.handleCollision. rewrite Hp, Hg.
    change (Coins.has Coins.activeCollisionCoinTypes GOLD) with true.
    change (Coins.has Coins.interactionCoinTypes GOLD) with false.
    cbn [negb orb]. rewrite bool_decide_eq_true_2 by reflexivity.
    cbn [Coins.coinBodyObject RigidBodyObject.userData mbind option_bind
         UserData.coinId UserData.coinType].
    unfold Coins.bombLogic, Coins.midasLogic, Coins.splitterLogic, Coins.coinToCoin.
    rewrite Hg, Hs.
    change (Coins.has Coins.interactionCoinTypes GOLD) with false.
    rewrite andb_false_r.
    rewrite (bool_decide_eq_false_2 (GOLD = SPLITTER)) by discriminate.
    rewrite (bool_decide_eq_false_2 (GOLD = BOMB)) by discriminate.
    rewrite (bool_decide_eq_true_2 (GOLD = GOLD)) by reflexivity.
    rewrite (bool_decide_eq_true_2 (Some STANDARD = Some STANDARD)) by reflexivity.
    cbn [andb negb]. rewrite truthy_str_Some.
    apply String.eqb_neq in Hid. rewrite Hid. reflexivity. }
  unfold reduceContacts. cbn [replicate foldl fst snd]. rewrite Hstep.
  induction n as [|n IH]; [reflexivity|].
  cbn [replicate foldl fst snd]. rewrite Hstep.
  unfold Coins.with_pending, Coins.queueTransmute in *.
  cbn [Coins.pending Coins.impulses Coins.interactions Coins.splits
       Coins.transmutations Coins.explosions Coins.noPending] in *.
  unfold Set_add at 1. rewrite decide_True.
  - exact IH.
  - unfold Set_add. cbn. apply elem_of_cons. left. reflexivity.
Qed.

(** X8.  A gold coin that touches a standard coin, any number of times in
    a tick: at the end of the tick the standard coin, if it is still in the
    registry, is a gold coin under the same id, at the same place in the
    order, and nothing else has changed. *)
Theorem midas_touch_transmutes_in_place
    (world : list RapierRigidBody.t) (rnd : nat -> Rnd)
    (g s : CoinData.t) (p : CollisionPayload.t) (n : nat) (cs : App.CoinState) :
  CoinData.type g = GOLD -> CoinData.type s = STANDARD ->
  CoinData.id s <> "" ->
  CollisionSide.rigidBodyObject (CollisionPayload.other p)
    = Some (Coins.coinBodyObject s) ->
  let cs' := tick world rnd (replicate (S n) (p, g)) cs in
  App.coinOrder cs' = App.coinOrder cs
  /\ (forall k, k <> CoinData.id s -> App.coinMap cs' !! k = App.coinMap cs !! k)
  /\ App.coinMap cs' !! CoinData.id s
     = CoinData.with_type GOLD <$> App.coinMap cs !! CoinData.id s.
Proof.
  intros Hg Hs Hid Hp cs'. subst cs'. unfold tick.
  rewrite (reduce_midas_contacts world g s p n Hg Hs Hid Hp).
  cbn [Coins.useFrame Coins.pending Coins.interactions Coins.splits
       Coins.transmutations Coins.explosions map app fst snd applyCallbacks
       App.callbackUpdater].
  destruct (handleTransmute_effect (CoinData.id s) cs)
    as (H1 & H2 & H3 & _).
  auto.
Qed.

Lemma midas_touch_transmutes_in_place_witness :
  let gold := Sample.coin "g5" GOLD (1%float, 1%float, 2%float) in
  let cs := Sample.registry [Sample.chip; Sample.seed; gold] in
  let cs' := tick [] Sample.draw
               [(Sample.hits Sample.chip, gold); (Sample.hits Sample.chip, gold)] cs in
  App.coinMap cs !! "c3" = Some Sample.chip
  /\ App.coinOrder cs' = ["c3"; "a1"; "g5"]
  /\ App.coinMap cs' !! "c3" = Some (CoinData.with_type GOLD Sample.chip).
Proof.
  intros gold cs cs'.
  split; [vm_compute; reflexivity|].
  destruct (midas_touch_transmutes_in_place [] Sample.draw gold Sample.chip
              (Sample.hits Sample.chip) 1 cs) as (H1 & _ & H3).
  - reflexivity.
  - reflexivity.
  - discriminate.
  - reflexivity.
  - split.
    + etransitivity; [exact H1|]. vm_compute. reflexivity.
    + etransitivity; [exact H3|]. vm_compute. reflexivity.
Defined.

(** ** The registry as the list of coins it renders *)

Lemma omap_lookup_ext (m m' : gmap string CoinData.t) (order : list string) :
  (forall k, k ∈ order -> m' !! k = m !! k) ->
  omap (fun k => m' !! k) order = omap (fun k => m !! k) order.
Proof.
  induction order as [|k order IH]; intros H; [reflexivity|]. cbn.
  rewrite (H k) by (apply elem_of_cons; auto).
  rewrite IH; [reflexivity|]. intros k' Hk'. apply H, elem_of_cons. auto.
Qed.

(** Dropping ids from the order drops the coins with these ids. *)
Lemma omap_lookup_filter (P : string -> Prop) (Q : CoinData.t -> Prop)
    `{!forall k, Decision (P k)} `{!forall c, Decision (Q c)}
    (m : gmap string CoinData.t) (order : list string) :
  (forall c, Q c <-> P (CoinData.id c)) ->
  (forall k, k ∈ order -> exists c, m !! k = Some c /\ CoinData.id c = k) ->
  omap (fun k => m !! k) (filter P order)
  = filter Q (omap (fun k => m !! k) order).
Proof.
  intros HQ. induction order as [|k order IH]; intros Hst; [reflexivity|].
  destruct (Hst k) as (c & Hc & Hid); [apply elem_of_cons; auto|].
  assert (IH' := IH (fun k' Hk' => Hst k' (proj2 (elem_of_cons _ _ _) (or_intror Hk')))).
  rewrite filter_cons. cbn [omap list_omap]. fold (omap (fun k => m !! k) order).
  rewrite Hc. rewrite filter_cons.
  destruct (decide (P k)) as [Hp | Hp].
  - rewrite decide_True by (apply HQ; rewrite Hid; exact Hp).
    cbn [omap list_omap]. rewrite Hc. f_equal. exact IH'.
  - rewrite decide_False by (intros Hq; apply HQ in Hq; rewrite Hid in Hq; auto).
    exact IH'.
Qed.

Lemma filter_absent (id : string) (order : list string) :
  id ∉ order -> filter (fun k => k <> id) order = order.
Proof.
  induction order as [|k order IH]; intros H; [reflexivity|].
  rewrite filter_cons. rewrite decide_True.
  - f_equal. apply IH. intros Hin. apply H, elem_of_cons. auto.
  - intros ->. apply H, elem_of_cons. auto.
Qed.

(** Looking for an id in the rendered list. *)
Lemma rendered_find (m : gmap string CoinData.t) (order : list string)
    (id : string) :
  (forall k, k ∈ order -> exists c, m !! k = Some c /\ CoinData.id c = k) ->
  OldApp.find id (omap (fun k => m !! k) order)
  = if decide (id ∈ order) then m !! id else None.
Proof.
  induction order as [|k order IH]; intros H.
  - cbn. rewrite decide_False by apply not_elem_of_nil. reflexivity.
  - destruct (H k) as (c & Hc & Hid); [apply elem_of_cons; auto|].
    cbn [omap list_omap]. rewrite Hc. unfold OldApp.find. cbn [List.find].
    rewrite Hid. destruct (String.eqb_spec k id) as [-> | Hne].
    + rewrite decide_True by (apply elem_of_cons; auto). symmetry. exact Hc.
    + fold (OldApp.find id (omap (fun k => m !! k) order)).
      rewrite IH by (intros k' Hk'; apply H, elem_of_cons; auto).
      destruct (decide (id ∈ order)) as [Hin | Hnot].
      * rewrite decide_True by (apply elem_of_cons; auto). reflexivity.
      * rewrite decide_False; [reflexivity|].
        intros Hin. apply elem_of_cons in Hin as [-> | Hin]; [apply Hne; reflexivity | auto].
Qed.

Lemma rendered_findIndex_absent (m : gmap string CoinData.t)
    (order : list string) (id : string) :
  (forall k, k ∈ order -> exists c, m !! k = Some c /\ CoinData.id c = k) ->
  id ∉ order ->
  OldApp.findIndex id (omap (fun k => m !! k) order) = None.
Proof.
  induction order as [|k order IH]; intros H Hnot; [reflexivity|].
  destruct (H k) as (c & Hc & Hid); [apply elem_of_cons; auto|].
  cbn [omap list_omap]. rewrite Hc. cbn [OldApp.findIndex]. rewrite Hid.
  destruct (String.eqb_spec k id) as [-> | Hne].
  - exfalso. apply Hnot, elem_of_cons. auto.
  - rewrite IH; [reflexivity | |].
    + intros k' Hk'. apply H, elem_of_cons. auto.
    + intros Hin. apply Hnot, elem_of_cons. auto.
Qed.

(** Overwriting the coin of a listed id is an update in place of the
    rendered list, at the index the earlier code finds. *)
Lemma rendered_overwrite (m : gmap string CoinData.t) (order : list string)
    (id : string) (c c' : CoinData.t) :
  (forall k, k ∈ order -> exists c, m !! k = Some c /\ CoinData.id c = k) ->
  NoDup order -> id ∈ order -> m !! id = Some c ->
  exists i,
    OldApp.findIndex id (omap (fun k => m !! k) order) = Some i
    /\ omap (fun k => m !! k) order !! i = Some c
    /\ omap (fun k => <[id := c']> m !! k) order
       = <[i := c']> (omap (fun k => m !! k) order).
Proof.
  induction order as [|k order IH]; intros H Hnd Hin Hc; [inversion Hin|].
  destruct (H k) as (ck & Hck & Hid); [apply elem_of_cons; auto|].
  apply NoDup_cons in Hnd as [Hk Hnd].
  cbn [omap list_omap]. rewrite Hck. cbn [OldApp.findIndex]. rewrite Hid.
  destruct (String.eqb_spec k id) as [-> | Hne].
  - exists 0%nat. rewrite lookup_insert_eq. cbn.
    split; [reflexivity|]. split; [congruence|]. f_equal.
    apply omap_lookup_ext. intros k' Hk'. apply lookup_insert_ne.
    intros ->. contradiction.
  - apply elem_of_cons in Hin as [-> | Hin]; [contradiction Hne; reflexivity|].
    destruct (IH (fun k' Hk' => H k' (proj2 (elem_of_cons _ _ _) (or_intror Hk')))
                Hnd Hin Hc) as (i & Hi & Hl & Heq).
    exists (S i). rewrite Hi. cbn. rewrite lookup_insert_ne by (intros E; apply Hne; symmetry; exact E).
    rewrite Hck. split; [reflexivity|]. split; [exact Hl|]. cbn. f_equal. exact Heq.
Qed.

Lemma rendered_append (m : gmap string CoinData.t) (order : list string)
    (c : CoinData.t) :
  CoinData.id c ∉ order ->
  omap (fun k => <[CoinData.id c := c]> m !! k) (order ++ [CoinData.id c])
  = omap (fun k => m !! k) order ++ [c].
Proof.
  intros Hnot. rewrite omap_app. cbn. rewrite lookup_insert_eq. f_equal.
  apply omap_lookup_ext. intros k Hk. apply lookup_insert_ne.
  intros E. rewrite E in Hnot. contradiction.
Qed.

Lemma stored_of_wf (cs : App.CoinState) :
  registry_wf cs -> keyed cs ->
  forall k, k ∈ App.coinOrder cs ->
    exists c, App.coinMap cs !! k = Some c /\ CoinData.id c = k.
Proof.
  intros [_ Hiff] Hkey k Hk. apply Hiff in Hk as [c Hc]. exists c. split; [exact Hc|].
  exact (Hkey k c Hc).
Qed.

Lemma rendered_remove (id : string) (cs : App.CoinState) :
  registry_wf cs -> keyed cs ->
  App.activeCoins (App.handleExplode id cs)
  = filter (fun c => CoinData.id c ≠ id) (App.activeCoins cs).
Proof.
  intros Hwf Hkey. pose proof (stored_of_wf cs Hwf Hkey) as Hst.
  unfold App.handleExplode, App.activeCoins.
  destruct (App.coinMap cs !! id) as [c|] eqn:Hc; cbn [App.coinMap App.coinOrder].
  - etransitivity;
      [|apply (omap_lookup_filter (fun k => k ≠ id)); [reflexivity | exact Hst]].
    apply omap_lookup_ext. intros k Hk. apply list_elem_of_filter in Hk as [Hk _].
    apply lookup_delete_ne. intros E. apply Hk. symmetry. exact E.
  - etransitivity;
      [|apply (omap_lookup_filter (fun k => k ≠ id)); [reflexivity | exact Hst]].
    rewrite filter_absent; [reflexivity|].
    intros Hin. apply (proj2 Hwf) in Hin as [x Hx]. congruence.
Qed.

(** X9.  The registry behaves as the plain array of coins of the earlier
    App.  For a well-formed registry whose coins are stored under their own
    ids, and minted ids that are not in use, the list of coins handed to the
    scene after a combine, split, transmute or explode callback, after a
    collection, and after a spawn, is the list the earlier array-based
    handler computes from the list handed to the scene before. *)
Theorem registry_refines_the_coin_array
    (r : Rnd) (c : Coins.Callback) (cs : App.CoinState) :
  registry_wf cs -> keyed cs ->
  App.coinMap cs !! ("merged-" ++ digits r)%string = None ->
  App.coinMap cs !! ("clone-" ++ digits r)%string = None ->
  App.activeCoins (App.callbackUpdater r c cs)
  = OldApp.callbackUpdater r c (App.activeCoins cs)
  /\ (forall id,
        App.activeCoins (App.collectUpdater id cs)
        = OldApp.collectUpdater id (App.activeCoins cs))
  /\ (forall newCoin,
        App.coinMap cs !! CoinData.id newCoin = None ->
        App.activeCoins (App.spawnUpdater newCoin cs)
        = OldApp.spawnUpdater newCoin (App.activeCoins cs)).
Proof.
  intros Hwf Hkey Hmerged Hclone.
  pose proof (stored_of_wf cs Hwf Hkey) as Hst.
  destruct Hwf as [Hnd Hiff].
  assert (Habsent : forall k, App.coinMap cs !! k = None -> k ∉ App.coinOrder cs).
  { intros k Hk Hin. apply Hiff in Hin as [x Hx]. congruence. }
  assert (Hpresent : forall k x, App.coinMap cs !! k = Some x -> k ∈ App.coinOrder cs).
  { intros k x Hk. apply Hiff. eauto. }
  split; [|split].
  - destruct c as [id1 id2 result | id position | targetId | id];
      cbn [App.callbackUpdater OldApp.callbackUpdater].
    + (* combine *)
      unfold App.handleCoinInteraction, OldApp.handleCoinInteraction, App.activeCoins.
      rewrite !(rendered_find _ _ _ Hst).
      destruct (App.coinMap cs !! id1) as [coin1|] eqn:H1.
      * rewrite decide_True by eauto.
        destruct (App.coinMap cs !! id2) as [coin2|] eqn:H2.
        -- rewrite decide_True by eauto.
           cbn [App.coinMap App.coinOrder CoinData.id].
           pose proof (rendered_append (delete id2 (delete id1 (App.coinMap cs)))
                         (filter (fun k => k ≠ id1 /\ k ≠ id2) (App.coinOrder cs))
                         (CoinData.mk ("merged-" ++ digits r)%string result
                            (App.midpoint (CoinData.position coin1)
                                          (CoinData.position coin2))
                            (0%float, 0%float, 0%float) None None)) as Happ.
           cbn [CoinData.id] in Happ. rewrite Happ.
           ++ f_equal.
              etransitivity;
                [|apply (omap_lookup_filter (fun k => k ≠ id1 /\ k ≠ id2));
                  [reflexivity | exact Hst]].
              apply omap_lookup_ext. intros k Hk.
              apply list_elem_of_filter in Hk as [[Hk1 Hk2] _].
              rewrite lookup_delete_ne by (intros E; apply Hk2; symmetry; exact E).
              apply lookup_delete_ne. intros E. apply Hk1. symmetry. exact E.
           ++ intros Hin. apply list_elem_of_filter in Hin as [_ Hin].
              exact (Habsent _ Hmerged Hin).
        -- destruct (decide (id2 ∈ App.coinOrder cs)); reflexivity.
      * destruct (decide (id1 ∈ App.coinOrder cs)); reflexivity.
    + (* split *)
      unfold App.handleSplit, OldApp.handleSplit, App.activeCoins.
      destruct (App.coinMap cs !! id) as [original|] eqn:Ho.
      * destruct (rendered_overwrite (App.coinMap cs) (App.coinOrder cs) id original
                    (CoinData.with_hasSplit true original) Hst Hnd
                    (Hpresent _ _ Ho) Ho) as (i & Hi & Hl & Heq).
        rewrite Hi, Hl.
        destruct (truthy_flag (CoinData.hasSplit original)); [reflexivity|].
        cbn [App.coinMap App.coinOrder CoinData.id].
        pose proof (rendered_append
                      (<[id := CoinData.with_hasSplit true original]> (App.coinMap cs))
                      (App.coinOrder cs)
                      (CoinData.mk ("clone-" ++ digits r)%string SPLITTER
                         (Vector3.x position, (Vector3.y position + 1)%float,
                          Vector3.z position)
                         (0%float, angle r, 0%float) (Some true) None)) as Happ.
        cbn [CoinData.id] in Happ. rewrite Happ by exact (Habsent _ Hclone).
        rewrite Heq. reflexivity.
      * rewrite (rendered_findIndex_absent _ _ _ Hst (Habsent _ Ho)). reflexivity.
    + (* transmute *)
      unfold App.handleTransmute, OldApp.handleTransmute, App.activeCoins.
      destruct (App.coinMap cs !! targetId) as [target|] eqn:Ho.
      * destruct (rendered_overwrite (App.coinMap cs) (App.coinOrder cs) targetId
                    target (CoinData.with_type GOLD target) Hst Hnd
                    (Hpresent _ _ Ho) Ho) as (i & Hi & Hl & Heq).
        rewrite Hi, Hl.
        destruct (bool_decide (CoinData.type target = GOLD)); [reflexivity|].
        cbn [App.coinMap App.coinOrder]. exact Heq.
      * rewrite (rendered_findIndex_absent _ _ _ Hst (Habsent _ Ho)). reflexivity.
    + (* explode *)
      apply rendered_remove; [split|]; assumption.
  - intros id. apply (rendered_remove id cs); [split|]; assumption.
  - intros newCoin Hnew. unfold App.spawnUpdater, OldApp.spawnUpdater, App.activeCoins.
    cbn [App.coinMap App.coinOrder]. apply rendered_append. exact (Habsent _ Hnew).
Qed.

(** ** The coins handed to the scene *)

Lemma keyed_insert (m : gmap string CoinData.t) (order order' : list string)
    (c : CoinData.t) :
  keyed (App.mkCoinState m order) ->
  keyed (App.mkCoinState (<[CoinData.id c := c]> m) order').
Proof.
  intros H k x. cbn. rewrite lookup_insert_Some.
  intros [[<- <-] | [_ Hx]]; [reflexivity|]. exact (H k x Hx).
Qed.

Lemma keyed_delete (m : gmap string CoinData.t) (order order' : list string)
    (id : string) :
  keyed (App.mkCoinState m order) ->
  keyed (App.mkCoinState (delete id m) order').
Proof.
  intros H k x. cbn. rewrite lookup_delete_Some. intros [_ Hx]. exact (H k x Hx).
Qed.

Lemma spawnUpdater_keyed (c : CoinData.t) (cs : App.CoinState) :
  keyed cs -> keyed (App.spawnUpdater c cs).
Proof. destruct cs as [m order]. apply keyed_insert. Qed.

Lemma jackpotUpdater_keyed (l : list CoinData.t) (cs : App.CoinState) :
  keyed cs -> keyed (App.jackpotUpdater l cs).
Proof.
  revert cs. induction l as [|c l IH]; intros cs H.
  - intros k x. exact (H k x).
  - rewrite jackpotUpdater_cons. apply IH, spawnUpdater_keyed, H.
Qed.

Lemma callbackUpdater_keyed (r : Rnd) (c : Coins.Callback) (cs : App.CoinState) :
  keyed cs -> keyed (App.callbackUpdater r c cs).
Proof.
  intros H. destruct cs as [m order].
  destruct c as [id1 id2 result | id position | targetId | id];
    cbn [App.callbackUpdater].
  - unfold App.handleCoinInteraction. cbn [App.coinMap App.coinOrder].
    destruct (m !! id1) as [coin1|]; [|exact H].
    destruct (m !! id2) as [coin2|]; [|exact H].
    apply (keyed_insert _ order). apply (keyed_delete _ order).
    apply (keyed_delete _ order). exact H.
  - unfold App.handleSplit. cbn [App.coinMap App.coinOrder].
    destruct (m !! id) as [original|] eqn:Ho; [|exact H].
    destruct (truthy_flag (CoinData.hasSplit original)); [exact H|].
    apply (keyed_insert _ order).
    assert (E : id = CoinData.id (CoinData.with_hasSplit true original)).
    { symmetry. exact (H id original Ho). }
    rewrite E at 1. apply (keyed_insert _ order). exact H.
  - unfold App.handleTransmute. cbn [App.coinMap App.coinOrder].
    destruct (m !! targetId) as [target|] eqn:Ho; [|exact H].
    destruct (bool_decide (CoinData.type target = GOLD)); [exact H|].
    assert (E : targetId = CoinData.id (CoinData.with_type GOLD target)).
    { symmetry. exact (H targetId target Ho). }
    rewrite E at 1. apply (keyed_insert _ order). exact H.
  - unfold App.handleExplode. cbn [App.coinMap App.coinOrder].
    destruct (m !! id); [|exact H]. apply (keyed_delete _ order). exact H.
Qed.

Lemma keyed_empty : keyed App.emptyCoinState.
Proof. intros k x. cbn. rewrite lookup_empty. discriminate. Qed.

(** Every event keeps each coin stored under its own id. *)
Lemma handle_keyed (ev : Event) (a : App.t) :
  keyed (App.coinState a) -> keyed (App.coinState (handle ev a)).
Proof.
  intros H.
  destruct ev as [ | b | d | | draw | | type r | dims draw | r c | id type
                   | | | item cost | base | coin ]; cbn [handle].
  - exact H.
  - exact H.
  - exact H.
  - unfold App.decayInterval.
    repeat match goal with |- context [if ?b then _ else _] => destruct b end;
      exact H.
  - rewrite startGame_coinState. apply jackpotUpdater_keyed, keyed_empty.
  - apply keyed_empty.
  - unfold App.handleCoinDrop, App.spawnCoin.
    destruct (negb false && _); [exact H|].
    cbn [App.setGameState App.setCoinState App.coinState].
    apply spawnUpdater_keyed. exact H.
  - unfold App.runTimeout.
    destruct (App.timeouts a) as [|level rest]; [exact H|].
    unfold App.triggerJackpot.
    cbn [App.setGameState App.setCoinState App.setTimeouts App.coinState
         App.gameStateRef].
    apply jackpotUpdater_keyed. exact H.
  - unfold App.onCallback. cbn [App.setCoinState App.coinState].
    apply callbackUpdater_keyed. exact H.
  - unfold App.handleCoinCollected.
    cbn [App.setGameState App.setCoinState App.setClocks App.coinState].
    match goal with |- context [if ?b then App.setTimeouts _ _ else _] =>
      destruct b end;
      cbn [App.setGameState App.setCoinState App.setClocks App.setTimeouts
           App.coinState];
      apply (callbackUpdater_keyed (Sample.rnd "") (Coins.OnExplode id)); exact H.
  - unfold App.handleRoundEnd. destruct (_ <=? _)%Z; exact H.
  - exact H.
  - unfold App.buyItem. destruct (_ <=? _)%Z; exact H.
  - unfold Shop.pressArtifact, App.buyItem. repeat destruct (_ <=? _)%Z; exact H.
  - unfold Shop.pressCoin, App.buyItem. repeat destruct (_ <=? _)%Z; exact H.
Qed.

Lemma keyed_run (evs : list Event) (a : App.t) :
  keyed (App.coinState a) -> keyed (App.coinState (run evs a)).
Proof.
  revert a. induction evs as [|ev evs IH]; intros a H; [exact H|].
  cbn. apply IH, handle_keyed, H.
Qed.

Lemma registry_refines_the_coin_array_witness :
  let cs := Sample.registry [Sample.seed; Sample.water; Sample.chip] in
  let r := Sample.rnd "k3x9q0zr1" in
  let c := Coins.OnInteraction "a1" "b2" TREE in
  App.activeCoins (App.callbackUpdater r c cs)
  = OldApp.callbackUpdater r c [Sample.seed; Sample.water; Sample.chip].
Proof.
  intros cs r c.
  refine (proj1 (registry_refines_the_coin_array r c cs _ _ _ _)).
  - apply sample_registry_wf. apply (bool_decide_unpack _). vm_compute. exact I.
  - apply jackpotUpdater_keyed, keyed_empty.
  - vm_compute. reflexivity.
  - vm_compute. reflexivity.
Defined.

(** The ids of the rendered coins are the ordered ids. *)
Lemma rendered_ids (m : gmap string CoinData.t) (order : list string) :
  (forall k, k ∈ order -> exists c, m !! k = Some c /\ CoinData.id c = k) ->
  map CoinData.id (omap (fun k => m !! k) order) = order.
Proof.
  induction order as [|k order IH]; intros H; [reflexivity|].
  destruct (H k) as (c & Hc & Hid); [apply elem_of_cons; auto|].
  cbn. rewrite Hc. cbn. rewrite Hid. f_equal. apply IH.
  intros k' Hk'. apply H. apply elem_of_cons. auto.
Qed.

(** X10.  What the scene is given.  Along every run of the application from
    its initial state in which the minted ids are fresh, the list of coins
    handed to the scene holds exactly the coins of the registry, each once,
    in the order of [coinOrder]: the ids of the list are [coinOrder], no two
    rendered coins share an id (their React keys are distinct), and a coin
    is rendered exactly when the registry stores it under its id. *)
Theorem scene_renders_each_registered_coin_once (evs : list Event) :
  all_fresh evs App.initial ->
  let cs := App.coinState (run evs App.initial) in
  map CoinData.id (App.activeCoins cs) = App.coinOrder cs
  /\ NoDup (map CoinData.id (App.activeCoins cs))
  /\ forall c, c ∈ App.activeCoins cs <-> App.coinMap cs !! CoinData.id c = Some c.
Proof.
  intros Hfresh cs.
  assert (Hwf : registry_wf cs).
  { apply registry_wf_run; [apply registry_wf_empty | exact Hfresh]. }
  assert (Hkey : keyed cs) by (apply keyed_run, keyed_empty).
  pose proof (stored_of_wf cs Hwf Hkey) as Hst.
  assert (Hids : map CoinData.id (App.activeCoins cs) = App.coinOrder cs).
  { apply rendered_ids. exact Hst. }
  split; [exact Hids|]. split; [rewrite Hids; exact (proj1 Hwf)|].
  intros c. unfold App.activeCoins. rewrite list_elem_of_omap. split.
  - intros (k & Hk & Hc). rewrite (Hkey k c Hc). exact Hc.
  - intros Hc. exists (CoinData.id c). split; [|exact Hc].
    apply (proj2 Hwf). eauto.
Qed.

Lemma scene_renders_each_registered_coin_once_witness :
  let cs := App.coinState Scenario.started in
  map CoinData.id (App.activeCoins cs) = App.coinOrder cs
  /\ NoDup (map CoinData.id (App.activeCoins cs))
  /\ forall c, c ∈ App.activeCoins cs <-> App.coinMap cs !! CoinData.id c = Some c.
Proof.
  apply (scene_renders_each_registered_coin_once [StartGame Sample.draw; Render]).
  cbn [all_fresh]. split; [|split; [|exact I]].
  - split; [|exact I]. apply (bool_decide_unpack _). vm_compute. exact I.
  - split; [constructor|]. intros id Hid. inversion Hid.
Defined.

(** ** Rounding to doubles *)

Lemma rne_cases (q : Q) :
  let f := Qfloor q in
  (inject_Z f <= q)%Q /\ (q < inject_Z f + 1)%Q
  /\ ((Binary64.rne q = f /\ (q - inject_Z f <= 1 # 2)%Q)
      \/ (Binary64.rne q = (f + 1)%Z /\ (1 # 2 <= q - inject_Z f)%Q)).
Proof.
  cbn zeta. pose proof (Qfloor_le q) as H1. pose proof (Qlt_floor q) as H2.
  rewrite inject_Z_plus in H2. change (inject_Z 1) with 1%Q in H2.
  split; [exact H1|]. split; [exact H2|]. unfold Binary64.rne.
  destruct (Qcompare_spec (q - inject_Z (Qfloor q)) (1 # 2)) as [E | E | E].
  - destruct (Z.even (Qfloor q)); [left | right]; split; try reflexivity; lra.
  - left. split; [reflexivity | lra].
  - right. split; [reflexivity | lra].
Qed.

Lemma rne_tie (q : Q) :
  (q - inject_Z (Qfloor q) == 1 # 2)%Q ->
  Binary64.rne q = if Z.even (Qfloor q) then Qfloor q else (Qfloor q + 1)%Z.
Proof.
  intros E. unfold Binary64.rne.
  destruct (Qcompare_spec (q - inject_Z (Qfloor q)) (1 # 2)) as [H | H | H];
    [reflexivity | lra | lra].
Qed.

Lemma rne_below (q : Q) :
  (q - inject_Z (Qfloor q) < 1 # 2)%Q -> Binary64.rne q = Qfloor q.
Proof.
  intros E. unfold Binary64.rne.
  destruct (Qcompare_spec (q - inject_Z (Qfloor q)) (1 # 2)) as [H | H | H];
    [lra | reflexivity | lra].
Qed.

Lemma rne_above (q : Q) :
  (1 # 2 < q - inject_Z (Qfloor q))%Q -> Binary64.rne q = (Qfloor q + 1)%Z.
Proof.
  intros E. unfold Binary64.rne.
  destruct (Qcompare_spec (q - inject_Z (Qfloor q)) (1 # 2)) as [H | H | H];
    [lra | lra | reflexivity].
Qed.

Lemma rne_mono (p q : Q) : (p <= q)%Q -> (Binary64.rne p <= Binary64.rne q)%Z.
Proof.
  intros H. pose proof (Qfloor_resp_le _ _ H) as Hf.
  destruct (rne_cases p) as (P1 & P2 & HP). destruct (rne_cases q) as (Q1 & Q2 & HQ).
  destruct (Z.eq_dec (Qfloor p) (Qfloor q)) as [E | E].
  - destruct (Qcompare_spec (p - inject_Z (Qfloor p)) (1 # 2)) as [Hp | Hp | Hp].
    + rewrite (rne_tie p Hp).
      destruct (Qcompare_spec (q - inject_Z (Qfloor q)) (1 # 2)) as [Hq | Hq | Hq].
      * rewrite (rne_tie q Hq), E. lia.
      * rewrite E in Hp. lra.
      * rewrite (rne_above q Hq), E. destruct (Z.even (Qfloor q)); lia.
    + rewrite (rne_below p Hp). destruct HQ as [[-> _] | [-> _]]; lia.
    + rewrite (rne_above p Hp).
      assert (1 # 2 < q - inject_Z (Qfloor q))%Q by (rewrite <- E; lra).
      rewrite (rne_above q) by assumption. lia.
  - destruct HP as [[-> _] | [-> _]]; destruct HQ as [[-> _] | [-> _]]; lia.
Qed.

Lemma rne_Z (z : Z) : Binary64.rne (inject_Z z) = z.
Proof.
  rewrite rne_below; rewrite Qfloor_Z; [reflexivity | lra].
Qed.

Lemma two_pow_pos (k : Z) : (0 < 2 ^ k)%Q.
Proof. apply Qpower_0_lt. lra. Qed.

Lemma two_pow_succ (k : Z) : (2 ^ (k + 1) == 2 * 2 ^ k)%Q.
Proof.
  rewrite Qpower_plus by (intros E; discriminate E).
  change (2 ^ 1)%Q with 2%Q. ring.
Qed.

Lemma two_pow_le (j k : Z) : (j <= k)%Z -> (2 ^ j <= 2 ^ k)%Q.
Proof. intros H. apply Qpower_le_compat_l; [exact H | lra]. Qed.

Lemma two_pow_Z (n : Z) : (0 <= n)%Z -> (2 ^ n == inject_Z (2 ^ n))%Q.
Proof.
  intros H. symmetry. apply (Zpower_Qpower 2 n H).
Qed.

(** The exponent found is the integer part of the binary logarithm. *)
Lemma ilog2_spec (q : Q) :
  (0 < q)%Q ->
  (2 ^ Binary64.ilog2 q <= q)%Q /\ (q < 2 ^ (Binary64.ilog2 q + 1))%Q.
Proof.
  intros Hq. destruct q as [n d]. unfold Binary64.ilog2. cbn [Qnum Qden].
  assert (Hn : (0 < n)%Z).
  { unfold Qlt in Hq. cbn in Hq. lia. }
  destruct (Z.log2_spec n Hn) as [Hn1 Hn2].
  destruct (Z.log2_spec (Z.pos d) (Pos2Z.is_pos d)) as [Hd1 Hd2].
  pose proof (Z.log2_nonneg n) as Ln. pose proof (Z.log2_nonneg (Z.pos d)) as Ld.
  set (ln := Z.log2 n) in *. set (ld := Z.log2 (Z.pos d)) in *.
  assert (En : (inject_Z n == (n # d) * inject_Z (Z.pos d))%Q).
  { unfold Qeq. simpl. rewrite Pos.mul_1_r. ring. }
  assert (HD : (0 < inject_Z (Z.pos d))%Q) by (unfold Qlt; cbn; lia).
  assert (A1 : (2 ^ ln <= inject_Z n)%Q).
  { rewrite two_pow_Z by exact Ln. rewrite <- Zle_Qle. exact Hn1. }
  assert (A2 : (inject_Z n < 2 ^ (ln + 1))%Q).
  { rewrite two_pow_Z by lia. rewrite <- Zlt_Qlt. exact Hn2. }
  assert (B1 : (2 ^ ld <= inject_Z (Z.pos d))%Q).
  { rewrite two_pow_Z by exact Ld. rewrite <- Zle_Qle. exact Hd1. }
  assert (B2 : (inject_Z (Z.pos d) < 2 ^ (ld + 1))%Q).
  { rewrite two_pow_Z by lia. rewrite <- Zlt_Qlt. exact Hd2. }
  assert (S1 : (2 ^ ln == 2 ^ (ln - ld) * 2 ^ ld)%Q).
  { rewrite <- Qpower_plus by (intros E; discriminate E).
    replace (ln - ld + ld)%Z with ln by lia. reflexivity. }
  rewrite two_pow_succ in A2, B2.
  pose proof (two_pow_pos (ln - ld)) as Pk. pose proof (two_pow_pos ld) as Pd.
  destruct (Qle_bool (2 ^ (ln - ld)) (n # d)) eqn:Hb.
  - apply Qle_bool_iff in Hb. split; [exact Hb|].
    rewrite two_pow_succ.
    set (x := (n # d)%Q) in *. set (D := inject_Z (Z.pos d)) in *.
    set (K := (2 ^ (ln - ld))%Q) in *. set (L := (2 ^ ld)%Q) in *.
    set (N := (2 ^ ln)%Q) in *.
    destruct (Qlt_le_dec x (2 * K)) as [H | H]; [exact H | exfalso].
    nra.
  - assert (Hlt : (n # d < 2 ^ (ln - ld))%Q).
    { destruct (Qlt_le_dec (n # d) (2 ^ (ln - ld))) as [H | H]; [exact H|].
      apply Qle_bool_iff in H. congruence. }
    replace (ln - ld - 1 + 1)%Z with (ln - ld)%Z by lia.
    split; [|exact Hlt].
    assert (S2 : (2 ^ (ln - ld) == 2 * 2 ^ (ln - ld - 1))%Q).
    { rewrite <- two_pow_succ. replace (ln - ld - 1 + 1)%Z with (ln - ld)%Z by lia.
      reflexivity. }
    pose proof (two_pow_pos (ln - ld - 1)) as Pk1.
    set (x := (n # d)%Q) in *. set (D := inject_Z (Z.pos d)) in *.
    set (K := (2 ^ (ln - ld))%Q) in *. set (L := (2 ^ ld)%Q) in *.
    set (N := (2 ^ ln)%Q) in *. set (K1 := (2 ^ (ln - ld - 1))%Q) in *.
    destruct (Qlt_le_dec x K1) as [H | H]; [exfalso | exact H].
    nra.
Qed.

Lemma two_pow_lt_inv (j k : Z) : (2 ^ j < 2 ^ k)%Q -> (j < k)%Z.
Proof. intros H. apply (Qpower_lt_compat_l_inv 2); [exact H | lra]. Qed.

Lemma ilog2_mono (p q : Q) :
  (0 < p)%Q -> (p <= q)%Q -> (Binary64.ilog2 p <= Binary64.ilog2 q)%Z.
Proof.
  intros Hp Hpq. destruct (ilog2_spec p Hp) as [P1 _].
  destruct (ilog2_spec q) as [_ Q2]; [lra|].
  assert (H : (Binary64.ilog2 p < Binary64.ilog2 q + 1)%Z).
  { apply two_pow_lt_inv. lra. }
  lia.
Qed.

(** A positive number scaled by its unit in the last place has 53 bits. *)
Lemma scaled_bounds (q : Q) :
  (0 < q)%Q ->
  (inject_Z (2 ^ 52) <= q / Binary64.ulp q)%Q
  /\ (q / Binary64.ulp q <= inject_Z (2 ^ 53))%Q.
Proof.
  intros Hq. destruct (ilog2_spec q Hq) as [H1 H2]. unfold Binary64.ulp.
  set (k := Binary64.ilog2 q) in *.
  pose proof (two_pow_pos (k - 52)) as Pu.
  assert (E1 : (2 ^ k == inject_Z (2 ^ 52) * 2 ^ (k - 52))%Q).
  { rewrite <- (two_pow_Z 52) by lia.
    rewrite <- Qpower_plus by (intros E; discriminate E).
    replace (52 + (k - 52))%Z with k by lia. reflexivity. }
  assert (E2 : (2 ^ (k + 1) == inject_Z (2 ^ 53) * 2 ^ (k - 52))%Q).
  { rewrite <- (two_pow_Z 53) by lia.
    rewrite <- Qpower_plus by (intros E; discriminate E).
    replace (53 + (k - 52))%Z with (k + 1)%Z by lia. reflexivity. }
  split.
  - apply Qle_shift_div_l; [exact Pu | lra].
  - apply Qle_shift_div_r; [exact Pu | lra].
Qed.

Lemma round_pos_bounds (q : Q) :
  (0 < q)%Q ->
  (2 ^ Binary64.ilog2 q <= Binary64.round_pos q)%Q
  /\ (Binary64.round_pos q <= 2 ^ (Binary64.ilog2 q + 1))%Q.
Proof.
  intros Hq. destruct (scaled_bounds q Hq) as [H1 H2]. unfold Binary64.round_pos.
  apply rne_mono in H1, H2. rewrite rne_Z in H1, H2.
  rewrite Zle_Qle in H1, H2.
  unfold Binary64.ulp in *. set (k := Binary64.ilog2 q) in *.
  pose proof (two_pow_pos (k - 52)) as Pu.
  assert (E1 : (2 ^ k == inject_Z (2 ^ 52) * 2 ^ (k - 52))%Q).
  { rewrite <- (two_pow_Z 52) by lia.
    rewrite <- Qpower_plus by (intros E; discriminate E).
    replace (52 + (k - 52))%Z with k by lia. reflexivity. }
  assert (E2 : (2 ^ (k + 1) == inject_Z (2 ^ 53) * 2 ^ (k - 52))%Q).
  { rewrite <- (two_pow_Z 53) by lia.
    rewrite <- Qpower_plus by (intros E; discriminate E).
    replace (53 + (k - 52))%Z with (k + 1)%Z by lia. reflexivity. }
  set (m := inject_Z (Binary64.rne (q / 2 ^ (k - 52)))) in *.
  set (u := (2 ^ (k - 52))%Q) in *.
  split; nra.
Qed.

Lemma round_pos_mono (p q : Q) :
  (0 < p)%Q -> (p <= q)%Q -> (Binary64.round_pos p <= Binary64.round_pos q)%Q.
Proof.
  intros Hp Hpq. assert (Hq : (0 < q)%Q) by lra.
  pose proof (ilog2_mono p q Hp Hpq) as Hk.
  destruct (Z.eq_dec (Binary64.ilog2 p) (Binary64.ilog2 q)) as [E | E].
  - unfold Binary64.round_pos, Binary64.ulp. rewrite E.
    pose proof (two_pow_pos (Binary64.ilog2 q - 52)) as Pu.
    assert (H : (p / 2 ^ (Binary64.ilog2 q - 52) <= q / 2 ^ (Binary64.ilog2 q - 52))%Q).
    { apply Qmult_le_compat_r; [exact Hpq|]. apply Qinv_le_0_compat. lra. }
    apply rne_mono in H. rewrite Zle_Qle in H.
    apply Qmult_le_compat_r; [exact H | lra].
  - destruct (round_pos_bounds p Hp) as [_ P2].
    destruct (round_pos_bounds q Hq) as [Q1 _].
    assert (H : (2 ^ (Binary64.ilog2 p + 1) <= 2 ^ Binary64.ilog2 q)%Q)
      by (apply two_pow_le; lia).
    lra.
Qed.

Lemma round_pos_pos (q : Q) : (0 < q)%Q -> (0 < Binary64.round_pos q)%Q.
Proof.
  intros Hq. destruct (round_pos_bounds q Hq) as [H _].
  pose proof (two_pow_pos (Binary64.ilog2 q)). lra.
Qed.

Lemma round_sign (q : Q) :
  ((0 < q)%Q -> Binary64.round q = Binary64.round_pos q)
  /\ ((q == 0)%Q -> Binary64.round q = 0%Q)
  /\ ((q < 0)%Q -> Binary64.round q = (- Binary64.round_pos (- q))%Q).
Proof.
  unfold Binary64.round.
  destruct (Qcompare_spec q 0) as [H | H | H]; repeat split; intros H';
    first [reflexivity | lra].
Qed.

(** Rounding is monotone. *)
Lemma round_mono (p q : Q) : (p <= q)%Q -> (Binary64.round p <= Binary64.round q)%Q.
Proof.
  intros H.
  destruct (round_sign p) as (Pp & Pz & Pn). destruct (round_sign q) as (Qp & Qz & Qn).
  destruct (Qcompare_spec p 0) as [Hp | Hp | Hp];
    destruct (Qcompare_spec q 0) as [Hq | Hq | Hq]; try lra.
  - rewrite (Pz Hp), (Qz Hq). lra.
  - rewrite (Pz Hp), (Qp Hq). pose proof (round_pos_pos q Hq). lra.
  - rewrite (Pn Hp), (Qz Hq).
    assert (0 < Binary64.round_pos (- p))%Q by (apply round_pos_pos; lra). lra.
  - rewrite (Pn Hp), (Qn Hq).
    assert (Binary64.round_pos (- q) <= Binary64.round_pos (- p))%Q
      by (apply round_pos_mono; lra).
    lra.
  - rewrite (Pn Hp), (Qp Hq).
    assert (0 < Binary64.round_pos (- p))%Q by (apply round_pos_pos; lra).
    pose proof (round_pos_pos q Hq). lra.
  - rewrite (Pp Hp), (Qp Hq). apply round_pos_mono; assumption.
Qed.

Lemma round_0 : Binary64.round 0 = 0%Q.
Proof. reflexivity. Qed.

Lemma round_1 : (Binary64.round 1 == 1)%Q.
Proof. vm_compute. reflexivity. Qed.

Lemma round_2 : (Binary64.round 2 == 2)%Q.
Proof. vm_compute. reflexivity. Qed.

Lemma round_nonneg (q : Q) : (0 <= q)%Q -> (0 <= Binary64.round q)%Q.
Proof. intros H. apply round_mono in H. rewrite round_0 in H. exact H. Qed.

Lemma round_ge_1 (q : Q) : (1 <= q)%Q -> (1 <= Binary64.round q)%Q.
Proof. intros H. apply round_mono in H. rewrite round_1 in H. exact H. Qed.

(** The rounding written out above and the primitive doubles of the kernel
    pay the same, for every coin type, every multiplier level up to 4 and
    every bonus level up to 32 ... *)
Lemma payout_agrees_with_kernel_doubles :
  forallb (fun type =>
    forallb (fun level =>
      forallb (fun bonusLevel =>
                 (App.payout (DeckItem.score (COIN_CONFIG type))
                             (Z.of_nat level) (Z.of_nat bonusLevel)
                  =? Kernel.payout (DeckItem.score (COIN_CONFIG type))
                                   level (Z.of_nat bonusLevel))%Z)
              (seq 1 32))
            (seq 0 5))
          Kernel.types = true.
Proof. vm_compute. reflexivity. Qed.

(** ... and the clocks they accumulate over sixty ticks of a thirtieth of
    a second read the same, just above 2. *)
Lemma clock_agrees_with_kernel_doubles :
  let tick := (1 / 30)%float in
  (Binary64.of_float (Kernel.clock (replicate 60 tick))
   == foldl Binary64.add 0 (replicate 60 (Binary64.of_float tick)))%Q
  /\ (2 < foldl Binary64.add 0 (replicate 60 (Binary64.of_float tick)))%Q
  /\ (foldl Qplus 0 (replicate 60 (Binary64.of_float tick)) <= 2)%Q.
Proof. vm_compute. repeat split; discriminate. Qed.

(** The prices of the shop are the same on doubles, up to level 69. *)
Lemma price_on_doubles :
  forallb (fun level =>
    forallb (fun base =>
               (Qfloor (Binary64.mul (inject_Z (Artifact.cost base))
                                     (App.scoreMult (Z.of_nat level)))
                =? Qfloor (inject_Z (Artifact.cost base) * (3 # 2) ^ Z.of_nat level))%Z)
            SHOP_ARTIFACTS)
          (seq 0 70) = true.
Proof. vm_compute. reflexivity. Qed.

(** ** Progression counters and owned artifacts *)

Lemma counters_sane_initial : counters_sane App.INITIAL_STATE.
Proof. unfold counters_sane. cbn. lia. Qed.

Lemma owned_sane_initial : owned_sane App.INITIAL_STATE.
Proof. split; cbn; [constructor|]. intros a Ha. inversion Ha. Qed.

Lemma owned_sane_artifacts (g g' : GameState.t) :
  GameState.artifacts g' = GameState.artifacts g -> owned_sane g -> owned_sane g'.
Proof. unfold owned_sane. intros ->. tauto. Qed.

Lemma pow15_ge_1 (l : Z) : (0 <= l)%Z -> (1 <= (3 # 2) ^ l)%Q.
Proof. intros H. apply Qpower_1_le; [lra | exact H]. Qed.

Lemma tenth_pos : (0 < App.tenth)%Q.
Proof. vm_compute. reflexivity. Qed.

Lemma bonusMult_ge_1 (l : Z) : (1 <= l)%Z -> (1 <= App.bonusMult l)%Q.
Proof.
  intros H. unfold App.bonusMult, Binary64.add, Binary64.mul, Binary64.sub.
  assert (H1 : (inject_Z 1 <= inject_Z l)%Q) by (rewrite <- Zle_Qle; exact H).
  change (inject_Z 1) with 1%Q in H1.
  assert (H2 : (0 <= Binary64.round (inject_Z l - 1))%Q) by (apply round_nonneg; lra).
  pose proof tenth_pos as H3.
  assert (H4 : (0 <= Binary64.round (App.tenth * Binary64.round (inject_Z l - 1)))%Q).
  { apply round_nonneg. apply Qmult_le_0_compat; lra. }
  apply round_ge_1. lra.
Qed.

Lemma scoreMult_ge_1 (l : Z) : (0 <= l)%Z -> (1 <= App.scoreMult l)%Q.
Proof. intros H. apply round_ge_1, pow15_ge_1, H. Qed.

Lemma config_score_nonneg (type : CoinType) :
  (0 <= DeckItem.score (COIN_CONFIG type))%Z.
Proof. destruct type; cbn; lia. Qed.

(** The configured scores are doubles. *)
Lemma config_score_exact (type : CoinType) :
  (Binary64.round (inject_Z (DeckItem.score (COIN_CONFIG type)))
   == inject_Z (DeckItem.score (COIN_CONFIG type)))%Q.
Proof. destruct type; vm_compute; reflexivity. Qed.

(** The multipliers never shrink a payout, on doubles either: rounding is
    monotone and the configured score is a double. *)
Lemma payout_ge_base (type : CoinType) (l bl : Z) :
  (0 <= l)%Z -> (1 <= bl)%Z ->
  (DeckItem.score (COIN_CONFIG type)
   <= App.payout (DeckItem.score (COIN_CONFIG type)) l bl)%Z.
Proof.
  intros Hl Hbl. unfold App.payout, Binary64.mul.
  set (s := DeckItem.score (COIN_CONFIG type)).
  rewrite <- (Qfloor_Z s) at 1. apply Qfloor_resp_le.
  pose proof (scoreMult_ge_1 l Hl) as H1. pose proof (bonusMult_ge_1 bl Hbl) as H2.
  pose proof (config_score_exact type) as Hs. fold s in Hs.
  assert (H0 : (0 <= inject_Z s)%Q).
  { change 0%Q with (inject_Z 0). rewrite <- Zle_Qle. apply config_score_nonneg. }
  assert (H3 : (inject_Z s <= Binary64.round (inject_Z s * App.scoreMult l))%Q).
  { rewrite <- Hs at 1. apply round_mono.
    assert (inject_Z s * 1 <= inject_Z s * App.scoreMult l)%Q; [|lra].
    apply Qmult_le_compat_nonneg; split; lra. }
  rewrite <- Hs at 1. apply round_mono.
  set (x := Binary64.round (inject_Z s * App.scoreMult l)) in *.
  assert (x * 1 <= x * App.bonusMult bl)%Q; [|lra].
  apply Qmult_le_compat_nonneg; split; lra.
Qed.

Lemma artifactLevel_nonneg (id : string) (g : GameState.t) :
  owned_sane g -> (0 <= App.artifactLevel id (GameState.artifacts g))%Z.
Proof.
  intros [_ H]. unfold App.artifactLevel.
  destruct (App.findArtifact id (GameState.artifacts g)) as [a|] eqn:Ha; [|lia].
  apply findArtifact_Some in Ha as [Ha _]. destruct (H a Ha) as [Hl _]. lia.
Qed.

Lemma findIndex_None_notin (id : string) (l : list Artifact.t) :
  App.findIndex id l = None -> id ∉ map Artifact.id l.
Proof.
  induction l as [|b l IH]; intros H Hin; [inversion Hin|].
  cbn in H, Hin. destruct (String.eqb_spec (Artifact.id b) id) as [Heq|Hne];
    [discriminate H|].
  destruct (App.findIndex id l); [discriminate H|].
  apply elem_of_cons in Hin as [Hin | Hin]; [congruence|]. exact (IH eq_refl Hin).
Qed.

Lemma decayUpdater_counters (d : Q) (g : GameState.t) :
  counters_sane g -> counters_sane (App.decayUpdater d g).
Proof.
  intros H. unfold App.decayUpdater. destruct (Qle_bool _ 0); [exact H|].
  unfold counters_sane in *. cbn. destruct (Qeq_bool _ 0); lia.
Qed.

Lemma buyUpdater_counters (item : App.Item) (cost : Z) (g : GameState.t) :
  counters_sane g -> counters_sane (App.buyUpdater item cost g).
Proof. intros H. destruct item; exact H. Qed.

Lemma buyUpdater_owned (item : App.Item) (cost : Z) (g : GameState.t) :
  owned_sane g -> owned_sane (App.buyUpdater item cost g).
Proof.
  intros Hg. destruct item as [type | id]; [exact Hg|].
  destruct Hg as [Hnd Hall]. unfold owned_sane.
  cbn [App.buyUpdater GameState.artifacts].
  destruct (App.findIndex id (GameState.artifacts g)) as [i|] eqn:Hi.
  - destruct (findIndex_Some _ _ _ Hi) as (a & Ha & _ & _). rewrite Ha.
    destruct (upgrade_found id _ i a (Artifact.level a + 1) Hi Ha) as [_ Hids].
    rewrite Hids. split; [exact Hnd|]. intros x Hx.
    apply list_elem_of_lookup in Hx as [j Hj].
    destruct (decide (i = j)) as [<- | Hne].
    + rewrite list_lookup_insert_eq in Hj by (eapply lookup_lt_Some; exact Ha).
      injection Hj as <-.
      destruct (Hall a) as [Hl (base & Hb & Heq)];
        [apply list_elem_of_lookup; eauto|].
      split; [cbn; lia|]. exists base. split; [exact Hb|].
      rewrite Heq at 2. reflexivity.
    + rewrite list_lookup_insert_ne in Hj by exact Hne.
      apply Hall. apply list_elem_of_lookup. eauto.
  - destruct (App.findArtifact id SHOP_ARTIFACTS) as [base|] eqn:Hbase;
      [|split; assumption].
    apply findArtifact_Some in Hbase as [Hb Hid].
    split.
    + rewrite map_app. apply NoDup_app. split; [exact Hnd|].
      split; [|apply NoDup_singleton].
      intros x Hx Hx'. cbn in Hx'. apply list_elem_of_singleton in Hx'. subst x.
      rewrite Hid in Hx. exact (findIndex_None_notin _ _ Hi Hx).
    + intros x Hx. apply elem_of_app in Hx as [Hx | Hx]; [exact (Hall x Hx)|].
      apply list_elem_of_singleton in Hx. subst x.
      split; [cbn; lia|]. exists base. split; [exact Hb | reflexivity].
Qed.

(** Every event keeps the progression invariant. *)
Lemma handle_progression_inv (ev : Event) (a : App.t) :
  progression_inv a -> progression_inv (handle ev a).
Proof.
  intros (Hc & Hcr & Ho & Hor).
  pose proof counters_sane_initial as Hc0. pose proof owned_sane_initial as Ho0.
  destruct ev as [ | b | d | | draw | | type r | dims draw | r c | id type
                   | | | item cost | base | coin ]; cbn [handle].
  - exact (conj Hc (conj Hc (conj Ho Ho))).
  - exact (conj Hc (conj Hcr (conj Ho Hor))).
  - exact (conj Hc (conj Hcr (conj Ho Hor))).
  - unfold App.decayInterval.
    destruct (negb _ || negb _);
      [exact (conj Hc (conj Hcr (conj Ho Hor)))|].
    destruct (Qle_bool (_ - _) 2);
      [exact (conj Hc (conj Hcr (conj Ho Hor)))|].
    destruct (Qle_bool (_ - _) 0);
      [exact (conj Hc (conj Hcr (conj Ho Hor)))|].
    unfold progression_inv.
    cbn [App.setGameState App.setClocks App.gameState App.gameStateRef].
    split; [apply decayUpdater_counters; exact Hc|]. split; [exact Hcr|].
    split; [|exact Hor].
    apply (owned_sane_artifacts (App.gameState a)); [|exact Ho].
    apply decayUpdater_artifacts.
  - exact (conj Hc0 (conj Hcr (conj Ho0 Hor))).
  - exact (conj Hc0 (conj Hcr (conj Ho0 Hor))).
  - unfold App.handleCoinDrop, App.spawnCoin.
    destruct (negb false && _);
      exact (conj Hc (conj Hcr (conj Ho Hor))).
  - unfold App.runTimeout. destruct (App.timeouts a);
      exact (conj Hc (conj Hcr (conj Ho Hor))).
  - exact (conj Hc (conj Hcr (conj Ho Hor))).
  - unfold App.handleCoinCollected, progression_inv.
    cbn [App.setGameState App.setCoinState App.setClocks App.gameStateRef].
    assert (Hgain : (0 <= App.payout (DeckItem.score (COIN_CONFIG type))
                            (App.artifactLevel "mult"
                               (GameState.artifacts (App.gameStateRef a)))
                            (GameState.bonusLevel (App.gameStateRef a)))%Z).
    { etransitivity; [apply (config_score_nonneg type)|].
      apply payout_ge_base; [apply artifactLevel_nonneg, Hor | apply Hcr]. }
    destruct Hc as (H1 & H2 & H3 & H4). pose proof Hcr as (R1 & R2 & R3 & R4).
    destruct (Qle_bool 100 (GameState.bonus (App.gameStateRef a) + 4));
      cbn [App.setGameState App.setTimeouts App.setClocks App.setCoinState
           App.gameState App.gameStateRef];
      (split; [unfold counters_sane;
               cbn [GameState.score GameState.bonusLevel GameState.ante
                    GameState.targetScore]; lia|]);
      exact (conj Hcr (conj Ho Hor)).
  - unfold App.handleRoundEnd, progression_inv.
    destruct Hc as (H1 & H2 & H3 & H4).
    destruct (_ <=? _)%Z;
      cbn [App.setGameState App.gameState App.gameStateRef];
      (split; [unfold counters_sane; cbn; lia|]);
      (split; [exact Hcr|]); (split; [exact Ho | exact Hor]).
  - unfold App.nextRound, progression_inv.
    cbn [App.setGameState App.setClocks App.gameState App.gameStateRef].
    destruct Hc as (H1 & H2 & H3 & H4).
    split; [|split; [exact Hcr|]; split; [exact Ho | exact Hor]].
    unfold counters_sane.
    cbn [GameState.score GameState.bonusLevel GameState.ante GameState.targetScore].
    assert (GameState.targetScore (App.gameState a)
            <= Qfloor (inject_Z (GameState.targetScore (App.gameState a)) * (3 # 2)))%Z.
    { rewrite <- (Qfloor_Z (GameState.targetScore (App.gameState a))) at 1.
      apply Qfloor_resp_le.
      assert (0 <= inject_Z (GameState.targetScore (App.gameState a)))%Q.
      { change 0%Q with (inject_Z 0). rewrite <- Zle_Qle. lia. }
      lra. }
    lia.
  - unfold App.buyItem. destruct (_ <=? _)%Z;
      [|exact (conj Hc (conj Hcr (conj Ho Hor)))].
    unfold progression_inv.
    cbn [App.setGameState App.gameState App.gameStateRef].
    split; [apply buyUpdater_counters; exact Hc|]. split; [exact Hcr|].
    split; [apply buyUpdater_owned; exact Ho | exact Hor].
  - unfold Shop.pressArtifact, App.buyItem.
    destruct (_ <=? _)%Z;
      [|exact (conj Hc (conj Hcr (conj Ho Hor)))].
    unfold progression_inv.
    cbn [App.setGameState App.gameState App.gameStateRef].
    split; [apply buyUpdater_counters; exact Hc|]. split; [exact Hcr|].
    split; [apply buyUpdater_owned; exact Ho | exact Hor].
  - unfold Shop.pressCoin, App.buyItem.
    destruct (_ <=? _)%Z;
      [|exact (conj Hc (conj Hcr (conj Ho Hor)))].
    unfold progression_inv.
    cbn [App.setGameState App.gameState App.gameStateRef].
    split; [apply buyUpdater_counters; exact Hc|]. split; [exact Hcr|].
    split; [apply buyUpdater_owned; exact Ho | exact Hor].
Qed.

Lemma run_progression_inv (evs : list Event) (a : App.t) :
  progression_inv a -> progression_inv (run evs a).
Proof.
  revert a. induction evs as [|ev evs IH]; intros a H; [exact H|].
  cbn. apply IH, handle_progression_inv, H.
Qed.

Lemma reachable_progression_inv (a : App.t) : reachable a -> progression_inv a.
Proof.
  intros [evs <-]. apply run_progression_inv.
  exact (conj counters_sane_initial
           (conj counters_sane_initial (conj owned_sane_initial owned_sane_initial))).
Qed.

(** X11.  The progression invariant holds in every reachable state of the
    application, for the state being built and for the state last rendered:
    the score is never negative, the bonus level and the ante are at least 1,
    the target score is at least the initial 2000, no artifact is owned
    twice, and every owned artifact is an entry of the catalog, switched on,
    at a level of at least 1. *)
Theorem reachable_states_keep_progression_invariant (a : App.t) :
  reachable a -> progression_inv a.
Proof. apply reachable_progression_inv. Qed.

Lemma nearlyFull_reachable : reachable Scenario.nearlyFull.
Proof.
  exists ([StartGame Sample.draw; Render] ++ Scenario.falls).
  unfold Scenario.nearlyFull, Scenario.started, run. apply foldl_app.
Qed.

Lemma reachable_states_keep_progression_invariant_witness :
  reachable Scenario.nearlyFull /\ progression_inv Scenario.nearlyFull.
Proof.
  split; [exact nearlyFull_reachable|].
  apply (reachable_states_keep_progression_invariant _ nearlyFull_reachable).
Defined.

(** ** What a collection pays *)








(** X12.  In every reachable state, a collection never lowers the score and
    pays at least the base score of the collected type: the artifact and
    bonus multipliers are never below 1. *)
Theorem collection_pays_at_least_the_base_score
    (id : string) (type : CoinType) (a : App.t) :
  reachable a ->
  let a' := App.handleCoinCollected id type a in
  (GameState.score (App.gameState a) + DeckItem.score (COIN_CONFIG type)
   <= GameState.score (App.gameState a'))%Z
  /\ (GameState.score (App.gameState a) <= GameState.score (App.gameState a'))%Z.
Proof.
  intros Hr. apply reachable_progression_inv in Hr as (_ & Hcr & _ & Hor).
  cbn zeta. unfold App.handleCoinCollected.
  cbn [App.setGameState App.setCoinState App.setClocks App.gameStateRef
       App.gameState GameState.score].
  pose proof (config_score_nonneg type) as H0.
  pose proof (payout_ge_base type
                (App.artifactLevel "mult" (GameState.artifacts (App.gameStateRef a)))
                (GameState.bonusLevel (App.gameStateRef a))
                (artifactLevel_nonneg "mult" _ Hor) (proj1 (proj2 Hcr))) as H1.
  destruct (Qle_bool 100 (GameState.bonus (App.gameStateRef a) + 4));
    cbn [App.setGameState App.setCoinState App.setClocks App.setTimeouts
         App.gameState GameState.score]; lia.
Qed.

Lemma collection_pays_at_least_the_base_score_witness :
  let a' := App.handleCoinCollected "x" GOLD Scenario.nearlyFull in
  (GameState.score (App.gameState Scenario.nearlyFull) + 1000
   <= GameState.score (App.gameState a'))%Z.
Proof.
  exact (proj1 (collection_pays_at_least_the_base_score "x" GOLD Scenario.nearlyFull
                  nearlyFull_reachable)).
Defined.

(** ** The progress bar and the end of a round *)

Lemma inject_Z_pos (z : Z) : (0 < z)%Z -> (0 < inject_Z z)%Q.
Proof. intros H. change 0%Q with (inject_Z 0). rewrite <- Zlt_Qlt. exact H. Qed.

Lemma inject_Z_nonneg (z : Z) : (0 <= z)%Z -> (0 <= inject_Z z)%Q.
Proof. intros H. change 0%Q with (inject_Z 0). rewrite <- Zle_Qle. exact H. Qed.

(** The fraction shown reaches 100 exactly when the score reaches the
    target. *)
Lemma progress_fraction_full (s t : Z) :
  (0 < t)%Z ->
  (100 <= inject_Z s / inject_Z t * 100)%Q <-> (t <= s)%Z.
Proof.
  intros Ht. pose proof (inject_Z_pos t Ht) as HT.
  assert (E : (inject_Z s / inject_Z t * inject_Z t == inject_Z s)%Q).
  { field. lra. }
  rewrite Zle_Qle. set (y := (inject_Z s / inject_Z t)%Q) in *. split; intros H.
  - assert (1 <= y)%Q by lra. nra.
  - assert (1 <= y)%Q; [|lra].
    destruct (Qlt_le_dec y 1) as [Hlt|Hge]; [|exact Hge]. exfalso. nra.
Qed.

Lemma progress_fraction_nonneg (s t : Z) :
  (0 <= s)%Z -> (0 < t)%Z -> (0 <= inject_Z s / inject_Z t * 100)%Q.
Proof.
  intros Hs Ht. pose proof (inject_Z_pos t Ht) as HT.
  pose proof (inject_Z_nonneg s Hs) as HS.
  assert (0 <= inject_Z s / inject_Z t)%Q; [|lra].
  apply Qle_shift_div_l; [exact HT | lra].
Qed.

Lemma progress_full_iff (g : GameState.t) :
  (0 < GameState.targetScore g)%Z ->
  GameHUD.progress g = Some 100%Q
  <-> (GameState.targetScore g <= GameState.score g)%Z.
Proof.
  intros Ht. unfold GameHUD.progress, Math_min100.
  destruct (Z.eqb_spec (GameState.targetScore g) 0) as [E|_]; [lia|].
  rewrite <- (progress_fraction_full _ _ Ht).
  destruct (Qle_bool 100 _) eqn:Hb.
  - apply Qle_bool_iff in Hb. tauto.
  - apply Qle_bool_false in Hb. split.
    + intros E.
      assert (E' := f_equal (fun o => match o with Some q => q | None => 0%Q end) E).
      cbn beta iota in E'. rewrite E' in Hb. lra.
    + intros H. lra.
Qed.

(** X13.  The progress bar and the end of the round agree.  In every
    reachable state the bar of the HUD shows a fraction between 0 and 100;
    it shows exactly 100 when the score has reached the target, and ending
    the round on the rendered state opens the shop exactly then, and is
    game over otherwise. *)
Theorem full_progress_bar_opens_the_shop (a : App.t) :
  reachable a ->
  let g := App.gameState a in
  let a' := App.handleRoundEnd (App.render a) in
  (exists q, GameHUD.progress g = Some q /\ (0 <= q)%Q /\ (q <= 100)%Q)
  /\ (GameHUD.progress g = Some 100%Q
      <-> (GameState.targetScore g <= GameState.score g)%Z)
  /\ (GameState.phase (App.gameState a') = SHOP
      <-> GameHUD.progress g = Some 100%Q)
  /\ (GameState.phase (App.gameState a') = GAME_OVER
      <-> GameHUD.progress g <> Some 100%Q).
Proof.
  intros Hr. apply reachable_progression_inv in Hr as ((Hs & _ & _ & Ht) & _).
  cbn zeta. set (g := App.gameState a) in *.
  assert (Ht' : (0 < GameState.targetScore g)%Z) by lia.
  pose proof (progress_full_iff g Ht') as Hfull.
  split; [|split; [exact Hfull|]].
  - unfold GameHUD.progress, Math_min100.
    destruct (Z.eqb_spec (GameState.targetScore g) 0) as [E|_]; [lia|].
    pose proof (progress_fraction_nonneg _ _ Hs Ht') as H0.
    destruct (Qle_bool 100 _) eqn:Hb.
    + exists 100%Q. repeat split; lra.
    + apply Qle_bool_false in Hb. eexists. split; [reflexivity|]. split; lra.
  - rewrite Hfull. unfold App.handleRoundEnd.
    cbn [App.render App.gameStateRef]. fold g.
    destruct (Z.leb_spec (GameState.targetScore g) (GameState.score g)) as [H|H];
      cbn [App.setGameState App.gameState GameState.phase].
    + split; split; first [intros _; first [reflexivity | exact H]
                          | discriminate | intros E; exfalso; apply E; exact H | lia].
    + split; split; first [discriminate | lia | intros _; first [reflexivity | lia]].
Qed.

Lemma full_progress_bar_opens_the_shop_witness :
  GameHUD.progress (App.gameState Scenario.nearlyFull) = Some 100%Q
  /\ GameState.phase
       (App.gameState (App.handleRoundEnd (App.render Scenario.nearlyFull)))
     = SHOP.
Proof.
  destruct (full_progress_bar_opens_the_shop Scenario.nearlyFull nearlyFull_reachable)
    as (_ & Hfull & Hshop & _).
  assert (H : GameHUD.progress (App.gameState Scenario.nearlyFull) = Some 100%Q).
  { apply Hfull. vm_compute. discriminate. }
  split; [exact H|]. apply Hshop. exact H.
Defined.

(** ** Prices *)

Lemma Qfloor_step (x y : Q) : (x + 1 <= y)%Q -> (Qfloor x < Qfloor y)%Z.
Proof.
  intros H. enough (Qfloor x + 1 <= Qfloor y)%Z by lia.
  rewrite <- (Qfloor_Z (Qfloor x + 1)). apply Qfloor_resp_le.
  rewrite inject_Z_plus. pose proof (Qfloor_le x) as Hx.
  change (inject_Z 1) with 1%Q. lra.
Qed.

Lemma price_ge_base (c L : Z) :
  (0 <= c)%Z -> (0 <= L)%Z -> (c <= Qfloor (inject_Z c * (3 # 2) ^ L))%Z.
Proof.
  intros Hc HL. rewrite <- (Qfloor_Z c) at 1. apply Qfloor_resp_le.
  pose proof (pow15_ge_1 L HL) as Hp.
  pose proof (inject_Z_nonneg c Hc) as H0. nra.
Qed.

Lemma price_step (c L : Z) :
  (2 <= c)%Z -> (0 <= L)%Z ->
  (Qfloor (inject_Z c * (3 # 2) ^ L) < Qfloor (inject_Z c * (3 # 2) ^ (L + 1)))%Z.
Proof.
  intros Hc HL. apply Qfloor_step.
  pose proof (pow15_ge_1 L HL) as Hp.
  assert (E : ((3 # 2) ^ (L + 1) == (3 # 2) ^ L * (3 # 2))%Q).
  { rewrite Qpower_plus by (intros E; discriminate E). reflexivity. }
  rewrite E.
  assert (H2 : (2 <= inject_Z c)%Q).
  { change 2%Q with (inject_Z 2). rewrite <- Zle_Qle. exact Hc. }
  nra.
Qed.

Lemma catalog_cost (base : Artifact.t) :
  base ∈ SHOP_ARTIFACTS -> (300 <= Artifact.cost base)%Z.
Proof.
  intros H. unfold SHOP_ARTIFACTS in H.
  repeat (apply elem_of_cons in H as [-> | H]; [cbn; lia|]).
  inversion H.
Qed.

(** X14.  Artifact prices in reachable states.  The price shown for an
    artifact of the catalog is never below its base cost; if the rendered
    cash does not cover it, pressing its button changes nothing; otherwise
    the press takes exactly the price and the next price is strictly
    higher. *)
Theorem artifact_price_rises_with_every_purchase (base : Artifact.t) (a : App.t) :
  reachable a -> base ∈ SHOP_ARTIFACTS ->
  let g := App.gameState a in
  let a' := Shop.pressArtifact base (App.render a) in
  (Artifact.cost base <= Shop.currentCost base g)%Z
  /\ ((GameState.cash g < Shop.currentCost base g)%Z -> a' = App.render a)
  /\ ((Shop.currentCost base g <= GameState.cash g)%Z ->
      GameState.cash (App.gameState a')
      = (GameState.cash g - Shop.currentCost base g)%Z
      /\ (Shop.currentCost base g < Shop.currentCost base (App.gameState a'))%Z).
Proof.
  intros Hr Hbase. apply reachable_progression_inv in Hr as (_ & _ & Ho & _).
  cbn zeta. set (g := App.gameState a) in *.
  pose proof (artifactLevel_nonneg (Artifact.id base) g Ho) as HL.
  pose proof (catalog_cost base Hbase) as Hcost.
  destruct (catalog_find base Hbase) as [Hfind _].
  split; [|split].
  - apply price_ge_base; lia.
  - intros Hlt. unfold Shop.pressArtifact. cbn [App.render App.gameStateRef]. fold g.
    destruct (Z.leb_spec (Shop.currentCost base g) (GameState.cash g)); [lia|].
    reflexivity.
  - intros Hle. unfold Shop.pressArtifact, App.buyItem.
    cbn [App.render App.gameStateRef]. fold g.
    destruct (Z.leb_spec (Shop.currentCost base g) (GameState.cash g)); [|lia].
    cbn [App.setGameState App.gameState App.render]. fold g.
    destruct (buyUpdater_level (Artifact.id base) (Shop.currentCost base g) g base
                Hfind) as [Hcash Hlevel].
    split; [exact Hcash|].
    rewrite (currentCost_at_level base _ _ Hlevel).
    apply price_step; lia.
Qed.

Lemma artifact_price_rises_with_every_purchase_witness :
  let base := Artifact.mk "mult" "Score Multiplier" "Score x1.5 per level."
                800 false 0 in
  let a := run (map (fun id => Collected id GOLD)
                  ["a"; "b"; "c"; "d"; "e"; "f"; "g"; "h"]) App.initial in
  (800 <= Shop.currentCost base (App.gameState a))%Z
  /\ (Shop.currentCost base (App.gameState a)
      < Shop.currentCost base
          (App.gameState (Shop.pressArtifact base (App.render a))))%Z.
Proof.
  intros base a.
  assert (Hr : reachable a) by (eexists; reflexivity).
  assert (Hb : base ∈ SHOP_ARTIFACTS) by (repeat constructor).
  destruct (artifact_price_rises_with_every_purchase base a Hr Hb) as (H1 & _ & H3).
  split; [exact H1|]. apply H3. vm_compute. discriminate.
Defined.

(** ** The drop button *)

(** X15.  The drop button on a rendered state.  With no coin of the type
    left in the deck (a count of zero, where the button is disabled, or
    below zero, where the handler refuses) the press changes nothing.
    Otherwise it takes exactly one coin of that type from the deck, leaves
    the other counts alone, and appends one coin of that type to the
    registry, under the drawn id, at the drawn spot. *)
Theorem drop_button_spends_one_coin_of_the_deck
    (type : CoinType) (r : Rnd) (a : App.t) :
  let b := App.render a in
  let a' := GameHUD.pressDrop type r b in
  let count := GameState.deck (App.gameState a) type in
  ((count <= 0)%Z -> a' = b)
  /\ ((0 < count)%Z ->
      GameState.deck (App.gameState a') type = (count - 1)%Z
      /\ (forall t', t' <> type ->
            GameState.deck (App.gameState a') t' = GameState.deck (App.gameState a) t')
      /\ App.coinOrder (App.coinState a')
         = App.coinOrder (App.coinState a) ++ [digits r]
      /\ App.coinMap (App.coinState a') !! digits r
         = Some (CoinData.mk (digits r) type (spot r) (0%float, angle r, 0%float)
                   None None)).
Proof.
  cbn zeta. unfold GameHUD.pressDrop, App.handleCoinDrop, App.spawnCoin.
  cbn [App.render App.gameStateRef negb andb].
  split.
  - intros H. destruct (Z.eqb_spec (GameState.deck (App.gameState a) type) 0);
      [reflexivity|].
    destruct (Z.leb_spec (GameState.deck (App.gameState a) type) 0); [reflexivity|lia].
  - intros H. destruct (Z.eqb_spec (GameState.deck (App.gameState a) type) 0); [lia|].
    destruct (Z.leb_spec (GameState.deck (App.gameState a) type) 0); [lia|].
    cbn [App.setGameState App.setCoinState App.gameState App.coinState
         GameState.deck App.spawnUpdater App.coinOrder App.coinMap CoinData.id
         String.append].
    split; [rewrite decide_True by reflexivity; reflexivity|].
    split; [intros t' Ht'; rewrite decide_False by exact Ht'; reflexivity|].
    split; [reflexivity|]. apply lookup_insert_eq.
Qed.

(** ** The decay of the bonus meter *)

Lemma Math_max0_le_self (q : Q) : (0 <= q)%Q -> (Math_max0 q <= q)%Q.
Proof. intros H. apply Math_max0_le; [exact H | lra]. Qed.

Lemma decayUpdater_effect (d : Q) (g : GameState.t) :
  (0 < d)%Q ->
  let g' := App.decayUpdater d g in
  (GameState.bonus g' <= GameState.bonus g)%Q
  /\ (GameState.bonusLevel g' = GameState.bonusLevel g
      \/ (GameState.bonusLevel g' = 1%Z /\ (GameState.bonus g' == 0)%Q))
  /\ g' = GameState.mk (GameState.phase g) (GameState.score g)
            (GameState.targetScore g) (GameState.cash g) (GameState.ante g)
            (GameState.deck g) (GameState.artifacts g)
            (GameState.bonus g') (GameState.bonusLevel g').
Proof.
  intros Hd. cbn zeta. unfold App.decayUpdater.
  destruct (Qle_bool (GameState.bonus g) 0) eqn:Hb.
  - split; [lra|]. split; [left; reflexivity|]. destruct g; reflexivity.
  - apply Qle_bool_false in Hb. cbn [GameState.bonus GameState.bonusLevel].
    split.
    + unfold Math_max0, App.decayRatePerSecond.
      destruct (Qle_bool _ 0); lra.
    + split; [|reflexivity].
      destruct (Qeq_bool _ 0) eqn:He; [right | left; reflexivity].
      split; [reflexivity|]. apply Qeq_bool_iff. exact He.
Qed.

(** X16.  One firing of the decay interval never raises the bonus meter and
    touches nothing of the game but the meter and the bonus level: the
    level is kept, or falls back to 1 when the meter has reached 0.  The
    registry is left alone.  Outside the PLAYING phase, with the tab
    inactive, or within two seconds (of physics time) of the last
    collection, the firing leaves the game state as it is. *)
Theorem bonus_decay_only_lowers_the_meter (a : App.t) :
  let g := App.gameState a in
  let a' := App.decayInterval a in
  let g' := App.gameState a' in
  (GameState.bonus g' <= GameState.bonus g)%Q
  /\ (GameState.bonusLevel g' = GameState.bonusLevel g
      \/ (GameState.bonusLevel g' = 1%Z /\ (GameState.bonus g' == 0)%Q))
  /\ g' = GameState.mk (GameState.phase g) (GameState.score g)
            (GameState.targetScore g) (GameState.cash g) (GameState.ante g)
            (GameState.deck g) (GameState.artifacts g)
            (GameState.bonus g') (GameState.bonusLevel g')
  /\ App.coinState a' = App.coinState a
  /\ (GameState.phase (App.gameStateRef a) <> PLAYING
      \/ App.isTabActive a = false
      \/ (App.physicsTime a - App.lastScoreTime a <= 2)%Q -> g' = g).
Proof.
  cbn zeta.
  assert (Hsame : forall g : GameState.t,
            (GameState.bonus g <= GameState.bonus g)%Q
            /\ (GameState.bonusLevel g = GameState.bonusLevel g
                \/ (GameState.bonusLevel g = 1%Z /\ (GameState.bonus g == 0)%Q))
            /\ g = GameState.mk (GameState.phase g) (GameState.score g)
                     (GameState.targetScore g) (GameState.cash g) (GameState.ante g)
                     (GameState.deck g) (GameState.artifacts g)
                     (GameState.bonus g) (GameState.bonusLevel g)).
  { intros g. split; [lra|]. split; [left; reflexivity|]. destruct g; reflexivity. }
  unfold App.decayInterval.
  destruct (bool_decide (GameState.phase (App.gameStateRef a) = PLAYING)) eqn:Hp;
    cbn [negb orb].
  2: { destruct (Hsame (App.gameState a)) as (H1 & H2 & H3). auto 10. }
  apply bool_decide_eq_true in Hp.
  destruct (App.isTabActive a) eqn:Ht; cbn [negb].
  2: { destruct (Hsame (App.gameState a)) as (H1 & H2 & H3). auto 10. }
  destruct (Qle_bool (App.physicsTime a - App.lastScoreTime a) 2) eqn:Hs.
  { destruct (Hsame (App.gameState a)) as (H1 & H2 & H3).
    cbn [App.setClocks App.gameState App.coinState]. auto 10. }
  apply Qle_bool_false in Hs.
  destruct (Qle_bool (App.physicsTime a - App.lastBonusDecayTime a) 0) eqn:Hd.
  { destruct (Hsame (App.gameState a)) as (H1 & H2 & H3).
    split; [exact H1|]. split; [exact H2|]. split; [exact H3|].
    split; [reflexivity|]. intros [H | [H | H]]; [contradiction | discriminate | lra]. }
  apply Qle_bool_false in Hd.
  cbn [App.setGameState App.setClocks App.gameState App.coinState].
  destruct (decayUpdater_effect _ (App.gameState a) Hd) as (H1 & H2 & H3).
  split; [exact H1|]. split; [exact H2|]. split; [exact H3|].
  split; [reflexivity|]. intros [H | [H | H]]; [contradiction | discriminate | lra].
Qed.

Lemma physicsTime_ticks (ds : list Q) (a : App.t) :
  let a' := run (map PhysicsTick ds) a in
  App.physicsTime a' = foldl Binary64.add (App.physicsTime a) ds
  /\ App.gameState a' = App.gameState a
  /\ App.gameStateRef a' = App.gameStateRef a
  /\ App.isTabActive a' = App.isTabActive a
  /\ App.lastScoreTime a' = App.lastScoreTime a.
Proof.
  revert a. induction ds as [|d ds IH]; intros a; [cbn; auto|].
  cbn zeta in *.
  destruct (IH (handle (PhysicsTick d) a)) as (H1 & H2 & H3 & H4 & H5).
  change (run (map PhysicsTick (d :: ds)) a)
    with (run (map PhysicsTick ds) (handle (PhysicsTick d) a)).
  rewrite H1, H2, H3, H4, H5. cbn. auto.
Qed.

(** X17.  A collection pauses the decay.  The physics clock is a double
    to which every tick adds its delta, rounding each sum.  As long as the
    clock so accumulated reads no more than two seconds past its reading at
    a collection, a firing of the decay interval leaves the game state as
    the collection left it. *)
Theorem collection_pauses_the_decay
    (id : string) (type : CoinType) (ds : list Q) (a : App.t) :
  (foldl Binary64.add (App.physicsTime a) ds - App.physicsTime a <= 2)%Q ->
  let a1 := App.handleCoinCollected id type a in
  let a2 := run (map PhysicsTick ds) a1 in
  App.gameState (App.decayInterval a2) = App.gameState a1.
Proof.
  intros H. cbn zeta.
  destruct (physicsTime_ticks ds (App.handleCoinCollected id type a))
    as (H1 & H2 & H3 & H4 & H5).
  set (a2 := run (map PhysicsTick ds) (App.handleCoinCollected id type a)) in *.
  assert (Ht : App.physicsTime (App.handleCoinCollected id type a) = App.physicsTime a).
  { unfold App.handleCoinCollected.
    cbn [App.setGameState App.setCoinState App.setClocks App.gameStateRef
         App.physicsTime].
    destruct (Qle_bool 100 _); reflexivity. }
  assert (Hl : App.lastScoreTime (App.handleCoinCollected id type a)
               = App.physicsTime a).
  { unfold App.handleCoinCollected.
    cbn [App.setGameState App.setCoinState App.setClocks App.gameStateRef
         App.physicsTime App.lastScoreTime].
    destruct (Qle_bool 100 _); reflexivity. }
  rewrite <- H2. unfold App.decayInterval.
  destruct (negb _ || negb _); [reflexivity|].
  rewrite H1, H5, Ht, Hl. rewrite (Qle_bool_true _ _ H). reflexivity.
Qed.

Lemma collection_pauses_the_decay_witness :
  let tick := Binary64.of_float (1 / 30)%float in
  let a1 := App.handleCoinCollected "start-0" STANDARD Scenario.started in
  let a2 := run (map PhysicsTick (replicate 59 tick)) a1 in
  App.gameState (App.decayInterval a2) = App.gameState a1.
Proof.
  intros tick.
  apply (collection_pauses_the_decay "start-0" STANDARD (replicate 59 tick)
           Scenario.started).
  vm_compute. discriminate.
Defined.

(** ** The jackpot burst *)

Lemma Math_round_half (k : Z) (q : Q) : (q == inject_Z k)%Q -> Math_round q = k.
Proof.
  intros E. unfold Math_round.
  pose proof (Qfloor_le (q + (1 # 2))) as Hle.
  pose proof (Qlt_floor (q + (1 # 2))) as Hlt.
  assert (H1 : (inject_Z (Qfloor (q + (1 # 2))) < inject_Z (k + 1))%Q).
  { rewrite inject_Z_plus. change (inject_Z 1) with 1%Q. lra. }
  assert (H2 : (inject_Z k < inject_Z (Qfloor (q + (1 # 2)) + 1))%Q) by lra.
  rewrite <- Zlt_Qlt in H1, H2. lia.
Qed.

Lemma jackpot_base_size (level : Z) :
  Math_round (10 * (1 + (1 # 10) * (inject_Z level - 1))) = (9 + level)%Z.
Proof.
  apply Math_round_half. rewrite inject_Z_plus.
  change (inject_Z 9) with 9%Q. lra.
Qed.

(** On doubles [Math.round(10 * bonusMult)] is the same count, for every
    bonus level up to 1024. *)
Lemma jackpot_count_on_doubles :
  forallb (fun n => (Math_round (Binary64.mul 10 (App.bonusMult (Z.of_nat n)))
                     =? 9 + Z.of_nat n)%Z)
          (seq 1 1024) = true.
Proof. vm_compute. reflexivity. Qed.

(** The size of a burst: 9 + level coins, capped by the area of the bed,
    and never less than one. *)
Lemma jackpotCoins_size (dims : MachineDimensions) (extenderLevel level : Z) :
  (1 <= level)%Z ->
  let n := App.jackpotCoins dims extenderLevel level in
  (1 <= n)%Z /\ (n <= 9 + level)%Z.
Proof.
  intros H. cbn zeta. unfold App.jackpotCoins. cbn zeta.
  rewrite jackpot_base_size. lia.
Qed.

Lemma jackpotUpdater_order (l : list CoinData.t) (cs : App.CoinState) :
  App.coinOrder (App.jackpotUpdater l cs) = App.coinOrder cs ++ map CoinData.id l.
Proof. reflexivity. Qed.

(** X18.  A full meter pays one jackpot burst.  On a rendered state whose
    meter is at 96 or more and with no burst waiting, a collection empties
    the meter, raises the bonus level by one and schedules exactly one
    burst for the new level; when its timeout fires, n coins are appended
    to the registry order, all under ids starting with "bonus-", with
    1 <= n <= 9 + new level, and nothing stays scheduled.  (The machine
    dimensions must give the bed a non-zero area, as the size is a ratio
    of areas.) *)
Theorem full_meter_pays_one_jackpot_burst
    (dims : MachineDimensions) (draw : nat -> Rnd)
    (id : string) (type : CoinType) (a : App.t) :
  reachable a ->
  ~ (baseWidth dims * bedLength dims == 0)%Q ->
  (96 <= GameState.bonus (App.gameState a))%Q ->
  App.timeouts a = [] ->
  let a1 := App.handleCoinCollected id type (App.render a) in
  let a2 := App.runTimeout dims draw a1 in
  let level := (GameState.bonusLevel (App.gameState a) + 1)%Z in
  let n := App.jackpotCoins dims
             (App.artifactLevel "extender" (GameState.artifacts (App.gameState a)))
             level in
  GameState.bonus (App.gameState a1) = 0%Q
  /\ GameState.bonusLevel (App.gameState a1) = level
  /\ App.timeouts a1 = [level]
  /\ App.timeouts a2 = []
  /\ App.gameState a2 = App.gameState a1
  /\ (1 <= n)%Z /\ (n <= 9 + level)%Z
  /\ App.coinOrder (App.coinState a2)
     = App.coinOrder (App.coinState a1)
       ++ map (fun i => ("bonus-" ++ digits (draw i))%string) (seq 0 (Z.to_nat n)).
Proof.
  intros Hr _ Hb Ht. apply reachable_progression_inv in Hr as ((_ & Hl & _) & _).
  cbn zeta.
  assert (Hfull : Qle_bool 100 (GameState.bonus (App.gameState a) + 4) = true).
  { apply Qle_bool_true. lra. }
  assert (E : App.handleCoinCollected id type (App.render a)
              = App.setGameState
                  (fun prev =>
                     GameState.mk (GameState.phase prev)
                       (GameState.score prev
                        + App.payout (DeckItem.score (COIN_CONFIG type))
                            (App.artifactLevel "mult"
                               (GameState.artifacts (App.gameState a)))
                            (GameState.bonusLevel (App.gameState a)))%Z
                       (GameState.targetScore prev)
                       (GameState.cash prev + DeckItem.value (COIN_CONFIG type))%Z
                       (GameState.ante prev) (GameState.deck prev)
                       (GameState.artifacts prev) 0%Q
                       (GameState.bonusLevel (App.gameState a) + 1)%Z)
                  (App.setTimeouts
                     [(GameState.bonusLevel (App.gameState a) + 1)%Z]
                     (App.setClocks (App.physicsTime a) (App.lastBonusDecayTime a)
                        (App.setCoinState (App.collectUpdater id) (App.render a))))).
  { unfold App.handleCoinCollected.
    cbn [App.render App.setGameState App.setCoinState App.setClocks
         App.gameStateRef App.physicsTime App.lastBonusDecayTime App.timeouts].
    rewrite Hfull, Ht. reflexivity. }
  rewrite E.
  cbn [App.setGameState App.setTimeouts App.setClocks App.setCoinState App.render
       App.gameState App.timeouts GameState.bonus GameState.bonusLevel].
  split; [reflexivity|]. split; [reflexivity|]. split; [reflexivity|].
  unfold App.runTimeout.
  cbn [App.setGameState App.setTimeouts App.setClocks App.setCoinState App.render
       App.gameState App.timeouts App.triggerJackpot App.gameStateRef App.coinState].
  split; [reflexivity|]. split; [reflexivity|].
  destruct (jackpotCoins_size dims
              (App.artifactLevel "extender" (GameState.artifacts (App.gameState a)))
              (GameState.bonusLevel (App.gameState a) + 1)) as [H1 H2]; [lia|].
  split; [exact H1|]. split; [exact H2|].
  rewrite jackpotUpdater_order, map_map. reflexivity.
Qed.

Lemma full_meter_pays_one_jackpot_burst_witness :
  let a1 := App.handleCoinCollected "x" STANDARD (App.render Scenario.nearlyFull) in
  let a2 := App.runTimeout Sample.dims Sample.draw a1 in
  App.timeouts a1 = [2%Z] /\ App.timeouts a2 = []
  /\ length (App.coinOrder (App.coinState a2))
     = (length (App.coinOrder (App.coinState a1)) + 11)%nat.
Proof.
  destruct (full_meter_pays_one_jackpot_burst Sample.dims Sample.draw "x" STANDARD
              Scenario.nearlyFull nearlyFull_reachable)
    as (_ & _ & H3 & H4 & _ & _ & _ & H8).
  - vm_compute. discriminate.
  - vm_compute. discriminate.
  - reflexivity.
  - split; [exact H3|]. split; [exact H4|].
    cbn zeta in H8. rewrite H8, length_app, length_map, length_seq.
    f_equal.
Defined.

(** ** The repeat delay of a held button *)

Lemma Math_max0_mono (p q : Q) : (p <= q)%Q -> (Math_max0 p <= Math_max0 q)%Q.
Proof.
  intros H. unfold Math_max0.
  destruct (Qle_bool p 0) eqn:Hp; destruct (Qle_bool q 0) eqn:Hq;
    try apply Qle_bool_iff in Hp; try apply Qle_bool_iff in Hq;
    try apply Qle_bool_false in Hp; try apply Qle_bool_false in Hq; lra.
Qed.

Lemma ramp_in_unit (t : Q) :
  (0 <= t)%Q -> (0 <= Math_max0 (1 - t / 2000))%Q /\ (Math_max0 (1 - t / 2000) <= 1)%Q.
Proof.
  intros H. split; [apply Math_max0_nonneg|].
  apply Math_max0_le; [lra|].
  assert (0 <= t / 2000)%Q by (apply Qle_shift_div_l; lra). lra.
Qed.

(** X19.  The delay between two repeats of a held button, for a minimum
    interval that does not exceed the base interval: the delay always lies
    between the two; it is the base interval until the acceleration delay
    has passed, the minimum interval from two seconds after that on, and it
    never grows while the button is held. *)
Theorem repeat_delay_ramps_down_to_the_minimum
    (baseInterval accelerationDelay minInterval : Q) :
  (minInterval <= baseInterval)%Q ->
  let delay := useRepeatAction.currentDelay baseInterval accelerationDelay minInterval in
  (forall elapsed, (minInterval <= delay elapsed)%Q /\ (delay elapsed <= baseInterval)%Q)
  /\ (forall elapsed, (elapsed <= accelerationDelay)%Q -> delay elapsed = baseInterval)
  /\ (forall elapsed,
        (accelerationDelay + 2000 <= elapsed)%Q -> (delay elapsed == minInterval)%Q)
  /\ (forall e1 e2, (e1 <= e2)%Q -> (delay e2 <= delay e1)%Q).
Proof.
  intros Hmin. cbn zeta.
  assert (Hbounds : forall elapsed,
            (minInterval
             <= useRepeatAction.currentDelay baseInterval accelerationDelay
                  minInterval elapsed)%Q
            /\ (useRepeatAction.currentDelay baseInterval accelerationDelay
                  minInterval elapsed <= baseInterval)%Q).
  { intros elapsed. unfold useRepeatAction.currentDelay.
    destruct (Qle_bool elapsed accelerationDelay) eqn:He; cbn [negb]; [lra|].
    apply Qle_bool_false in He.
    destruct (ramp_in_unit (elapsed - accelerationDelay)) as [H0 H1]; [lra|].
    set (decay := Math_max0 (1 - (elapsed - accelerationDelay) / 2000)) in *.
    split; nra. }
  split; [exact Hbounds|]. split; [|split].
  - intros elapsed He. unfold useRepeatAction.currentDelay.
    rewrite (Qle_bool_true _ _ He). reflexivity.
  - intros elapsed He. unfold useRepeatAction.currentDelay.
    rewrite Qlt_Qle_bool_false by lra. cbn [negb].
    assert (E : (Math_max0 (1 - (elapsed - accelerationDelay) / 2000) == 0)%Q).
    { unfold Math_max0. rewrite Qle_bool_true; [reflexivity|].
      assert (1 <= (elapsed - accelerationDelay) / 2000)%Q; [|lra].
      apply Qle_shift_div_l; lra. }
    rewrite E. lra.
  - intros e1 e2 He.
    destruct (Hbounds e1) as [_ Hb1]. destruct (Hbounds e2) as [_ Hb2].
    unfold useRepeatAction.currentDelay in *.
    destruct (Qle_bool e1 accelerationDelay) eqn:H1; cbn [negb] in *.
    + destruct (Qle_bool e2 accelerationDelay); cbn [negb] in *; [lra | exact Hb2].
    + apply Qle_bool_false in H1. rewrite Qlt_Qle_bool_false by lra. cbn [negb].
      assert (Hm : (Math_max0 (1 - (e2 - accelerationDelay) / 2000)
                    <= Math_max0 (1 - (e1 - accelerationDelay) / 2000))%Q).
      { apply Math_max0_mono.
        assert ((e1 - accelerationDelay) / 2000 <= (e2 - accelerationDelay) / 2000)%Q;
          [|lra].
        apply Qmult_le_compat_r; [lra | discriminate]. }
      set (d1 := Math_max0 (1 - (e1 - accelerationDelay) / 2000)) in *.
      set (d2 := Math_max0 (1 - (e2 - accelerationDelay) / 2000)) in *.
      nra.
Qed.

Lemma repeat_delay_ramps_down_to_the_minimum_witness :
  (30 <= useRepeatAction.currentDelay 120 500 30 1500)%Q
  /\ (useRepeatAction.currentDelay 120 500 30 1500 <= 120)%Q
  /\ (useRepeatAction.currentDelay 120 500 30 2500 == 30)%Q.
Proof.
  destruct (repeat_delay_ramps_down_to_the_minimum 120 500 30) as (H1 & _ & H3 & _).
  - vm_compute. discriminate.
  - destruct (H1 1500%Q) as [Ha Hb]. split; [exact Ha|]. split; [exact Hb|].
    apply H3. vm_compute. discriminate.
Defined.

(** ** The collection sensor *)

(** X20.  The sensor under the machine.  A coin body with a non-empty id
    that enters the sensor is collected: the coin leaves the list of coins
    handed to the scene, the others stay in their order, and the cash grows
    by the value of its type.  Nothing else is collected: a body without
    user data, a missing body and a coin body with an empty id leave the
    application as it is. *)
Theorem sensor_collects_the_entering_coin (c : CoinData.t) (a : App.t) :
  registry_wf (App.coinState a) -> keyed (App.coinState a) ->
  CoinData.id c <> "" ->
  let a' := Machine.sensor (Some (Coins.coinBodyObject c)) a in
  a' = App.handleCoinCollected (CoinData.id c) (CoinData.type c) a
  /\ App.activeCoins (App.coinState a')
     = filter (fun x => CoinData.id x <> CoinData.id c)
         (App.activeCoins (App.coinState a))
  /\ GameState.cash (App.gameState a')
     = (GameState.cash (App.gameState a)
        + DeckItem.value (COIN_CONFIG (CoinData.type c)))%Z
  /\ Machine.sensor None a = a
  /\ (forall name, Machine.sensor (Some (RigidBodyObject.mk name None)) a = a)
  /\ (forall type position rotation hasSplit isActive,
        Machine.sensor
          (Some (Coins.coinBodyObject
                   (CoinData.mk "" type position rotation hasSplit isActive))) a
        = a).
Proof.
  intros Hwf Hkey Hid. cbn zeta.
  assert (E : Machine.sensor (Some (Coins.coinBodyObject c)) a
              = App.handleCoinCollected (CoinData.id c) (CoinData.type c) a).
  { unfold Machine.sensor, Machine.onIntersectionEnter, Coins.coinBodyObject.
    cbn [mbind option_bind RigidBodyObject.userData UserData.coinId
         UserData.coinType].
    rewrite truthy_str_Some.
    destruct (String.eqb_spec (CoinData.id c) ""); [contradiction|]. reflexivity. }
  split; [exact E|]. rewrite E.
  split; [|split; [|split; [reflexivity | split; [reflexivity | reflexivity]]]].
  - unfold App.handleCoinCollected.
    cbn [App.setGameState App.setCoinState App.setClocks App.gameStateRef].
    destruct (Qle_bool 100 _);
      cbn [App.setGameState App.setCoinState App.setClocks App.setTimeouts
           App.coinState];
      exact (rendered_remove (CoinData.id c) (App.coinState a) Hwf Hkey).
  - unfold App.handleCoinCollected.
    cbn [App.setGameState App.setCoinState App.setClocks App.gameStateRef].
    destruct (Qle_bool 100 _); reflexivity.
Qed.

Lemma sensor_collects_the_entering_coin_witness :
  let cs := Sample.registry [Sample.seed; Sample.water; Sample.chip] in
  let a := App.setCoinState (fun _ => cs) App.initial in
  let a' := Machine.sensor (Some (Coins.coinBodyObject Sample.water)) a in
  App.activeCoins (App.coinState a') = [Sample.seed; Sample.chip]
  /\ GameState.cash (App.gameState a') = 105%Z.
Proof.
  intros cs a a'.
  destruct (sensor_collects_the_entering_coin Sample.water a) as (_ & H2 & H3 & _).
  - apply sample_registry_wf. apply (bool_decide_unpack _). vm_compute. exact I.
  - apply jackpotUpdater_keyed, keyed_empty.
  - discriminate.
  - split; [|exact H3]. etransitivity; [exact H2|]. vm_compute. reflexivity.
Defined.

(** ** Names of coin bodies (the earlier collision handler) *)

Lemma split_nonempty (sep : Ascii.ascii) (s : string) : OldCoins.split sep s <> [].
Proof.
  destruct s as [|c s]; cbn; [discriminate|].
  destruct (Ascii.eqb c sep); [discriminate|].
  destruct (OldCoins.split sep s); discriminate.
Qed.

Lemma join_cons (sep : Ascii.ascii) (c : Ascii.ascii) (h : string) (t : list string) :
  OldCoins.join sep (String c h :: t) = String c (OldCoins.join sep (h :: t)).
Proof. destruct t; reflexivity. Qed.

(** Joining the parts of a split gives the string back. *)
Lemma join_split (sep : Ascii.ascii) (s : string) :
  OldCoins.join sep (OldCoins.split sep s) = s.
Proof.
  induction s as [|c s IH]; [reflexivity|]. cbn [OldCoins.split].
  destruct (Ascii.eqb_spec c sep) as [-> | Hne].
  - destruct (OldCoins.split sep s) as [|h t] eqn:E;
      [exfalso; exact (split_nonempty _ _ E)|].
    cbn [OldCoins.join]. rewrite <- IH. reflexivity.
  - destruct (OldCoins.split sep s) as [|h t] eqn:E;
      [exfalso; exact (split_nonempty _ _ E)|].
    rewrite join_cons, IH. reflexivity.
Qed.

Lemma coin_name_parts (o : CoinData.t) :
  OldCoins.split OldCoins.dash (RigidBodyObject.name (Coins.coinBodyObject o))
  = "coin" :: CoinType_str (CoinData.type o)
      :: OldCoins.split OldCoins.dash (CoinData.id o).
Proof.
  unfold Coins.coinBodyObject. cbn [RigidBodyObject.name].
  destruct (CoinData.type o); reflexivity.
Qed.

Lemma coin_name_otherType (o : CoinData.t) :
  OldCoins.otherType (RigidBodyObject.name (Coins.coinBodyObject o))
  = Some (CoinType_str (CoinData.type o)).
Proof. unfold OldCoins.otherType. rewrite coin_name_parts. reflexivity. Qed.

Lemma coin_name_otherId (o : CoinData.t) :
  OldCoins.otherId (RigidBodyObject.name (Coins.coinBodyObject o)) = CoinData.id o.
Proof.
  unfold OldCoins.otherId. rewrite coin_name_parts. cbn [drop]. apply join_split.
Qed.

Lemma coin_name_prefix (o : CoinData.t) :
  String.prefix "coin-" (RigidBodyObject.name (Coins.coinBodyObject o)) = true
  /\ String.prefix "coin-STANDARD" (RigidBodyObject.name (Coins.coinBodyObject o))
     = bool_decide (CoinData.type o = STANDARD)
  /\ String.eqb (RigidBodyObject.name (Coins.coinBodyObject o)) "" = false
  /\ String.eqb (RigidBodyObject.name (Coins.coinBodyObject o)) "pusher" = false.
Proof.
  unfold Coins.coinBodyObject. cbn [RigidBodyObject.name].
  destruct (CoinData.type o); repeat split; reflexivity.
Qed.

(** X21.  The name of a coin body round-trips through the parser of the
    earlier collision handler.  Whatever the id of the coin (dashes and the
    empty id included), splitting the name "coin-TYPE-id" at the dashes
    gives the type back as the second part and the id back as the rest
    joined by dashes; the name starts with "coin-", and it starts with
    "coin-STANDARD" exactly for a standard coin. *)
Theorem coin_body_name_round_trips (o : CoinData.t) :
  let name := RigidBodyObject.name (Coins.coinBodyObject o) in
  OldCoins.otherType name = Some (CoinType_str (CoinData.type o))
  /\ OldCoins.otherId name = CoinData.id o
  /\ String.prefix "coin-" name = true
  /\ String.prefix "coin-STANDARD" name = bool_decide (CoinData.type o = STANDARD).
Proof.
  cbn zeta. split; [apply coin_name_otherType|]. split; [apply coin_name_otherId|].
  destruct (coin_name_prefix o) as (H1 & H2 & _). split; assumption.
Qed.

(** ** The two collision handlers *)

Lemma type_str_eq (a b : CoinType) :
  bool_decide (Some (CoinType_str a) = Some (CoinType_str b)) = bool_decide (a = b).
Proof. destruct a, b; reflexivity. Qed.

Lemma type_some_eq (a b : CoinType) :
  bool_decide (Some a = Some b) = bool_decide (a = b).
Proof. destruct a, b; reflexivity. Qed.

(** X22.  The collision handler that reads the user data of the other body
    and queues its events decides as the earlier handler, which parsed the
    name of the other body and called back at once.  For a contact of any
    coin with the body of a coin with a non-empty id, starting from empty
    queues, the callbacks made by the next frame and the impulses applied
    are those of the earlier handler. *)
Theorem queued_handler_agrees_with_the_earlier_handler
    (world : list RapierRigidBody.t) (p : CollisionPayload.t)
    (c o : CoinData.t) :
  CollisionSide.rigidBodyObject (CollisionPayload.other p)
  = Some (Coins.coinBodyObject o) ->
  CoinData.id o <> "" ->
  let e := Coins.handleCollision world p c (Coins.mkEnv Coins.noPending []) in
  ((Coins.useFrame (Coins.pending e)).1, Coins.impulses e)
  = OldCoins.handleCollision world p c.
Proof.
  intros Hother Hid. cbn zeta.
  assert (Htruthy : truthy_str (Some (CoinData.id o)) = true).
  { rewrite truthy_str_Some. destruct (String.eqb_spec (CoinData.id o) "");
      [contradiction | reflexivity]. }
  destruct (coin_name_prefix o) as (Hp1 & Hp2 & Hp3 & Hp4).
  unfold Coins.handleCollision, OldCoins.handleCollision. rewrite Hother, Hp3.
  unfold OldCoins.coinToCoin, OldCoins.reaction, OldCoins.midasLogic,
    OldCoins.splitterLogic, Coins.splitterLogic.
  rewrite Hp1, Hp2, Hp4, coin_name_otherType, coin_name_otherId, !type_str_eq.
  unfold Coins.coinToCoin, Coins.midasLogic, Coins.bombLogic, OldCoins.bombLogic,
    Coins.triggerExplosion, OldCoins.triggerExplosion, Coins.coinBodyObject.
  cbn [RigidBodyObject.userData].
  destruct (CoinData.type c) eqn:Hc.
  all: repeat match goal with
       | |- context [Coins.has ?s ?t] =>
           let v := eval vm_compute in (Coins.has s t) in
           change (Coins.has s t) with v
       | |- context [@bool_decide (?a = ?b) ?d] =>
           is_constructor a; is_constructor b;
           let v := eval vm_compute in (@bool_decide (a = b) d) in
           change (@bool_decide (a = b) d) with v
       end.
  all: cbn [negb andb orb mbind option_bind UserData.coinId UserData.coinType app
            fst snd].
  all: rewrite ?type_some_eq, ?Htruthy.
  all: try reflexivity.
  all: try match goal with
           | |- context [CoinData.type ?x] => destruct (CoinData.type x)
           end.
  all: repeat match goal with
       | |- context [Coins.lookupResult ?a ?b] =>
           let v := eval vm_compute in (Coins.lookupResult a b) in
           change (Coins.lookupResult a b) with v
       | |- context [@bool_decide (?a = ?b) ?d] =>
           is_constructor a; is_constructor b;
           let v := eval vm_compute in (@bool_decide (a = b) d) in
           change (@bool_decide (a = b) d) with v
       end.
  all: cbn [negb andb orb app].
  all: try reflexivity.
  all: try destruct (CollisionSide.rigidBody (CollisionPayload.target p)).
  all: repeat match goal with
       | |- context [if ?b then _ else _] => destruct b
       end.
  all: reflexivity.
Qed.

Lemma queued_handler_agrees_with_the_earlier_handler_witness :
  OldCoins.handleCollision [] (Sample.hits Sample.water) Sample.seed
  = ([Coins.OnInteraction "a1" "b2" TREE], []).
Proof.
  rewrite <- (queued_handler_agrees_with_the_earlier_handler []
                (Sample.hits Sample.water) Sample.seed Sample.water).
  - vm_compute. reflexivity.
  - reflexivity.
  - discriminate.
Defined.

Lemma prefix_app (a b s : string) :
  String.prefix (a ++ b) s = true -> String.prefix a s = true.
Proof.
  revert s. induction a as [|ch a IH]; intros s H; [destruct s; reflexivity|].
  destruct s as [|ch' s]; simpl in H |- *; [discriminate H|].
  destruct (ascii_dec ch ch'); [|discriminate H]. apply IH. exact H.
Qed.

(** X23.  The two handlers also agree on bodies that are not coins: for a
    contact of any coin with a named body that carries no user data and
    whose name does not start with "coin-" (the pusher, the walls), the
    callbacks of the next frame and the impulses applied are those of the
    earlier handler. *)
Theorem handlers_agree_on_bodies_that_are_not_coins
    (world : list RapierRigidBody.t) (p : CollisionPayload.t)
    (c : CoinData.t) (ob : RigidBodyObject.t) :
  CollisionSide.rigidBodyObject (CollisionPayload.other p) = Some ob ->
  RigidBodyObject.userData ob = None ->
  RigidBodyObject.name ob <> "" ->
  String.prefix "coin-" (RigidBodyObject.name ob) = false ->
  let e := Coins.handleCollision world p c (Coins.mkEnv Coins.noPending []) in
  ((Coins.useFrame (Coins.pending e)).1, Coins.impulses e)
  = OldCoins.handleCollision world p c.
Proof.
  intros Hother Hud Hname Hprefix. cbn zeta.
  assert (Hp2 : String.prefix "coin-STANDARD" (RigidBodyObject.name ob) = false).
  { destruct (String.prefix "coin-STANDARD" (RigidBodyObject.name ob)) eqn:E;
      [|reflexivity].
    apply (prefix_app "coin-" "STANDARD") in E. congruence. }
  assert (Hp3 : String.eqb (RigidBodyObject.name ob) "" = false).
  { destruct (String.eqb_spec (RigidBodyObject.name ob) "");
      [contradiction | reflexivity]. }
  unfold Coins.handleCollision, OldCoins.handleCollision. rewrite Hother, Hp3, Hud.
  unfold OldCoins.coinToCoin, OldCoins.midasLogic,
    OldCoins.splitterLogic, Coins.splitterLogic.
  rewrite Hprefix, Hp2.
  unfold Coins.coinToCoin, Coins.midasLogic, Coins.bombLogic, OldCoins.bombLogic,
    Coins.triggerExplosion, OldCoins.triggerExplosion.
  destruct (CoinData.type c) eqn:Hc.
  all: repeat match goal with
       | |- context [Coins.has ?s ?t] =>
           let v := eval vm_compute in (Coins.has s t) in
           change (Coins.has s t) with v
       | |- context [@bool_decide (?a = ?b) ?d] =>
           is_constructor a; is_constructor b;
           let v := eval vm_compute in (@bool_decide (a = b) d) in
           change (@bool_decide (a = b) d) with v
       end.
  all: cbn [negb andb orb mbind option_bind UserData.coinId UserData.coinType app
            fst snd].
  all: try reflexivity.
  all: try destruct (CollisionSide.rigidBody (CollisionPayload.target p)).
  all: try destruct (CollisionPayload.solverContactPoint0 p).
  all: repeat match goal with
       | |- context [if ?b then _ else _] => destruct b
       end.
  all: reflexivity.
Qed.

Lemma handlers_agree_on_bodies_that_are_not_coins_witness :
  let contact := Vector3.mk 1%float 2%float 3%float in
  OldCoins.handleCollision [] (Sample.hitsPusher contact) Sample.cell
  = ([Coins.OnSplit "s4" (Vector3.mk 1%float 3%float 3%float)], []).
Proof.
  intros contact.
  rewrite <- (handlers_agree_on_bodies_that_are_not_coins []
                (Sample.hitsPusher contact) Sample.cell
                (RigidBodyObject.mk "pusher" None)).
  - vm_compute. reflexivity.
  - reflexivity.
  - reflexivity.
  - discriminate.
  - reflexivity.
Defined.

(** ** Collections between two renders *)

(** X2.  Two collections that arrive before the next render read the same
    rendered copy of the state.  Cash and score are credited for both, each
    with the multipliers of the rendered state (the score gained is the
    floor of the product of doubles); the bonus meter and the
    bonus level end where one collection alone would have put them; and
    when the rendered meter is at 96 or more, both collections schedule a
    jackpot burst, for the same level. *)
Theorem collections_between_renders_read_the_same_meter
    (id1 id2 : string) (type1 type2 : CoinType) (a : App.t) :
  let a1 := App.handleCoinCollected id1 type1 a in
  let a2 := App.handleCoinCollected id2 type2 a1 in
  let shown := App.gameStateRef a in
  let gain type :=
    Qfloor
      (Binary64.mul
         (Binary64.mul (inject_Z (DeckItem.score (COIN_CONFIG type)))
            (Binary64.round
               ((3 # 2) ^ App.artifactLevel "mult" (GameState.artifacts shown))))
         (Binary64.add 1
            (Binary64.mul (Binary64.round (1 # 10))
               (Binary64.sub (inject_Z (GameState.bonusLevel shown)) 1)))) in
  GameState.bonus (App.gameState a2) = GameState.bonus (App.gameState a1)
  /\ GameState.bonusLevel (App.gameState a2) = GameState.bonusLevel (App.gameState a1)
  /\ GameState.cash (App.gameState a2)
     = (GameState.cash (App.gameState a) + DeckItem.value (COIN_CONFIG type1)
        + DeckItem.value (COIN_CONFIG type2))%Z
  /\ GameState.score (App.gameState a2)
     = (GameState.score (App.gameState a) + gain type1 + gain type2)%Z
  /\ ((96 <= GameState.bonus shown)%Q ->
      App.timeouts a2
      = App.timeouts a
        ++ [(GameState.bonusLevel shown + 1)%Z; (GameState.bonusLevel shown + 1)%Z])
  /\ ((GameState.bonus shown < 96)%Q -> App.timeouts a2 = App.timeouts a).
Proof.
  cbn zeta. unfold App.handleCoinCollected.
  cbn [App.setGameState App.setCoinState App.setClocks App.gameStateRef].
  destruct (Qle_bool 100 (GameState.bonus (App.gameStateRef a) + 4)) eqn:Hfull;
    cbn [App.setGameState App.setCoinState App.setClocks App.setTimeouts
         App.gameStateRef App.gameState App.timeouts
         GameState.bonus GameState.bonusLevel GameState.cash GameState.score];
    rewrite ?Hfull;
    cbn [App.setGameState App.setCoinState App.setClocks App.setTimeouts
         App.gameStateRef App.gameState App.timeouts
         GameState.bonus GameState.bonusLevel GameState.cash GameState.score];
    (split; [reflexivity|]); (split; [reflexivity|]); (split; [reflexivity|]);
    (split; [reflexivity|]).
  - split; [intros _; rewrite <- app_assoc; reflexivity|].
    intros H. apply Qle_bool_iff in Hfull. lra.
  - apply Qle_bool_false in Hfull. split; [intros H; lra | reflexivity].
Qed.

(** ** Coin packs *)

(** X24.  The button of a coin pack on a rendered state.  If the rendered
    cash does not cover the cost, the press changes nothing.  Otherwise it
    takes exactly the cost, so that the cash does not fall below zero when
    it was not below zero, adds five coins of the type of the pack to the
    deck, and leaves the other counts, the artifacts, the score and the
    registry alone. *)
Theorem coin_pack_adds_five_to_the_deck (coin : DeckItem.t) (a : App.t) :
  let g := App.gameState a in
  let a' := Shop.pressCoin coin (App.render a) in
  let g' := App.gameState a' in
  ((GameState.cash g < DeckItem.cost coin)%Z -> a' = App.render a)
  /\ ((DeckItem.cost coin <= GameState.cash g)%Z ->
      GameState.cash g' = (GameState.cash g - DeckItem.cost coin)%Z
      /\ ((0 <= GameState.cash g)%Z -> (0 <= GameState.cash g')%Z)
      /\ GameState.deck g' (DeckItem.type coin)
         = (GameState.deck g (DeckItem.type coin) + 5)%Z
      /\ (forall t', t' <> DeckItem.type coin ->
            GameState.deck g' t' = GameState.deck g t')
      /\ GameState.artifacts g' = GameState.artifacts g
      /\ GameState.score g' = GameState.score g
      /\ App.coinState a' = App.coinState a).
Proof.
  cbn zeta. unfold Shop.pressCoin, App.buyItem.
  cbn [App.render App.gameStateRef].
  destruct (Z.leb_spec (DeckItem.cost coin) (GameState.cash (App.gameState a)))
    as [Hle | Hlt].
  - split; [lia|]. intros _.
    cbn [App.setGameState App.gameState App.coinState App.buyUpdater App.render
         GameState.cash GameState.deck GameState.artifacts GameState.score].
    split; [reflexivity|]. split; [lia|].
    split; [rewrite decide_True by reflexivity; reflexivity|].
    split; [intros t' Ht'; rewrite decide_False by exact Ht'; reflexivity|].
    auto.
  - split; [reflexivity|]. lia.
Qed.

(** ** The next round *)

(** X25.  A new round in a reachable state: the target score strictly
    grows (it becomes floor(1.5 * target)), the ante goes up by one, the
    phase is PLAYING, and score, cash, deck, artifacts and bonus are kept.
    Both decay clocks restart, so that a firing of the decay interval
    before two seconds of physics time have passed (on the clock as the
    ticks accumulate it, a sum of doubles) leaves the game state as the new
    round set it. *)
Theorem next_round_raises_the_target (ds : list Q) (a : App.t) :
  reachable a ->
  (foldl Binary64.add (App.physicsTime a) ds - App.physicsTime a <= 2)%Q ->
  let g := App.gameState a in
  let a1 := App.nextRound a in
  let g1 := App.gameState a1 in
  (GameState.targetScore g < GameState.targetScore g1)%Z
  /\ GameState.targetScore g1 = Qfloor (inject_Z (GameState.targetScore g) * (3 # 2))
  /\ GameState.ante g1 = (GameState.ante g + 1)%Z
  /\ GameState.phase g1 = PLAYING
  /\ g1 = GameState.mk PLAYING (GameState.score g) (GameState.targetScore g1)
            (GameState.cash g) (GameState.ante g1) (GameState.deck g)
            (GameState.artifacts g) (GameState.bonus g) (GameState.bonusLevel g)
  /\ App.gameState (App.decayInterval (run (map PhysicsTick ds) a1)) = g1.
Proof.
  intros Hr Hd. apply reachable_progression_inv in Hr as ((_ & _ & _ & Ht) & _).
  cbn zeta.
  destruct (physicsTime_ticks ds (App.nextRound a)) as (H1 & H2 & H3 & H4 & H5).
  split; [|split; [reflexivity|split; [reflexivity|split; [reflexivity|split;
            [reflexivity|]]]]].
  - unfold App.nextRound.
    cbn [App.setGameState App.setClocks App.gameState GameState.targetScore].
    apply (Z.lt_le_trans _ (GameState.targetScore (App.gameState a) + 1)); [lia|].
    rewrite <- (Qfloor_Z (GameState.targetScore (App.gameState a) + 1)).
    apply Qfloor_resp_le. rewrite inject_Z_plus. change (inject_Z 1) with 1%Q.
    assert (2000 <= inject_Z (GameState.targetScore (App.gameState a)))%Q.
    { change 2000%Q with (inject_Z 2000). rewrite <- Zle_Qle. exact Ht. }
    lra.
  - rewrite <- H2. unfold App.decayInterval.
    destruct (negb _ || negb _); [reflexivity|].
    rewrite H1, H5. unfold App.nextRound at 1 2.
    cbn [App.setGameState App.setClocks App.physicsTime App.lastScoreTime].
    rewrite (Qle_bool_true _ _ Hd). reflexivity.
Qed.

Lemma next_round_raises_the_target_witness :
  let a := App.handleRoundEnd (App.render Scenario.nearlyFull) in
  let a1 := App.nextRound a in
  GameState.targetScore (App.gameState a1) = 3000%Z
  /\ GameState.ante (App.gameState a1) = 2%Z
  /\ App.gameState (App.decayInterval (run [PhysicsTick 1; PhysicsTick 1] a1))
     = App.gameState a1.
Proof.
  intros a a1.
  assert (Hr : reachable a).
  { exists ([StartGame Sample.draw; Render] ++ Scenario.falls ++ [Render; RoundEnd]).
    unfold a, Scenario.nearlyFull, Scenario.started, run.
    rewrite !foldl_app. reflexivity. }
  destruct (next_round_raises_the_target [1%Q; 1%Q] a Hr) as (_ & H2 & H3 & _ & _ & H6).
  - vm_compute. discriminate.
  - split; [etransitivity; [exact H2|]; vm_compute; reflexivity|].
    split; [etransitivity; [exact H3|]; vm_compute; reflexivity|]. exact H6.
Defined.
